(** * ClawTrace service: a shallow embedding of [src/service.js]

    The development follows the source file top to bottom: the string
    helpers the service relies on, the value model of event payloads, the
    sanitizer ([createSanitizer]), the parameter extractors ([pickPaths],
    [pickUrl], [summarize]), the ledger file ([parseLines], [tailLines],
    [emitLedger], the recent and export routes), the identity maps
    ([refreshSessionMaps], [resolveLabel], [resolveChannel]), the start
    queue ([pushStart], [popRecentStart]) and the three hook handlers
    together with the note route.  The loaders of the session and cron
    stores ([loadSessionMap], [loadCronJobNameMap]), the agent name
    ([loadAgentNameFromIdentity]) and the event stream ([sseSend]) come
    after them, with the vocabulary of the further properties.

    Modelling conventions.
    - A JavaScript string is a [string]; one character stands for one
      UTF-16 code unit, so the model covers code units below 256.
    - Payload numbers are IEEE doubles on which the service never computes:
      their carrier [number] is a section variable, with [String(n)] and
      the truthiness test as the only operations.  The numbers the service
      does compute with (line counts, [parseInt] results, millisecond
      clocks) are integers or NaN and are modelled by [jsnum] and [Z].
    - A plain object is the list returned by [Object.entries]: property
      names in insertion order.  Objects are plain data: they do not
      shadow [toString], [valueOf] or [__proto__].
    - The clock, the file system and [JSON.parse]/[JSON.stringify] belong
      to the platform; they enter as explicit arguments.
    - The hooks receive the session key, the agent id and the tool name
      as strings when present, as the plugin interface of the host types
      them.
    - The broadcast of each record to the connected event-stream clients
      has no effect on the ledger; it is modelled on its own ([sseSend],
      [broadcast]), a client being the chunks written to it. *)

From Stdlib Require Import ZArith List String Ascii Bool Lia DecimalString.
From stdpp Require Import gmap strings.
Import ListNotations.

Set Implicit Arguments.

Local Open Scope string_scope.
Local Open Scope Z_scope.

(** ** Strings *)

Module JsString.
Definition LF : ascii := ascii_of_nat 10.
Definition CR : ascii := ascii_of_nat 13.

Definition code (c : ascii) : nat := nat_of_ascii c.

(** [\s] and the characters stripped by [String.prototype.trim]. *)
Definition isWhiteSpace (c : ascii) : bool :=
  let n := code c in
  ((9 <=? n)%nat && (n <=? 13)%nat) || (n =? 32)%nat || (n =? 160)%nat.

(** ASCII case folding: the canonicalisation of the [i] flag for a
    pattern made of ASCII letters. *)
Definition foldAscii (c : ascii) : ascii :=
  let n := code c in
  if ((65 <=? n)%nat && (n <=? 90)%nat) then ascii_of_nat (n + 32) else c.

(** [String.prototype.toLowerCase] on code units below 256. *)
Definition lowerChar (c : ascii) : ascii :=
  let n := code c in
  if ((65 <=? n)%nat && (n <=? 90)%nat)
     || ((192 <=? n)%nat && (n <=? 222)%nat && negb (n =? 215)%nat)
  then ascii_of_nat (n + 32) else c.

Fixpoint mapChars (f : ascii -> ascii) (s : string) : string :=
  match s with
  | EmptyString => EmptyString
  | String c r => String (f c) (mapChars f r)
  end.

Definition toLowerCase (s : string) : string := mapChars lowerChar s.

(** [s.includes(sub)] *)
Fixpoint includes (sub s : string) : bool :=
  String.prefix sub s ||
  match s with
  | EmptyString => false
  | String _ r => includes sub r
  end.

(** A regular expression that is an alternation of ASCII words, flag
    [i], tested unanchored. *)
Definition testWordsCI (words : list string) (k : string) : bool :=
  existsb (fun w => includes (mapChars foldAscii w) (mapChars foldAscii k)) words.

Fixpoint allChars (p : ascii -> bool) (s : string) : bool :=
  match s with
  | EmptyString => true
  | String c r => p c && allChars p r
  end.

Fixpoint dropWhile (p : ascii -> bool) (s : string) : string :=
  match s with
  | EmptyString => EmptyString
  | String c r => if p c then dropWhile p r else s
  end.

Fixpoint rev_string (s : string) (acc : string) : string :=
  match s with
  | EmptyString => acc
  | String c r => rev_string r (String c acc)
  end.

(** [s.trim()] *)
Definition trim (s : string) : string :=
  let back := dropWhile isWhiteSpace (rev_string (dropWhile isWhiteSpace s) "") in
  rev_string back "".

(** [s.slice(0, n)] for [0 <= n] *)
Definition take (n : nat) (s : string) : string := String.substring 0 n s.

(** [s.split(sep)] for a non-empty separator; [skip] counts the
    characters of a matched separator still to be consumed. *)
Fixpoint split_go (sep : string) (skip : nat) (s : string) : list string :=
  match s with
  | EmptyString => [ EmptyString ]
  | String c r =>
      match skip with
      | S k => split_go sep k r
      | O =>
          if String.prefix sep s
          then EmptyString :: split_go sep (String.length sep - 1) r
          else match split_go sep 0 r with
               | h :: t => String c h :: t
               | [] => [ String c EmptyString ]
               end
      end
  end.

Definition split (sep s : string) : list string := split_go sep 0 s.

(** [String(n)] for a non-negative integer such as a length or an index *)
Definition ofNat (n : nat) : string := NilEmpty.string_of_uint (Nat.to_uint n).

(** [txt.split(/\r?\n/)] *)
Fixpoint splitNewlines (s : string) : list string :=
  match s with
  | EmptyString => [ EmptyString ]
  | String c r =>
      if Ascii.eqb c LF then EmptyString :: splitNewlines r
      else
        match r with
        | String c2 r2 =>
            if Ascii.eqb c CR && Ascii.eqb c2 LF
            then EmptyString :: splitNewlines r2
            else match splitNewlines r with
                 | h :: t => String c h :: t
                 | [] => [ String c EmptyString ]
                 end
        | EmptyString => [ String c EmptyString ]
        end
  end.

Definition isDigit (c : ascii) : bool :=
  let n := code c in (48 <=? n)%nat && (n <=? 57)%nat.

Definition digitVal (c : ascii) : Z := Z.of_nat (code c) - 48.

End JsString.

Import JsString.

(** ** Numbers the service computes with *)

(** An integer-valued JavaScript number, or NaN. *)
Inductive jsnum : Type :=
| NaN
| Int (z : Z).

(** [Math.max] and [Math.min]: NaN is contagious. *)
Definition Math_max (a b : jsnum) : jsnum :=
  match a, b with
  | Int x, Int y => Int (Z.max x y)
  | _, _ => NaN
  end.

Definition Math_min (a b : jsnum) : jsnum :=
  match a, b with
  | Int x, Int y => Int (Z.min x y)
  | _, _ => NaN
  end.

(** [a - b] *)
Definition jsnum_sub (a b : jsnum) : jsnum :=
  match a, b with
  | Int x, Int y => Int (x - y)
  | _, _ => NaN
  end.

(** [x || d] on numbers: NaN and 0 are falsy. *)
Definition jsnum_or (x d : jsnum) : jsnum :=
  match x with
  | NaN => d
  | Int z => if Z.eqb z 0 then d else x
  end.

Fixpoint digitsValue (acc : Z) (s : string) : Z :=
  match s with
  | EmptyString => acc
  | String c r => if isDigit c then digitsValue (10 * acc + digitVal c) r else acc
  end.

Definition startsWithDigit (s : string) : bool :=
  match s with
  | EmptyString => false
  | String c _ => isDigit c
  end.

(** [parseInt(s, 10)]: leading white space is skipped, one optional sign
    is read, then the longest run of decimal digits; no digit gives NaN.
    The value is kept exact: every use below clamps it first, and clamping
    commutes with the rounding of large values to a double. *)
Definition parseInt10 (s : string) : jsnum :=
  let t := dropWhile isWhiteSpace s in
  match t with
  | String c r =>
      if Ascii.eqb c "-"%char
      then (if startsWithDigit r then Int (- digitsValue 0 r) else NaN)
      else if Ascii.eqb c "+"%char
      then (if startsWithDigit r then Int (digitsValue 0 r) else NaN)
      else (if isDigit c then Int (digitsValue 0 t) else NaN)
  | EmptyString => NaN
  end.

(** ** Event payloads *)

Section Service.

(** Payload numbers: the carrier, [String(n)] and [Boolean(n)]. *)
Variable number : Type.
Variable number_toString : number -> string.
Variable number_truthy : number -> bool.

#[local] Unset Elimination Schemes.

(** A JavaScript value as the service sees it.  [VOther repr] stands for
    a value of any remaining type (function, symbol, bigint) and carries
    its [String(v)] form. *)
Inductive value : Type :=
| VUndefined
| VNull
| VBool (b : bool)
| VNum (n : number)
| VStr (s : string)
| VArr (xs : list value)
| VObj (fs : list (string * value))
| VOther (repr : string).

#[local] Set Elimination Schemes.

(** [Boolean(v)].  Among the other types only the bigint zero, printed
    ["0"], is falsy. *)
Definition truthy (v : value) : bool :=
  match v with
  | VUndefined | VNull => false
  | VBool b => b
  | VNum n => number_truthy n
  | VStr s => negb (String.eqb s "")
  | VArr _ | VObj _ => true
  | VOther r => negb (String.eqb r "0")
  end.

(** [a || b] *)
Definition or_else (a b : value) : value := if truthy a then a else b.

(** [String(v)]: an array joins its elements with commas, null and
    undefined elements printing as the empty string. *)
Fixpoint ToString (v : value) : string :=
  match v with
  | VUndefined => "undefined"
  | VNull => "null"
  | VBool true => "true"
  | VBool false => "false"
  | VNum n => number_toString n
  | VStr s => s
  | VArr xs =>
      (fix join (xs : list value) : string :=
         match xs with
         | [] => ""
         | x :: r =>
             let e := match x with
                      | VUndefined | VNull => ""
                      | _ => ToString x
                      end in
             match r with
             | [] => e
             | _ :: _ => e ++ "," ++ join r
             end
         end) xs
  | VObj _ => "[object Object]"
  | VOther r => r
  end.

Fixpoint assoc (k : string) (fs : list (string * value)) : option value :=
  match fs with
  | [] => None
  | (k', v) :: r => if String.eqb k k' then Some v else assoc k r
  end.

(** [v?.k] for a property name that no prototype defines. *)
Definition get_prop (v : value) (k : string) : value :=
  match v with
  | VObj fs => match assoc k fs with Some x => x | None => VUndefined end
  | _ => VUndefined
  end.

(** [out[k] = v] on a plain object: an existing property keeps its place. *)
Fixpoint obj_set (out : list (string * value)) (k : string) (v : value)
  : list (string * value) :=
  match out with
  | [] => [ (k, v) ]
  | (k', v') :: r =>
      if String.eqb k k' then (k', v) :: r else (k', v') :: obj_set r k v
  end.

Fixpoint indexed (i : nat) (xs : list value) : list (string * value) :=
  match xs with
  | [] => []
  | x :: r => (ofNat i, x) :: indexed (S i) r
  end.

Fixpoint chars (i : nat) (s : string) : list (string * value) :=
  match s with
  | EmptyString => []
  | String c r => (ofNat i, VStr (String c EmptyString)) :: chars (S i) r
  end.

(** [Object.entries(v)] *)
Definition Object_entries (v : value) : list (string * value) :=
  match v with
  | VObj fs => fs
  | VArr xs => indexed 0 xs
  | VStr s => chars 0 s
  | _ => []
  end.

(** ** createSanitizer *)

Section Sanitizer.

(** [maxString] is a finite number; a string length exceeds it exactly
    when it exceeds its floor, which is what the integer stands for. *)
Variable maxString : Z.
(** [dropKeysRe.test]: the configured pattern, any regular expression. *)
Variable dropKeysRe : string -> bool.

Definition isSensitiveKey (k : string) : bool := dropKeysRe k.

Definition skChar (c : ascii) : bool :=
  let n := code c in
  ((65 <=? n)%nat && (n <=? 90)%nat) || ((97 <=? n)%nat && (n <=? 122)%nat)
  || isDigit c || (n =? 95)%nat || (n =? 45)%nat.

Fixpoint skip (n : nat) (s : string) : string :=
  match n, s with
  | O, _ => s
  | S k, String _ r => skip k r
  | S _, EmptyString => EmptyString
  end.

(** [/^sk-[A-Za-z0-9_-]{10,}$/.test(s)] *)
Definition isSkToken (s : string) : bool :=
  String.prefix "sk-" s
  && (10 <=? String.length (skip 3 s))%nat
  && allChars skChar (skip 3 s).

(** [/^Bearer\s+\S+/i.test(s)] *)
Definition isBearer (s : string) : bool :=
  String.eqb (mapChars foldAscii (take 6 s)) "bearer"
  && match skip 6 s with
     | String c _ => isWhiteSpace c
     | EmptyString => false
     end
  && negb (String.eqb (dropWhile isWhiteSpace (skip 6 s)) "").

Definition redactedLength (s : string) : string :=
  "<redacted:" ++ ofNat (String.length s) ++ ">".

Definition sanitizeString (s : string) : string :=
  if maxString <? Z.of_nat (String.length s) then redactedLength s
  else if isSkToken s then "<redacted:sk>"
  else if isBearer s then "<redacted:bearer>"
  else s.

Fixpoint sanitizeAny (v : value) : value :=
  match v with
  | VUndefined => VUndefined
  | VNull => VNull
  | VStr s => VStr (sanitizeString s)
  | VNum n => VNum n
  | VBool b => VBool b
  | VArr xs => VArr (map sanitizeAny xs)
  | VObj fs =>
      VObj ((fix entries (fs : list (string * value)) (out : list (string * value)) :=
               match fs with
               | [] => out
               | (k, val) :: r =>
                   if isSensitiveKey k then entries r out
                   else entries r (obj_set out k (sanitizeAny val))
               end) fs [])
  | VOther r => VStr r
  end.

End Sanitizer.

(** The pattern used when [cfg.dropKeysRegex] is not set. *)
Definition default_dropKeysRe : string -> bool :=
  testWordsCI
    [ "token"; "secret"; "password"; "authorization"; "cookie"; "apiKey";
      "apikey"; "bearer"; "accessToken"; "refreshToken"; "privateKey" ].

(** ** pickPaths, pickUrl, summarize *)

Definition isPathKey (k : string) : bool :=
  String.eqb k "path" || String.eqb k "filePath" || String.eqb k "file_path"
  || String.eqb k "outPath" || String.eqb k "jsonlPath".

(** One iteration of the loop of [walk] in [pickPaths]. *)
Definition visitPaths (walk : value -> list string) (k : string) (v : value)
  : list string :=
  match v with
  | VStr s => if isPathKey k then [ s ] else []
  | VArr xs => flat_map walk xs
  | VObj _ => walk v
  | _ => []
  end.

Fixpoint walkPaths (obj : value) : list string :=
  match obj with
  | VObj fs =>
      (fix each (fs : list (string * value)) : list string :=
         match fs with
         | [] => []
         | (k, v) :: r => (visitPaths walkPaths k v ++ each r)%list
         end) fs
  | VArr xs =>
      (fix each (i : nat) (xs : list value) : list string :=
         match xs with
         | [] => []
         | v :: r => (visitPaths walkPaths (ofNat i) v ++ each (S i) r)%list
         end) 0%nat xs
  | _ => []
  end.

(** [[...new Set(l)]]: first occurrences, in order. *)
Fixpoint uniq (seen : list string) (l : list string) : list string :=
  match l with
  | [] => []
  | x :: r =>
      if existsb (String.eqb x) seen then uniq seen r
      else x :: uniq (x :: seen) r
  end.

Definition pickPaths (args : value) : list string :=
  firstn 6 (uniq [] (walkPaths args)).

Definition isUrlKey (k : string) : bool :=
  includes "url" (toLowerCase k) || String.eqb k "targetUrl".

Definition visitUrl (walk : value -> list string) (k : string) (v : value)
  : list string :=
  match v with
  | VStr s => if isUrlKey k then [ s ] else []
  | VArr _ | VObj _ => walk v
  | _ => []
  end.

Fixpoint walkUrl (obj : value) : list string :=
  match obj with
  | VObj fs =>
      (fix each (fs : list (string * value)) : list string :=
         match fs with
         | [] => []
         | (k, v) :: r => (visitUrl walkUrl k v ++ each r)%list
         end) fs
  | VArr xs =>
      (fix each (i : nat) (xs : list value) : list string :=
         match xs with
         | [] => []
         | v :: r => (visitUrl walkUrl (ofNat i) v ++ each (S i) r)%list
         end) 0%nat xs
  | _ => []
  end.

(** [candidates.find(Boolean)] *)
Definition pickUrl (args : value) : value :=
  match List.find (fun s => negb (String.eqb s "")) (walkUrl args) with
  | Some s => VStr s
  | None => VUndefined
  end.

Definition actionWith (params : value) (k : string) : value :=
  let action := or_else (get_prop params "action") (VStr "") in
  let x := or_else (get_prop params k) (VStr "") in
  VStr (trim (ToString action ++ (if truthy x then " " ++ ToString x else ""))).

Definition summarize (toolName : string) (params : value) : value :=
  if String.eqb toolName "exec" then
    let cmd := if truthy (get_prop params "command")
               then ToString (get_prop params "command") else "" in
    VStr (if (160 <? String.length cmd)%nat then take 157 cmd ++ "..." else cmd)
  else if String.eqb toolName "write" || String.eqb toolName "edit"
          || String.eqb toolName "read" then
    or_else (get_prop params "path")
      (or_else (get_prop params "filePath")
         (or_else (get_prop params "file_path") (VStr "")))
  else if String.eqb toolName "browser" then actionWith params "targetUrl"
  else if String.eqb toolName "message" then actionWith params "channel"
  else if String.eqb toolName "cron" then
    VStr (trim (ToString (or_else (get_prop params "action") (VStr ""))))
  else VStr "".

(** ** The ledger file *)

(** [parseLines] *)
Definition parseLines (txt : string) : list string :=
  List.filter (fun l => negb (String.eqb l "")) (splitNewlines txt).

(** [arr.slice(start)] *)
Definition slice_from (start : jsnum) (l : list string) : list string :=
  match start with
  | NaN => l
  | Int z =>
      if z <? 0 then skipn (Z.to_nat (Z.max 0 (Z.of_nat (length l) + z))) l
      else skipn (Z.to_nat z) l
  end.

(** [tailLines(filePath, maxLines = 200)]; [txt] is what [safeReadFile]
    returned, [None] for null. *)
Definition tailLines (txt : option string) (maxLines : option jsnum) : list string :=
  let maxLines := match maxLines with Some m => m | None => Int 200 end in
  match txt with
  | None => []
  | Some txt =>
      let lines := parseLines txt in
      slice_from (Math_max (Int 0) (jsnum_sub (Int (Z.of_nat (length lines))) maxLines)) lines
  end.

(** A persisted record.  [phase] and [fingerprint] are absent from a note. *)
Record entry : Type := Entry {
  ts : string;
  source : string;
  agent_id : string;
  agent_name : string;
  session_key : option string;
  session_id : value;
  session_label : value;
  session_channel : value;
  tool : value;
  phase : option string;
  fingerprint : option value;
  summary : value;
  details : list (string * value)
}.

(** [JSON.stringify] on a record and [JSON.parse] on a line ([None] when
    it throws). *)
Variable JSON_stringify : entry -> string.
Variable JSON_parse : string -> option value.

Definition appendLine (file : string) (line : string) : string :=
  file ++ line ++ String LF EmptyString.

(** [emitLedger]: the append may fail, which is logged and ignored. *)
Definition emitLedger (appendOk : bool) (e : entry) (file : string) : string :=
  if appendOk then appendLine file (JSON_stringify e) else file.

(** The handler of [api/recent]; [n] is [searchParams.get("n")]. *)
Definition recent (n : option string) (txt : option string) : list string :=
  let raw := match n with
             | Some s => if String.eqb s "" then "200" else s
             | None => "200"
             end in
  let n := Math_min (Int 2000) (Math_max (Int 1) (parseInt10 raw)) in
  tailLines txt (Some n).

(** The test applied to each line by the streaming branch of [api/export]:
    [true] when the line is written. *)
Definition exportKeeps (sinceTs : option string) (line : string) : bool :=
  if String.eqb line "" then false
  else
    match sinceTs with
    | None => true
    | Some since =>
        if String.eqb since "" then true
        else
          match JSON_parse line with
          | None => true
          | Some obj =>
              match get_prop obj "ts" with
              | VStr t => negb (String.ltb t since)
              | _ => true
              end
          end
    end.

Definition writeLine (line : string) : string := line ++ String LF EmptyString.

(** The streaming branch: [lines] are the lines the line reader yields,
    [failed] tells whether the stream ends with an error; the result is
    the sequence of chunks written to the response. *)
Definition exportStream (sinceTs : option string) (lines : list string) (failed : bool)
  : list string :=
  (map writeLine (List.filter (exportKeeps sinceTs) lines)
     ++ (if failed then [ String LF EmptyString ] else []))%list.

(** The handler of [api/export]. *)
Definition export (nRaw sinceTs : option string) (txt : option string)
  (lines : list string) (failed : bool) : list string :=
  let n := match nRaw with
           | None => None
           | Some s =>
               if String.eqb s "" then None
               else Some (Math_max (Int 1)
                            (Math_min (Int 500000) (jsnum_or (parseInt10 s) (Int 0))))
           end in
  match n with
  | Some (Int z) =>
      if Z.eqb z 0 then exportStream sinceTs lines failed
      else map writeLine (tailLines txt n)
  | _ => exportStream sinceTs lines failed
  end.

(** ** Identity maps *)

Record session_info : Type := SessionInfo {
  sessionId : value;
  info_channel : value;
  info_lastTo : value;
  info_label : value
}.

Record session_meta : Type := SessionMeta {
  meta_label : value;
  meta_channel : value;
  meta_lastTo : value
}.

(** [loadSessionMetaMap]; [parsed] is the parsed content of
    session-meta.json, [None] when reading or parsing throws. *)
Definition loadSessionMetaMap (parsed : option value) : gmap string session_meta :=
  match parsed with
  | None => ∅
  | Some obj =>
      let sessions := or_else (get_prop obj "sessions") (VObj []) in
      fold_left
        (fun out '(sessionId, info) =>
           <[ sessionId :=
                {| meta_label :=
                     or_else (get_prop info "label")
                       (or_else (get_prop info "displayName")
                          (or_else (get_prop info "key") (VStr "")));
                   meta_channel := or_else (get_prop info "channel") VNull;
                   meta_lastTo := or_else (get_prop info "lastTo") VNull |} ]> out)
        (Object_entries sessions) ∅
  end.

(** What the three loaders return at one instant. *)
Record loaded : Type := Loaded {
  nextSessionMap : gmap string session_info;
  metaParsed : option value;
  nextCronMap : gmap string string
}.

(** The correlator's pending start observation. *)
Record start : Type := Start {
  tsMs : Z;
  start_summary : value;
  paths : list string;
  url : value
}.

(** The mutable variables closed over by the handlers, and the ledger
    file. *)
Record state : Type := State {
  sessionMap : gmap string session_info;
  sessionMetaMap : gmap string session_meta;
  cronJobNameMap : gmap string string;
  recentStarts : gmap string (gmap string (list start));
  ledger : string
}.

Definition set_sessionMetaMap (m : gmap string session_meta) (st : state) : state :=
  {| sessionMap := sessionMap st; sessionMetaMap := m;
     cronJobNameMap := cronJobNameMap st; recentStarts := recentStarts st;
     ledger := ledger st |}.

Definition set_recentStarts (r : gmap string (gmap string (list start))) (st : state)
  : state :=
  {| sessionMap := sessionMap st; sessionMetaMap := sessionMetaMap st;
     cronJobNameMap := cronJobNameMap st; recentStarts := r;
     ledger := ledger st |}.

Definition set_ledger (f : string) (st : state) : state :=
  {| sessionMap := sessionMap st; sessionMetaMap := sessionMetaMap st;
     cronJobNameMap := cronJobNameMap st; recentStarts := recentStarts st;
     ledger := f |}.

(** [Object.keys(m).length] as a condition *)
Definition hasKeys {A : Type} (m : gmap string A) : bool := (0 <? size m)%nat.

Definition refreshSessionMaps (l : loaded) (st : state) : state :=
  let nextMeta := loadSessionMetaMap (metaParsed l) in
  {| sessionMap := if hasKeys (nextSessionMap l) then nextSessionMap l else sessionMap st;
     sessionMetaMap := if hasKeys nextMeta then nextMeta else sessionMetaMap st;
     cronJobNameMap := if hasKeys (nextCronMap l) then nextCronMap l else cronJobNameMap st;
     recentStarts := recentStarts st;
     ledger := ledger st |}.

(** [sessionId && map?.[sessionId]?.label], [None] when falsy. *)
Definition metaLabel (m : gmap string session_meta) (sessionId : value) : option value :=
  if truthy sessionId then
    match m !! ToString sessionId with
    | Some info => if truthy (meta_label info) then Some (meta_label info) else None
    | None => None
    end
  else None.

Definition metaChannel (m : gmap string session_meta) (sessionId : value) : option value :=
  if truthy sessionId then
    match m !! ToString sessionId with
    | Some info => if truthy (meta_channel info) then Some (meta_channel info) else None
    | None => None
    end
  else None.

Definition keyString (sessionKey : option string) : string :=
  match sessionKey with Some k => k | None => "" end.

(** [resolveLabel]; [parsed] is what the one-shot reload would read. *)
Definition resolveLabel (parsed : option value) (sessionKey : option string)
  (sessionId fallback : value) (st : state) : value * state :=
  match metaLabel (sessionMetaMap st) sessionId with
  | Some l => (l, st)
  | None =>
      let sk := keyString sessionKey in
      let cron :=
        if includes ":cron:" sk then
          match cronJobNameMap st !! nth 1 (split ":cron:" sk) "" with
          | Some name => if String.eqb name "" then None else Some ("cron:" ++ name)
          | None => None
          end
        else None in
      match cron with
      | Some l => (VStr l, st)
      | None =>
          let next := loadSessionMetaMap parsed in
          if hasKeys next then
            match metaLabel next sessionId with
            | Some l => (l, set_sessionMetaMap next st)
            | None => (fallback, set_sessionMetaMap next st)
            end
          else (fallback, st)
      end
  end.

Definition resolveChannel (sessionKey : option string) (sessionId fallback : value)
  (st : state) : value :=
  match metaChannel (sessionMetaMap st) sessionId with
  | Some c => c
  | None =>
      let sk := keyString sessionKey in
      let main :=
        if String.eqb sk "agent:main:main" then
          match sessionMap st !! sk with
          | Some mainInfo =>
              if truthy (info_channel mainInfo) then Some (info_channel mainInfo) else None
          | None => None
          end
        else None in
      match main with
      | Some c => c
      | None => if includes ":cron:" sk then VStr "cron" else fallback
      end
  end.

(** ** The start queue *)

(** [while (q.length > 40) q.shift()] *)
Fixpoint shiftWhileOver (cap : nat) (q : list start) : list start :=
  match q with
  | [] => []
  | _ :: r => if (cap <? length q)%nat then shiftWhileOver cap r else q
  end.

(** [pushStart]; [now] is [Date.now()], [None] an undefined session key. *)
Definition pushStart (now : Z) (sessionKey : option string) (toolName : string)
  (params : value) (st : state) : state :=
  match sessionKey with
  | None => st
  | Some sk =>
      if String.eqb sk "" || String.eqb toolName "" then st
      else
        let byTool := default ∅ (recentStarts st !! sk) in
        let q := default [] (byTool !! toolName) in
        let q := (q ++ [ {| tsMs := now;
                            start_summary := summarize toolName params;
                            paths := pickPaths params;
                            url := pickUrl params |} ])%list in
        let q := shiftWhileOver 40 q in
        set_recentStarts (<[ sk := <[ toolName := q ]> byTool ]> (recentStarts st)) st
  end.

(** [while (q.length && (now - q[0].tsMs) > maxAgeMs) q.shift()] *)
Fixpoint dropTooOld (now maxAgeMs : Z) (q : list start) : list start :=
  match q with
  | [] => []
  | o :: r => if maxAgeMs <? now - tsMs o then dropTooOld now maxAgeMs r else q
  end.

(** [popRecentStart(sessionKey, toolName, maxAgeMs = 30000)].  The queue
    is an array shared with the map, so what is shifted off is gone from
    the state.  Only strings are ever used as keys by [pushStart]. *)
Definition popRecentStart (now : Z) (sessionKey : option string) (toolName : value)
  (maxAgeMs : option Z) (st : state) : option start * state :=
  let maxAgeMs := match maxAgeMs with Some m => m | None => 30000 end in
  match sessionKey, toolName with
  | Some sk, VStr tn =>
      match recentStarts st !! sk with
      | None => (None, st)
      | Some byTool =>
          match byTool !! tn with
          | None | Some [] => (None, st)
          | Some q =>
              let store q' :=
                set_recentStarts (<[ sk := <[ tn := q' ]> byTool ]> (recentStarts st)) st in
              match dropTooOld now maxAgeMs q with
              | [] => (None, store [])
              | o :: r => (Some o, store r)
              end
          end
      end
  | _, _ => (None, st)
  end.

(** ** Hooks and the note route *)

Record config : Type := Config {
  maxString : Z;
  dropKeysRe : string -> bool;
  enableNotes : bool;
  agentId : string;
  agentDisplayName : string
}.

(** What the platform supplies during one handler run: [Date.now()],
    [nowIso()], the parsed session-meta file and whether the append to
    the ledger succeeds. *)
Record world : Type := World {
  now : Z;
  nowIso : string;
  reload : option value;
  appendOk : bool
}.

Record hook_ctx : Type := HookCtx {
  ctx_sessionKey : option string;
  ctx_agentId : option string;
  ctx_toolCallId : value;
  ctx_toolName : value
}.

(** The event of [before_tool_call] and [after_tool_call]. *)
Record tool_event : Type := ToolEvent {
  ev_toolName : string;
  ev_params : value;
  ev_durationMs : value;
  ev_error : value
}.

(** The event of [tool_result_persist]. *)
Record persist_event : Type := PersistEvent {
  ev_message : value;
  pe_toolName : value
}.

Variable cfg : config.

Definition sanitize : value -> value := sanitizeAny (maxString cfg) (dropKeysRe cfg).

(** [sessionKey ? sessionMap[sessionKey] : undefined] *)
Definition sessionInfoOf (sessionKey : option string) (st : state) : option session_info :=
  match sessionKey with
  | Some k => if String.eqb k "" then None else sessionMap st !! k
  | None => None
  end.

Definition infoField (f : session_info -> value) (i : option session_info) : value :=
  match i with Some x => f x | None => VUndefined end.

(** [hookCtx?.agentId || "main"] *)
Definition agentIdOf (ctx : hook_ctx) : string :=
  match ctx_agentId ctx with
  | Some a => if String.eqb a "" then "main" else a
  | None => "main"
  end.

(** [hookCtx?.agentId === agentId ? agentDisplayName : (hookCtx?.agentId || agentId)] *)
Definition agentNameOf (ctx : hook_ctx) : string :=
  match ctx_agentId ctx with
  | Some a =>
      if String.eqb a (agentId cfg) then agentDisplayName cfg
      else if String.eqb a "" then agentId cfg else a
  | None => agentId cfg
  end.

Definition before_tool_call (w : world) (event : tool_event) (hookCtx : hook_ctx)
  (st : state) : state :=
  let sessionKey := ctx_sessionKey hookCtx in
  let toolName := ev_toolName event in
  let params := sanitize (or_else (ev_params event) (VObj [])) in
  pushStart (now w) sessionKey toolName params st.

(** The record built by [after_tool_call], and the state after the label
    was resolved. *)
Definition after_tool_call_entry (w : world) (event : tool_event) (hookCtx : hook_ctx)
  (st : state) : entry * state :=
  let sessionKey := ctx_sessionKey hookCtx in
  let toolName := ev_toolName event in
  let params := sanitize (or_else (ev_params event) (VObj [])) in
  let sessionInfo := sessionInfoOf sessionKey st in
  let sessionId := infoField sessionId sessionInfo in
  let '(label, st1) :=
    resolveLabel (reload w) sessionKey sessionId (infoField info_label sessionInfo) st in
  let channel := resolveChannel sessionKey sessionId (infoField info_channel sessionInfo) st1 in
  ({| ts := nowIso w;
      source := "plugin";
      agent_id := agentIdOf hookCtx;
      agent_name := agentNameOf hookCtx;
      session_key := sessionKey;
      session_id := sessionId;
      session_label := label;
      session_channel := channel;
      tool := VStr toolName;
      phase := Some "done";
      fingerprint :=
        Some (VStr (keyString sessionKey ++ "|after|" ++ toolName ++ "|"
                      ++ ToString (summarize toolName params)));
      summary := summarize toolName params;
      details :=
        [ ("durationMs", ev_durationMs event);
          ("error", ev_error event);
          ("paths", VArr (map VStr (pickPaths params)));
          ("url", pickUrl params);
          ("result", VStr (if truthy (ev_error event) then "error" else "ok")) ] |},
   st1).

Definition after_tool_call (w : world) (event : tool_event) (hookCtx : hook_ctx)
  (st : state) : state :=
  let '(e, st1) := after_tool_call_entry w event hookCtx st in
  set_ledger (emitLedger (appendOk w) e (ledger st1)) st1.

Definition tool_result_persist_entry (w : world) (event : persist_event)
  (hookCtx : hook_ctx) (st : state) : entry * state :=
  let sessionKey := ctx_sessionKey hookCtx in
  let sessionInfo := sessionInfoOf sessionKey st in
  let sessionId := infoField sessionId sessionInfo in
  let '(label, st1) :=
    resolveLabel (reload w) sessionKey sessionId (infoField info_label sessionInfo) st in
  let channel := resolveChannel sessionKey sessionId (infoField info_channel sessionInfo) st1 in
  let msg := or_else (get_prop (ev_message event) "message")
               (or_else (ev_message event) (VObj [])) in
  let toolName := or_else (get_prop msg "toolName")
                    (or_else (pe_toolName event)
                       (or_else (ctx_toolName hookCtx) (VStr ""))) in
  let isError := truthy (get_prop msg "isError") in
  let durationMs := get_prop (get_prop msg "details") "durationMs" in
  let '(s, st2) := popRecentStart (now w) sessionKey toolName None st1 in
  ({| ts := nowIso w;
      source := "plugin";
      agent_id := agentIdOf hookCtx;
      agent_name := agentNameOf hookCtx;
      session_key := sessionKey;
      session_id := sessionId;
      session_label := label;
      session_channel := channel;
      tool := toolName;
      phase := Some "done";
      fingerprint := Some (or_else (ctx_toolCallId hookCtx) (get_prop msg "toolCallId"));
      summary :=
        or_else (match s with Some o => start_summary o | None => VUndefined end) toolName;
      details :=
        [ ("durationMs", durationMs);
          ("paths", match s with Some o => VArr (map VStr (paths o)) | None => VUndefined end);
          ("url", match s with Some o => url o | None => VUndefined end);
          ("error", if isError then VStr "tool error" else VUndefined);
          ("result", VStr (if isError then "error" else "ok")) ] |},
   st2).

Definition tool_result_persist (w : world) (event : persist_event) (hookCtx : hook_ctx)
  (st : state) : state :=
  let '(e, st1) := tool_result_persist_entry w event hookCtx st in
  set_ledger (emitLedger (appendOk w) e (ledger st1)) st1.

(** What the handler of [api/note] does with a request. *)
Inductive note_outcome : Type :=
| Rejected (status : nat) (message : string)
| Thrown
| Accepted (e : entry) (st : state).

(** The handler of [api/note] up to the call of [emitLedger]; [body] is
    the request body.  Reading [payload.text] throws on a null payload. *)
Definition note_entry (w : world) (method body : string) (st : state) : note_outcome :=
  if negb (enableNotes cfg) then Rejected 403 "notes disabled"
  else if negb (String.eqb method "POST") then Rejected 405 "method not allowed"
  else
    let payload :=
      match JSON_parse (if String.eqb body "" then "{}" else body) with
      | Some p => p
      | None => VObj []
      end in
    match payload with
    | VNull | VUndefined => Thrown
    | _ =>
        let text := trim (ToString (or_else (get_prop payload "text") (VStr ""))) in
        if String.eqb text "" then Rejected 400 "missing text"
        else
          let sessionKey :=
            if truthy (get_prop payload "sessionKey")
            then Some (ToString (get_prop payload "sessionKey")) else None in
          let sessionInfo := sessionInfoOf sessionKey st in
          let sessionId := infoField sessionId sessionInfo in
          let '(label, st1) :=
            resolveLabel (reload w) sessionKey sessionId
              (infoField info_label sessionInfo) st in
          let channel :=
            resolveChannel sessionKey sessionId (infoField info_channel sessionInfo) st1 in
          Accepted
            {| ts := nowIso w;
               source := "plugin";
               agent_id := agentId cfg;
               agent_name := agentDisplayName cfg;
               session_key := sessionKey;
               session_id := sessionId;
               session_label := label;
               session_channel := channel;
               tool := VStr "note";
               phase := None;
               fingerprint := None;
               summary := VStr text;
               details := [ ("result", VStr "ok") ] |}
            st1
    end.

Definition note (w : world) (method body : string) (st : state) : state :=
  match note_entry w method body st with
  | Accepted e st1 => set_ledger (emitLedger (appendOk w) e (ledger st1)) st1
  | _ => st
  end.

(** ** Runs of the service *)

Inductive input : Type :=
| BeforeToolCall (event : tool_event) (hookCtx : hook_ctx)
| AfterToolCall (event : tool_event) (hookCtx : hook_ctx)
| ToolResultPersist (event : persist_event) (hookCtx : hook_ctx)
| Note (method body : string)
| Refresh (l : loaded).

(** One callback: the new state and the records handed to [emitLedger]. *)
Definition step (w : world) (i : input) (st : state) : state * list entry :=
  match i with
  | BeforeToolCall ev ctx => (before_tool_call w ev ctx st, [])
  | AfterToolCall ev ctx =>
      (after_tool_call w ev ctx st, [ fst (after_tool_call_entry w ev ctx st) ])
  | ToolResultPersist ev ctx =>
      (tool_result_persist w ev ctx st, [ fst (tool_result_persist_entry w ev ctx st) ])
  | Note method body =>
      (note w method body st,
       match note_entry w method body st with Accepted e _ => [ e ] | _ => [] end)
  | Refresh l => (refreshSessionMaps l st, [])
  end.

Fixpoint run (inputs : list (world * input)) (st : state) : state * list entry :=
  match inputs with
  | [] => (st, [])
  | (w, i) :: r =>
      let '(st1, es1) := step w i st in
      let '(st2, es2) := run r st1 in
      (st2, (es1 ++ es2)%list)
  end.

End Service.

Arguments VUndefined {number}.
Arguments VNull {number}.
Arguments VBool {number} b.
Arguments VNum {number} n.
Arguments VStr {number} s.
Arguments VArr {number} xs.
Arguments VObj {number} fs.
Arguments VOther {number} repr.
Arguments Thrown {number}.
Arguments Rejected {number} status message.
Arguments Note {number} method body.

(** * Vocabulary of the properties *)

Section Vocabulary.

Variable number : Type.
Variable number_toString : number -> string.
Variable number_truthy : number -> bool.

(** [k] is a property name somewhere inside [v], at any depth. *)
Fixpoint hasKeyDeep (k : string) (v : value number) : bool :=
  match v with
  | VArr xs => existsb (hasKeyDeep k) xs
  | VObj fs => existsb (fun kv => String.eqb k (fst kv) || hasKeyDeep k (snd kv)) fs
  | _ => false
  end.

(** The loop of the object branch of [sanitizeAny], named. *)
Fixpoint sanitizeEntries (maxString : Z) (dropKeysRe : string -> bool)
  (fs out : list (string * value number)) : list (string * value number) :=
  match fs with
  | [] => out
  | (k, val) :: r =>
      if isSensitiveKey dropKeysRe k then sanitizeEntries maxString dropKeysRe r out
      else sanitizeEntries maxString dropKeysRe r
             (obj_set out k (sanitizeAny maxString dropKeysRe val))
  end.

(** No property named [k] among [fs], nor below. *)
Definition cleanFields (k : string) (fs : list (string * value number)) : Prop :=
  Forall (fun kv => fst kv <> k /\ hasKeyDeep k (snd kv) = false) fs.

(** The pending queue of a (session, tool) pair. *)
Definition queueOf (st : state number) (sk tn : string) : list (start number) :=
  default [] (default ∅ (recentStarts st !! sk) !! tn).

(** The observation [pushStart] records at time [t] for [params]. *)
Definition observation (t : Z) (toolName : string) (params : value number)
  : start number :=
  {| tsMs := t;
     start_summary := summarize number_toString number_truthy toolName params;
     paths := pickPaths params;
     url := pickUrl params |}.

(** [maxAgeMs = 30000] *)
Definition window (maxAgeMs : option Z) : Z :=
  match maxAgeMs with Some m => m | None => 30000 end.

Definition tooOld (now maxAgeMs : Z) (o : start number) : Prop :=
  maxAgeMs < now - tsMs o.

(** A line as [JSON.stringify] prints a record: not empty, and free of
    raw line breaks. *)
Definition lineOk (l : string) : bool :=
  negb (String.eqb l "")
  && allChars (fun c => negb (Ascii.eqb c LF) && negb (Ascii.eqb c CR)) l.

(** What [search] gives [parseInt] in the handler of [api/recent]. *)
Definition recentArg (n : option string) : string :=
  match n with
  | Some s => if String.eqb s "" then "200" else s
  | None => "200"
  end.

Definition noBreak (l : string) : bool :=
  allChars (fun c => negb (Ascii.eqb c LF) && negb (Ascii.eqb c CR)) l.

(** The text of a file made of the given lines, each ended by a line feed. *)
Definition joinLines (ls : list string) : string :=
  fold_right (fun l acc => l ++ String LF acc) "" ls.

(** The ledger after the records [es] were appended, in order, to a file
    holding [file]. *)
Definition appendAll (JSON_stringify : entry number -> string)
  (es : list (entry number)) (file : string) : string :=
  fold_left (fun f e => emitLedger JSON_stringify true e f) es file.

Fixpoint repeatString (n : nat) (s : string) : string :=
  match n with
  | O => EmptyString
  | S k => s ++ repeatString k s
  end.

End Vocabulary.

(** ** What a payload shows once sanitized

    Two payloads are the same to an observer who may see neither the
    content of a string longer than [maxString] (only its length) nor
    anything stored under a sensitive key (not even whether the key is
    there). *)

Section PublicView.

Variable number : Type.
Variable maxString : Z.
Variable dropKeysRe : string -> bool.

Inductive same_public : value number -> value number -> Prop :=
| sp_same (v : value number) : same_public v v
| sp_long (s s' : string) :
    maxString < Z.of_nat (String.length s) ->
    String.length s' = String.length s ->
    same_public (VStr s) (VStr s')
| sp_arr (xs xs' : list (value number)) :
    same_public_list xs xs' -> same_public (VArr xs) (VArr xs')
| sp_obj (fs fs' : list (string * value number)) :
    same_public_fields fs fs' -> same_public (VObj fs) (VObj fs')
with same_public_list : list (value number) -> list (value number) -> Prop :=
| spl_nil : same_public_list [] []
| spl_cons (x x' : value number) (xs xs' : list (value number)) :
    same_public x x' -> same_public_list xs xs' ->
    same_public_list (x :: xs) (x' :: xs')
with same_public_fields
  : list (string * value number) -> list (string * value number) -> Prop :=
| spf_nil : same_public_fields [] []
| spf_secret_l (k : string) (v : value number) (fs fs' : list (string * value number)) :
    dropKeysRe k = true -> same_public_fields fs fs' ->
    same_public_fields ((k, v) :: fs) fs'
| spf_secret_r (k : string) (v : value number) (fs fs' : list (string * value number)) :
    dropKeysRe k = true -> same_public_fields fs fs' ->
    same_public_fields fs ((k, v) :: fs')
| spf_cons (k : string) (v v' : value number) (fs fs' : list (string * value number)) :
    same_public v v' -> same_public_fields fs fs' ->
    same_public_fields ((k, v) :: fs) ((k, v') :: fs').

Scheme same_public_min := Minimality for same_public Sort Prop
  with same_public_list_min := Minimality for same_public_list Sort Prop
  with same_public_fields_min := Minimality for same_public_fields Sort Prop.

Combined Scheme same_public_mutind
  from same_public_min, same_public_list_min, same_public_fields_min.

(** Two tool events that differ at most in what sanitizing hides of
    their parameters. *)
Definition same_public_event (ev ev' : tool_event number) : Prop :=
  ev_toolName ev = ev_toolName ev'
  /\ same_public (ev_params ev) (ev_params ev')
  /\ ev_durationMs ev = ev_durationMs ev'
  /\ ev_error ev = ev_error ev'.

Inductive same_public_input : input number -> input number -> Prop :=
| spi_before (ev ev' : tool_event number) (ctx : hook_ctx number) :
    same_public_event ev ev' ->
    same_public_input (BeforeToolCall ev ctx) (BeforeToolCall ev' ctx)
| spi_after (ev ev' : tool_event number) (ctx : hook_ctx number) :
    same_public_event ev ev' ->
    same_public_input (AfterToolCall ev ctx) (AfterToolCall ev' ctx)
| spi_same (i : input number) : same_public_input i i.

Definition same_public_call (a b : world number * input number) : Prop :=
  fst a = fst b /\ same_public_input (snd a) (snd b).

End PublicView.

(** ** A concrete platform

    To run the model: payload numbers are integers printed in decimal,
    [JSON.stringify] prints records the way the ledger shows them, and
    [JSON.parse] is given by the table of the lines it accepts. *)

Definition Z_toString (z : Z) : string :=
  if z <? 0 then "-" ++ ofNat (Z.abs_nat z) else ofNat (Z.to_nat z).

Definition Z_truthy (z : Z) : bool := negb (Z.eqb z 0).

Definition DQ : ascii := ascii_of_nat 34.
Definition BS : ascii := ascii_of_nat 92.

Definition hexDigit (n : nat) : ascii :=
  if (n <? 10)%nat then ascii_of_nat (48 + n) else ascii_of_nat (87 + n).

Definition escapeChar (c : ascii) : string :=
  let n := code c in
  if (n =? 34)%nat then String BS (String DQ "")
  else if (n =? 92)%nat then String BS (String BS "")
  else if (n =? 8)%nat then String BS "b"
  else if (n =? 12)%nat then String BS "f"
  else if (n =? 10)%nat then String BS "n"
  else if (n =? 13)%nat then String BS "r"
  else if (n =? 9)%nat then String BS "t"
  else if (n <? 32)%nat
       then String BS ("u00" ++ String (hexDigit (n / 16)) (String (hexDigit (n mod 16)) ""))
  else String c "".

Fixpoint escapeChars (s : string) : string :=
  match s with
  | EmptyString => EmptyString
  | String c r => escapeChar c ++ escapeChars r
  end.

Definition quote (s : string) : string := String DQ (escapeChars s ++ String DQ "").

Fixpoint joinWith (sep : string) (l : list string) : string :=
  match l with
  | [] => ""
  | [ x ] => x
  | x :: r => x ++ sep ++ joinWith sep r
  end.

(** [JSON.stringify(v)]; [None] where it gives undefined: such a property
    is left out of an object and printed as null inside an array.  (A
    bigint, on which it throws, is not told apart from the other
    remaining types.) *)
Fixpoint printValue (v : value Z) : option string :=
  match v with
  | VUndefined | VOther _ => None
  | VNull => Some "null"
  | VBool true => Some "true"
  | VBool false => Some "false"
  | VNum z => Some (Z_toString z)
  | VStr s => Some (quote s)
  | VArr xs =>
      Some ("[" ++ joinWith ","
                     (map (fun x => match printValue x with
                                    | Some t => t
                                    | None => "null"
                                    end) xs) ++ "]")
  | VObj fs =>
      Some ("{" ++ joinWith ","
                     ((fix props (fs : list (string * value Z)) : list string :=
                         match fs with
                         | [] => []
                         | (k, x) :: r =>
                             match printValue x with
                             | Some t => (quote k ++ ":" ++ t) :: props r
                             | None => props r
                             end
                         end) fs) ++ "}")
  end.

Definition optionalString (o : option string) : value Z :=
  match o with Some s => VStr s | None => VUndefined end.

(** The object literal passed to [emitLedger]. *)
Definition entryValue (e : entry Z) : value Z :=
  VObj [ ("ts", VStr (ts e));
         ("source", VStr (source e));
         ("agent", VObj [ ("id", VStr (agent_id e)); ("name", VStr (agent_name e)) ]);
         ("session", VObj [ ("key", optionalString (session_key e));
                            ("id", session_id e);
                            ("label", session_label e);
                            ("channel", session_channel e) ]);
         ("tool", tool e);
         ("phase", optionalString (phase e));
         ("fingerprint", match fingerprint e with Some f => f | None => VUndefined end);
         ("summary", summary e);
         ("details", VObj (details e)) ].

Definition printEntry (e : entry Z) : string :=
  match printValue (entryValue e) with Some t => t | None => "" end.

(** A parser known by its graph on the lines at hand. *)
Definition parseTable (table : list (string * value Z)) (line : string)
  : option (value Z) :=
  assoc line table.

Definition cfg0 : config :=
  {| maxString := 160;
     dropKeysRe := default_dropKeysRe;
     enableNotes := true;
     agentId := "main";
     agentDisplayName := "Pi" |}.

Definition st0 : state Z :=
  {| sessionMap := ∅; sessionMetaMap := ∅; cronJobNameMap := ∅;
     recentStarts := ∅; ledger := "" |}.

Definition world0 (t : Z) : world Z :=
  {| now := t; nowIso := "2025-02-04T19:00:00Z"; reload := None; appendOk := true |}.

Definition ctx0 : hook_ctx Z :=
  {| ctx_sessionKey := Some "s1"; ctx_agentId := Some "main";
     ctx_toolCallId := VUndefined; ctx_toolName := VUndefined |}.

(** ** Inputs of the concrete runs *)

Definition paramsLs : value Z := VObj [ ("command", VStr "ls -la") ].
Definition paramsPwd : value Z := VObj [ ("command", VStr "pwd") ].

(** A state whose queue for ("s1", "exec") holds one observation made at
    time 0. *)
Definition stOld : state Z := pushStart Z_toString Z_truthy 0 (Some "s1") "exec" paramsPwd st0.

(** Forty pending observations for ("s1", "exec"), made at times 0 to 39. *)
Definition st40 : state Z :=
  fold_left (fun st t => pushStart Z_toString Z_truthy (Z.of_nat t) (Some "s1") "exec" paramsLs st)
    (seq 0 40) st0.

Definition entryExec : entry Z :=
  {| ts := "2025-02-04T19:00:00Z"; source := "plugin";
     agent_id := "main"; agent_name := "Pi";
     session_key := Some "s1"; session_id := VUndefined;
     session_label := VUndefined; session_channel := VUndefined;
     tool := VStr "exec"; phase := Some "done"; fingerprint := Some VUndefined;
     summary := VStr "ls -la";
     details := [ ("durationMs", VNum 42); ("result", VStr "ok") ] |}.

Definition entryNote : entry Z :=
  {| ts := "2025-02-04T19:00:05Z"; source := "plugin";
     agent_id := "main"; agent_name := "Pi";
     session_key := None; session_id := VUndefined;
     session_label := VUndefined; session_channel := VUndefined;
     tool := VStr "note"; phase := None; fingerprint := None;
     summary := VStr ("checked logs" ++ String LF "twice");
     details := [ ("result", VStr "ok") ] |}.

(** The line [{"ts":"<t>"}] and the record it parses to. *)
Definition tsLine (t : string) : string :=
  "{" ++ String DQ "ts" ++ String DQ ":" ++ String DQ t ++ String DQ "}".

Definition parseTs : string -> option (value Z) :=
  parseTable [ (tsLine "2024-12-31T23:59:59Z", VObj [ ("ts", VStr "2024-12-31T23:59:59Z") ]);
               (tsLine "2025-01-01T00:00:00Z", VObj [ ("ts", VStr "2025-01-01T00:00:00Z") ]) ].

Definition exportLines : list string :=
  [ tsLine "2024-12-31T23:59:59Z"; "not json"; ""; tsLine "2025-01-01T00:00:00Z" ].

Definition metaDanilo : gmap string (session_meta Z) :=
  {[ "id1" := {| meta_label := VStr "Danilo"; meta_channel := VStr "telegram";
                 meta_lastTo := VNull |} ]}.

Definition stMeta : state Z := set_sessionMetaMap metaDanilo st0.

(** A reload that finds a session-meta file without sessions. *)
Definition emptyReload : loaded Z :=
  {| nextSessionMap := ∅;
     metaParsed := Some (VObj [ ("sessions", VObj []) ]);
     nextCronMap := ∅ |}.

Definition longText : string := repeatString 161 "a".

(** The request body [{"text":"aaa..."}] and its parse. *)
Definition noteBody : string :=
  "{" ++ String DQ "text" ++ String DQ ":" ++ String DQ longText ++ String DQ "}".

Definition parseNote : string -> option (value Z) :=
  parseTable [ (noteBody, VObj [ ("text", VStr longText) ]) ].

Definition paramsSecret : value Z :=
  VObj [ ("command", VStr "ls -la");
         ("apiKey", VStr "sk-abcdef0123456789");
         ("input", VStr (repeatString 161 "a")) ].

Definition paramsOther : value Z :=
  VObj [ ("command", VStr "ls -la");
         ("input", VStr (repeatString 161 "b"));
         ("password", VStr "hunter2") ].

Definition persistExec : persist_event Z :=
  {| ev_message := VObj [ ("toolName", VStr "exec");
                          ("details", VObj [ ("durationMs", VNum 42) ]) ];
     pe_toolName := VUndefined |}.

Definition callsWith (params : value Z) : list (world Z * input Z) :=
  [ (world0 5, BeforeToolCall (ToolEvent "exec" params VUndefined VUndefined) ctx0);
    (world0 40, AfterToolCall (ToolEvent "exec" params (VNum 35) VUndefined) ctx0);
    (world0 47, ToolResultPersist persistExec ctx0) ].

(** * Further vocabulary: what a payload holds *)

Section PayloadVocabulary.

Variable number : Type.

(** The strings held by a payload as values, at any depth. *)
Fixpoint stringLeaves (v : value number) : list string :=
  match v with
  | VStr s => [ s ]
  | VArr xs => flat_map stringLeaves xs
  | VObj fs => flat_map (fun kv => stringLeaves (snd kv)) fs
  | _ => []
  end.

(** Data as [JSON.parse] yields it: no function, symbol or bigint inside. *)
Fixpoint jsonLike (v : value number) : bool :=
  match v with
  | VOther _ => false
  | VArr xs => forallb jsonLike xs
  | VObj fs => forallb (fun kv => jsonLike (snd kv)) fs
  | _ => true
  end.

(** The three redaction markers. *)
Definition isMarker (t : string) : Prop :=
  t = "<redacted:sk>" \/ t = "<redacted:bearer>"
  \/ exists n : nat, t = "<redacted:" ++ ofNat n ++ ">".

(** A string the sanitizer may leave in a payload: short, or a marker. *)
Definition leafOk (maxString : Z) (t : string) : Prop :=
  Z.of_nat (String.length t) <= maxString \/ isMarker t.

Definition isContainer (v : value number) : bool :=
  match v with
  | VObj _ | VArr _ => true
  | _ => false
  end.

(** The string [s] is the value of a property whose name satisfies
    [keyOk], in [v] itself or in an object or array nested in [v]. *)
Inductive storedUnder (keyOk : string -> bool) (s : string) : value number -> Prop :=
| su_here (obj : value number) (k : string) :
    isContainer obj = true -> In (k, VStr s) (Object_entries obj) -> keyOk k = true ->
    storedUnder keyOk s obj
| su_below (obj v : value number) (k : string) :
    isContainer obj = true -> In (k, v) (Object_entries obj) -> storedUnder keyOk s v ->
    storedUnder keyOk s obj.

(** The property names of an object are distinct, as in any object the
    runtime builds. *)
Definition distinctKeys (fs : list (string * value number)) : Prop :=
  List.NoDup (map fst fs).

End PayloadVocabulary.

(** * Further vocabulary: ledger text *)

Definition noLF (l : string) : bool := allChars (fun c => negb (Ascii.eqb c LF)) l.

(** The text of a file whose lines end in a line feed or, where the flag
    is set, in a carriage return and a line feed. *)
Fixpoint joinMixed (ls : list (string * bool)) : string :=
  match ls with
  | [] => ""
  | (l, crlf) :: r =>
      l ++ (if crlf then String CR (String LF "") else String LF "") ++ joinMixed r
  end.

Definition nonEmpty (l : string) : bool := negb (String.eqb l "").

(** * Further vocabulary: runs *)

Section RunVocabulary.

Variable number : Type.
Variable number_truthy : number -> bool.

(** Every pending queue respects the cap. *)
Definition queuesCapped (st : state number) : Prop :=
  forall sk tn, (length (queueOf st sk tn) <= 40)%nat.

(** [event?.message?.message || event?.message || {}] *)
Definition messageOf (event : persist_event number) : value number :=
  or_else number_truthy (get_prop (ev_message event) "message")
    (or_else number_truthy (ev_message event) (VObj [])).

(** [msg.toolName || event.toolName || hookCtx?.toolName || ""] *)
Definition persistedToolName (event : persist_event number) (hookCtx : hook_ctx number)
  : value number :=
  or_else number_truthy (get_prop (messageOf event) "toolName")
    (or_else number_truthy (pe_toolName event)
       (or_else number_truthy (ctx_toolName hookCtx) (VStr ""))).

End RunVocabulary.

(** * The other two loaders

    [loadSessionMap] and [loadCronJobNameMap] build plain objects used as
    maps; as for [loadSessionMetaMap], they are read as maps of their own
    properties: session keys and job ids are taken not to name a property
    of [Object.prototype]. *)

Definition isWordChar (c : ascii) : bool :=
  let n := code c in
  ((65 <=? n)%nat && (n <=? 90)%nat) || ((97 <=? n)%nat && (n <=? 122)%nat)
  || isDigit c || (n =? 95)%nat.

Fixpoint takeWhile (p : ascii -> bool) (s : string) : string :=
  match s with
  | EmptyString => EmptyString
  | String c r => if p c then String c (takeWhile p r) else EmptyString
  end.

(** The match of [id:(\d+)\b] at the head of [s], if any: the digits
    captured.  The run of digits is taken whole, since no word boundary
    falls between two digits. *)
Definition matchIdHere (s : string) : option string :=
  if String.prefix "id:" s then
    let digits := takeWhile isDigit (skip 3 s) in
    match digits, dropWhile isDigit (skip 3 s) with
    | EmptyString, _ => None
    | _, EmptyString => Some digits
    | _, String c _ => if isWordChar c then None else Some digits
    end
  else None.

(** [s.match(/\bid:(\d+)\b/)]: the capture of the leftmost match.
    [prevWord] tells whether the character before [s] is a word
    character, in which case no match can start here. *)
Fixpoint matchIdFrom (prevWord : bool) (s : string) : option string :=
  match s with
  | EmptyString => None
  | String c r =>
      match (if prevWord then None else matchIdHere s) with
      | Some m => Some m
      | None => matchIdFrom (isWordChar c) r
      end
  end.

Definition matchId (s : string) : option string := matchIdFrom false s.

Section Loaders.

Variable number : Type.
Variable number_truthy : number -> bool.

#[local] Abbreviation orElse := (@or_else number number_truthy).

(** The record [loadSessionMap] stores for one entry of sessions.json. *)
Definition sessionInfoFrom (sessionKey : string) (info : value number)
  : session_info number :=
  let originLabel := get_prop (get_prop info "origin") "label" in
  let deliveryTo := get_prop (get_prop info "deliveryContext") "to" in
  let lastTo :=
    if truthy number_truthy deliveryTo then deliveryTo
    else match originLabel with
         | VStr s => match matchId s with
                     | Some m => VStr m
                     | None => deliveryTo
                     end
         | _ => deliveryTo
         end in
  {| sessionId := get_prop info "sessionId";
     info_channel :=
       orElse (get_prop info "channel")
         (orElse (get_prop (get_prop info "origin") "channel")
            (get_prop (get_prop info "deliveryContext") "channel"));
     info_lastTo := lastTo;
     info_label := orElse originLabel (orElse deliveryTo (VStr sessionKey)) |}.

(** [loadSessionMap]; [parsed] is the parsed content of sessions.json,
    [None] when reading or parsing throws. *)
Definition loadSessionMap (parsed : option (value number))
  : gmap string (session_info number) :=
  match parsed with
  | None => ∅
  | Some obj =>
      fold_left
        (fun out '(sessionKey, info) =>
           if truthy number_truthy (get_prop info "sessionId")
           then <[ sessionKey := sessionInfoFrom sessionKey info ]> out
           else out)
        (Object_entries (orElse obj (VObj []))) ∅
  end.

(** The body shared by the two loops of [loadCronJobNameMap]. *)
Definition addCronJob (out : gmap string string) (id name : value number)
  : gmap string string :=
  match id, name with
  | VStr id, VStr name =>
      if String.eqb (trim name) "" then out else <[ id := trim name ]> out
  | _, _ => out
  end.

(** [loadCronJobNameMap]; [parsed] is the parsed content of the cron job
    store, [None] when reading or parsing throws. *)
Definition loadCronJobNameMap (parsed : option (value number)) : gmap string string :=
  match parsed with
  | None => ∅
  | Some obj =>
      match get_prop obj "jobs" with
      | VArr jobs =>
          fold_left
            (fun out job => addCronJob out (get_prop job "id") (get_prop job "name"))
            jobs ∅
      | VObj jobs =>
          fold_left
            (fun out '(k, job) =>
               addCronJob out (orElse (get_prop job "id") (VStr k)) (get_prop job "name"))
            jobs ∅
      | _ => ∅
      end
  end.

(** The record [loadSessionMetaMap] stores for one session. *)
Definition metaFrom (info : value number) : session_meta number :=
  {| meta_label :=
       orElse (get_prop info "label")
         (orElse (get_prop info "displayName")
            (orElse (get_prop info "key") (VStr "")));
     meta_channel := orElse (get_prop info "channel") VNull;
     meta_lastTo := orElse (get_prop info "lastTo") VNull |}.

End Loaders.

(** Free of white space at both ends. *)
Definition isTrimmed (s : string) : Prop :=
  dropWhile isWhiteSpace s = s
  /\ dropWhile isWhiteSpace (rev_string s "") = rev_string s "".

(** A map of cron names holds trimmed, non-empty names only. *)
Definition cronNamesOk (m : gmap string string) : Prop :=
  forall id name, m !! id = Some name -> name <> "" /\ isTrimmed name.

(** * The live stream *)

Definition LFs : string := String LF EmptyString.

(** The chunks [sseSend] writes for one event: the event line when the
    event name is truthy, one data line per line of the payload, and an
    empty line. *)
Definition eventLine (event : option string) : list string :=
  match event with
  | Some e => if String.eqb e "" then [] else [ "event: " ++ e ++ LFs ]
  | None => []
  end.

Definition dataLine (line : string) : string := "data: " ++ line ++ LFs.

Definition sseFrame (event : option string) (payload : string) : list string :=
  (eventLine event ++ map dataLine (splitNewlines payload) ++ [ LFs ])%list.

(** A connected client: what was written to it so far, and after how
    many more writes its [write] throws ([None]: never). *)
Record client : Type := Client {
  received : list string;
  failsAfter : option nat
}.

(** The writes of one [try] block; [None] when a write throws. *)
Fixpoint writeAll (chunks : list string) (c : client) : option client :=
  match chunks with
  | [] => Some c
  | x :: r =>
      match failsAfter c with
      | Some O => None
      | Some (S n) =>
          writeAll r {| received := (received c ++ [ x ])%list; failsAfter := Some n |}
      | None =>
          writeAll r {| received := (received c ++ [ x ])%list; failsAfter := None |}
      end
  end.

(** [sseSend(client, event, data)] for a payload already turned into a
    string: [None] when the client was deleted from the set. *)
Definition sseSend (event : option string) (payload : string) (c : client)
  : option client :=
  writeAll (sseFrame event payload) c.

(** [for (const c of clients) sseSend(c, "line", entry)] *)
Definition broadcast (payload : string) (clients : list client) : list client :=
  omap (sseSend (Some "line") payload) clients.

(** What a reader of the stream recovers from the data lines of a frame. *)
Definition dataOf (chunk : string) : option string :=
  if String.prefix "data: " chunk
  then Some (rev_string (skip 1 (rev_string (skip 6 chunk) "")) "")
  else None.

Definition sseDecode (chunks : list string) : string :=
  joinWith LFs (omap dataOf chunks).

Definition noCR (s : string) : bool := allChars (fun c => negb (Ascii.eqb c CR)) s.

(** * The agent name *)

Definition isLineTerminator (c : ascii) : bool := Ascii.eqb c LF || Ascii.eqb c CR.

(** The last character of a run of white space from which [(.+)] can
    start when nothing follows the run: the last one that is not a line
    terminator. *)
Fixpoint lastInLine (w : string) (found : option ascii) : option ascii :=
  match w with
  | EmptyString => found
  | String c r => lastInLine r (if isLineTerminator c then found else Some c)
  end.

(** The match of [-\s*\*\*Name:\*\*\s*(.+)$] at the head of [s], a line
    start: the capture. *)
Definition matchNameHere (s : string) : option string :=
  match s with
  | String c r =>
      if Ascii.eqb c "-"%char then
        let r1 := dropWhile isWhiteSpace r in
        if String.prefix "**Name:**" r1 then
          let r2 := skip 9 r1 in
          match dropWhile isWhiteSpace r2 with
          | EmptyString =>
              match lastInLine r2 None with
              | Some w => Some (String w EmptyString)
              | None => None
              end
          | r3 => Some (takeWhile (fun c => negb (isLineTerminator c)) r3)
          end
        else None
      else None
  | EmptyString => None
  end.

(** [txt.match(/^-\s*\*\*Name:\*\*\s*(.+)$/m)]: the capture of the
    leftmost match, which can start where a line starts. *)
Fixpoint matchNameFrom (lineStart : bool) (s : string) : option string :=
  match s with
  | EmptyString => None
  | String c r =>
      match (if lineStart then matchNameHere s else None) with
      | Some m => Some m
      | None => matchNameFrom (isLineTerminator c) r
      end
  end.

(** [loadAgentNameFromIdentity]; [txt] is what [safeReadFile] returned. *)
Definition loadAgentNameFromIdentity (txt : option string) : option string :=
  match txt with
  | None => None
  | Some t =>
      if String.eqb t "" then None
      else match matchNameFrom true t with
           | Some m => Some (trim m)
           | None => None
           end
  end.

(** Lines none of which starts with a dash. *)
Definition noBullet (l : string) : bool :=
  match l with
  | String c _ => negb (Ascii.eqb c "-"%char)
  | EmptyString => true
  end.

(** What may follow the name on its line: nothing, or a line terminator. *)
Definition endsLine (rest : string) : bool :=
  match rest with
  | String c _ => isLineTerminator c
  | EmptyString => true
  end.

(** ** Inputs of further concrete runs *)

Definition argsFiles : value Z :=
  VObj [ ("path", VStr "/tmp/a");
         ("files", VArr [ VObj [ ("filePath", VStr "/tmp/b") ];
                          VObj [ ("file_path", VStr "/tmp/a") ] ]);
         ("targetUrl", VStr "https://example.org/") ].

(** A ledger with both kinds of line ending and an empty line. *)
Definition mixedLines : list (string * bool) :=
  [ ("a", true); ("", false); ("b", false) ].

Definition sessionsFile : value Z :=
  VObj [ ("agent:main:main",
          VObj [ ("sessionId", VStr "id1");
                 ("origin", VObj [ ("label", VStr "telegram id:12345") ]) ]);
         ("stale", VObj [ ("channel", VStr "telegram") ]) ].

Definition cronFile : value Z :=
  VObj [ ("jobs", VArr [ VObj [ ("id", VStr "j1"); ("name", VStr "  nightly  ") ];
                         VObj [ ("id", VStr "j2"); ("name", VStr "   ") ] ]) ].

Definition metaSessions : list (string * value Z) :=
  [ ("id1", VObj [ ("displayName", VStr "Danilo"); ("channel", VStr "telegram") ]) ].

Definition metaFile : value Z := VObj [ ("sessions", VObj metaSessions) ].

Definition stCron : state Z :=
  {| sessionMap := ∅; sessionMetaMap := ∅;
     cronJobNameMap := loadCronJobNameMap Z_truthy (Some cronFile);
     recentStarts := ∅; ledger := "" |}.

Definition identityFile : string :=
  joinLines [ "# IDENTITY"; "" ]
  ++ "-" ++ " " ++ "**Name:**" ++ " " ++ "Pi  " ++ joinLines [ ""; "- **Role:** helper" ].

(** A client that has received the greeting of the events route, and
    one whose second write throws. *)
Definition listener : client :=
  {| received := [ ": connected" ++ LFs ++ LFs ]; failsAfter := None |}.

Definition twoClients : list client :=
  [ listener; {| received := []; failsAfter := Some 1%nat |} ].

(** Parameters with a long path and a key passed as a url. *)
Definition paramsWrite : value Z :=
  VObj [ ("path", VStr (repeatString 161 "a"));
         ("url", VStr "sk-abcdef0123456789") ].

(** * Properties of the sanitizer *)

Section SanitizerFacts.

Variable number : Type.
Variable maxString : Z.
Variable dropKeysRe : string -> bool.

#[local] Abbreviation value := (value number).
#[local] Abbreviation sanitizeAny := (@sanitizeAny number maxString dropKeysRe).
#[local] Abbreviation sanitizeEntries := (@sanitizeEntries number maxString dropKeysRe).

(** Induction over payloads, with the induction hypothesis available for
    every element of an array and every property value of an object. *)
Lemma value_induction (P : value -> Prop) :
  P VUndefined -> P VNull -> (forall b, P (VBool b)) -> (forall n, P (VNum n)) ->
  (forall s, P (VStr s)) ->
  (forall xs, Forall P xs -> P (VArr xs)) ->
  (forall fs, Forall (fun kv => P (snd kv)) fs -> P (VObj fs)) ->
  (forall r, P (VOther r)) ->
  forall v, P v.
Proof.
  intros Hu Hn Hb Hnum Hs Ha Ho Hr.
  fix IH 1.
  intros [ | | b | n | s | xs | fs | r ].
  - exact Hu.
  - exact Hn.
  - apply Hb.
  - apply Hnum.
  - apply Hs.
  - apply Ha. induction xs as [ | x xs IHxs ]; constructor; [ apply IH | exact IHxs ].
  - apply Ho. induction fs as [ | [k x] fs IHfs ]; constructor; [ apply IH | exact IHfs ].
  - apply Hr.
Qed.

Lemma sanitizeAny_obj (fs : list (string * value)) :
  sanitizeAny (VObj fs) = VObj (sanitizeEntries fs []).
Proof.
  simpl. f_equal. generalize (@nil (string * value)).
  induction fs as [ | [k v] fs IH ]; intros out; simpl; [ reflexivity | ].
  destruct (isSensitiveKey dropKeysRe k); apply IH.
Qed.

Lemma hasKeyDeep_obj (k : string) (fs : list (string * value)) :
  cleanFields k fs -> hasKeyDeep k (VObj fs) = false.
Proof.
  unfold cleanFields. induction 1 as [ | [k' v] fs [Hk Hv] _ IH ]; simpl in *.
  - reflexivity.
  - rewrite Hv, IH. destruct (String.eqb_spec k k'); [ congruence | reflexivity ].
Qed.

Lemma obj_set_clean (k k' : string) (v : value) (out : list (string * value)) :
  cleanFields k out -> k' <> k -> hasKeyDeep k v = false ->
  cleanFields k (obj_set out k' v).
Proof.
  intros Hout Hk Hv. unfold cleanFields in *.
  induction Hout as [ | [k0 v0] out [H0 H1] Hout IH ]; simpl.
  - repeat constructor; assumption.
  - destruct (String.eqb k' k0); constructor; simpl; auto.
Qed.

Lemma sanitizeEntries_clean (k : string) (fs : list (string * value)) :
  dropKeysRe k = true ->
  Forall (fun kv => hasKeyDeep k (sanitizeAny (snd kv)) = false) fs ->
  forall out, cleanFields k out -> cleanFields k (sanitizeEntries fs out).
Proof.
  intros Hk Hfs. induction Hfs as [ | [k' v] fs Hv _ IH ]; intros out Hout; simpl.
  - assumption.
  - unfold isSensitiveKey. destruct (dropKeysRe k') eqn:Hk'.
    + apply IH, Hout.
    + apply IH, obj_set_clean; auto. congruence.
Qed.

(** C2. Every property name that the sensitive-key pattern matches is
    absent from the sanitized value, at every nesting depth: no property
    of that name is left, with a masked value or otherwise.  The pattern
    is any configured one. *)
Theorem sanitize_drops_sensitive_keys (v : value) (k : string) :
  dropKeysRe k = true -> hasKeyDeep k (sanitizeAny v) = false.
Proof.
  intros Hk. induction v as [ | | b | n | s | xs IH | fs IH | r ] using value_induction;
    try reflexivity.
  - simpl. induction IH as [ | x xs Hx _ IHxs ]; simpl; [ reflexivity | ].
    rewrite Hx. exact IHxs.
  - rewrite sanitizeAny_obj. apply hasKeyDeep_obj.
    apply sanitizeEntries_clean; [ assumption | exact IH | constructor ].
Qed.

(** C3. A string strictly longer than the configured maximum is replaced
    by the marker [<redacted:LEN>], LEN being its length in decimal; the
    marker is the same for every string of that length, so nothing of the
    content is left. *)
Theorem sanitize_long_string_reveals_length_only (s s' : string) :
  maxString < Z.of_nat (String.length s) ->
  String.length s' = String.length s ->
  sanitizeAny (VStr s') = VStr ("<redacted:" ++ ofNat (String.length s) ++ ">").
Proof.
  intros Hlong Hlen. simpl. unfold sanitizeString, redactedLength.
  rewrite Hlen. destruct (Z.ltb_spec maxString (Z.of_nat (String.length s))).
  - reflexivity.
  - lia.
Qed.

End SanitizerFacts.

(** * Properties of the ledger *)

Section LedgerFacts.

Variable number : Type.
Variable JSON_stringify : entry number -> string.

Lemma append_assoc (a b c : string) : (a ++ b) ++ c = a ++ (b ++ c).
Proof.
  induction a as [ | x a IH ]; [ reflexivity | ].
  change (String x ((a ++ b) ++ c) = String x (a ++ (b ++ c))). now rewrite IH.
Qed.

Lemma append_empty_r (a : string) : a ++ "" = a.
Proof.
  induction a as [ | x a IH ]; [ reflexivity | ].
  change (String x (a ++ "") = String x a). now rewrite IH.
Qed.

Lemma appendAll_joinLines (es : list (entry number)) (file : string) :
  appendAll JSON_stringify es file = file ++ joinLines (map JSON_stringify es).
Proof.
  unfold appendAll. revert file.
  induction es as [ | e es IH ]; intros file; simpl.
  - now rewrite append_empty_r.
  - rewrite IH. unfold emitLedger, appendLine. rewrite !append_assoc. reflexivity.
Qed.

Lemma splitNewlines_nonempty (s : string) : splitNewlines s <> [].
Proof.
  induction s as [ | c s IH ]; simpl; [ discriminate | ].
  destruct (Ascii.eqb c LF); [ discriminate | ].
  destruct s as [ | c2 s2 ]; [ discriminate | ].
  destruct (Ascii.eqb c CR && Ascii.eqb c2 LF); [ discriminate | ].
  destruct (splitNewlines (String c2 s2)); discriminate.
Qed.

Lemma splitNewlines_line (l rest : string) :
  noBreak l = true ->
  splitNewlines (l ++ String LF rest) = l :: splitNewlines rest.
Proof.
  unfold noBreak. induction l as [ | c l IH ]; intros Hl.
  - simpl. reflexivity.
  - simpl in Hl. apply andb_prop in Hl as [Hc Hl]. apply andb_prop in Hc as [Hlf Hcr].
    apply negb_true_iff in Hlf, Hcr. specialize (IH Hl).
    change (String c l ++ String LF rest) with (String c (l ++ String LF rest)).
    cbn [splitNewlines]. rewrite Hlf, Hcr. cbn [andb].
    destruct (l ++ String LF rest) as [ | c2 r2 ] eqn:E.
    + destruct l; discriminate.
    + rewrite IH. reflexivity.
Qed.

Lemma splitNewlines_joinLines (ls : list string) :
  Forall (fun l => noBreak l = true) ls ->
  splitNewlines (joinLines ls) = (ls ++ [ "" ])%list.
Proof.
  induction 1 as [ | l ls Hl _ IH ]; simpl; [ reflexivity | ].
  rewrite splitNewlines_line by assumption. now rewrite IH.
Qed.

Lemma lineOk_inv (l : string) : lineOk l = true -> l <> "" /\ noBreak l = true.
Proof.
  unfold lineOk, noBreak. intros H. apply andb_prop in H as [H1 H2]. split; [ | exact H2 ].
  apply negb_true_iff in H1. now apply String.eqb_neq.
Qed.

Lemma parseLines_joinLines (ls : list string) :
  Forall (fun l => lineOk l = true) ls -> parseLines (joinLines ls) = ls.
Proof.
  intros H. unfold parseLines. rewrite splitNewlines_joinLines.
  - rewrite List.filter_app. simpl. rewrite app_nil_r.
    induction H as [ | l ls Hl _ IH ]; simpl; [ reflexivity | ].
    apply lineOk_inv in Hl as [Hne _]. apply String.eqb_neq in Hne. rewrite Hne. simpl.
    now rewrite IH.
  - eapply Forall_impl; [ exact H | ]. intros l Hl. now apply lineOk_inv in Hl.
Qed.

(** C8. After N records were appended to an empty ledger, each printed
    by [JSON.stringify] as one line, [tailLines] with a limit M <= N
    returns exactly the last M records, in the order they were appended. *)
Theorem tail_returns_last_records (es : list (entry number)) (M : nat) :
  Forall (fun e => lineOk (JSON_stringify e) = true) es ->
  (M <= length es)%nat ->
  tailLines (Some (appendAll JSON_stringify es "")) (Some (Int (Z.of_nat M)))
  = map JSON_stringify (skipn (length es - M) es).
Proof.
  intros Hok HM. unfold tailLines.
  rewrite appendAll_joinLines.
  change ("" ++ joinLines (map JSON_stringify es)) with (joinLines (map JSON_stringify es)).
  rewrite parseLines_joinLines by (apply Forall_map; exact Hok).
  rewrite length_map. simpl.
  replace (Z.max 0 (Z.of_nat (length es) - Z.of_nat M))
    with (Z.of_nat (length es - M)) by lia.
  destruct (Z.ltb_spec (Z.of_nat (length es - M)) 0); [ lia | ].
  rewrite Nat2Z.id. apply skipn_map.
Qed.

Lemma length_slice_from_le (z : Z) (l : list string) :
  0 <= z -> (length (slice_from (Int (Z.max 0 (Z.of_nat (length l) - z))) l)
             <= Z.to_nat z)%nat.
Proof.
  intros Hz. unfold slice_from.
  destruct (Z.ltb_spec (Z.max 0 (Z.of_nat (length l) - z)) 0); [ lia | ].
  rewrite length_skipn. lia.
Qed.

(** Whenever [parseInt] reads a number from the query parameter, the
    recent-entries route answers with at most [min(2000, max(1, n))]
    lines. *)
Lemma recent_numeric_bounded (n txt : option string) (z : Z) :
  parseInt10 (recentArg n) = Int z ->
  (length (recent n txt) <= Z.to_nat (Z.min 2000 (Z.max 1 z)))%nat
  /\ (length (recent n txt) <= 2000)%nat.
Proof.
  intros Hz.
  assert (length (recent n txt) <= Z.to_nat (Z.min 2000 (Z.max 1 z)))%nat as H.
  { unfold recent. fold (recentArg n). rewrite Hz. simpl Math_min.
    unfold tailLines. destruct txt as [ txt | ]; [ | simpl; lia ].
    simpl. apply length_slice_from_le. lia. }
  split; [ exact H | lia ].
Qed.

Lemma recent_default_bounded (txt : option string) :
  (length (recent None txt) <= 200)%nat.
Proof.
  pose proof (@recent_numeric_bounded None txt 200 eq_refl) as [H _]. exact H.
Qed.

(** C4 (the failing case). A query parameter from which [parseInt] reads
    no number makes the bound NaN, and the route answers with every line
    of the ledger: here 2001 lines for [n=abc]. *)
Theorem recent_non_numeric_returns_every_line :
  parseInt10 (recentArg (Some "abc")) = NaN
  /\ length (recent (Some "abc") (Some (repeatString 2001 ("x" ++ String LF "")))) = 2001%nat.
Proof. split; vm_compute; reflexivity. Qed.

End LedgerFacts.

(** * Properties of the export route *)

Section ExportFacts.

Variable number : Type.
Variable JSON_parse : string -> option (value number).

Lemma writeLine_inj (l l' : string) : writeLine l = writeLine l' -> l = l'.
Proof.
  unfold writeLine. revert l'.
  induction l as [ | c l IH ]; intros [ | c' l' ] H.
  - reflexivity.
  - change (String LF "" = String c' (l' ++ String LF "")) in H.
    injection H as _ H. destruct l'; discriminate.
  - change (String c (l ++ String LF "") = String LF "") in H.
    injection H as _ H. destruct l; discriminate.
  - change (String c (l ++ String LF "") = String c' (l' ++ String LF "")) in H.
    injection H as Hc H. f_equal; [ exact Hc | apply IH, H ].
Qed.

Lemma ltb_empty (t : string) : String.ltb t "" = false.
Proof. destruct t; reflexivity. Qed.

Lemma exportStream_written (sinceTs : option string) (lines : list string)
  (failed : bool) (l : string) :
  l <> "" ->
  In (writeLine l) (exportStream JSON_parse sinceTs lines failed)
  <-> In l lines /\ exportKeeps JSON_parse sinceTs l = true.
Proof.
  intros Hne. unfold exportStream. rewrite in_app_iff, in_map_iff. split.
  - intros [ [l' [Heq Hin]] | Hin ].
    + apply writeLine_inj in Heq. subst l'. now apply List.filter_In in Hin.
    + destruct failed; simpl in Hin; [ | contradiction ].
      destruct Hin as [Heq | []]. destruct l; [ congruence | ].
      unfold writeLine in Heq.
      change (String LF "" = String a (l ++ String LF "")) in Heq.
      injection Heq as _ Heq. destruct l; discriminate.
  - intros [Hin Hk]. left. exists l. split; [ reflexivity | ].
    apply List.filter_In. now split.
Qed.

(** C9, as the code has it. With a timestamp filter, no written line
    parses to a record whose string timestamp sorts strictly before the
    filter value, and every line that is not empty and fails to parse is
    written verbatim, followed by a line feed.  (Empty lines are skipped
    before any parsing.) *)
Theorem export_filters_by_timestamp (sinceTs : option string) (lines : list string)
  (failed : bool) (l : string) :
  l <> "" ->
  (In l lines -> JSON_parse l = None ->
   In (writeLine l) (exportStream JSON_parse sinceTs lines failed))
  /\ (forall since obj t,
        sinceTs = Some since -> JSON_parse l = Some obj ->
        get_prop obj "ts" = VStr t -> String.ltb t since = true ->
        ~ In (writeLine l) (exportStream JSON_parse sinceTs lines failed)).
Proof.
  intros Hne. apply String.eqb_neq in Hne as Hne'. split.
  - intros Hin Hparse. apply exportStream_written; [ assumption | ].
    split; [ assumption | ]. unfold exportKeeps. rewrite Hne', Hparse.
    destruct sinceTs as [ since | ]; [ | reflexivity ].
    destruct (String.eqb since ""); reflexivity.
  - intros since obj t -> Hparse Hts Hlt Hin.
    apply exportStream_written in Hin as [_ Hk]; [ | assumption ].
    unfold exportKeeps in Hk. rewrite Hne', Hparse, Hts, Hlt in Hk.
    destruct (String.eqb_spec since "") as [ -> | _ ].
    + rewrite ltb_empty in Hlt. discriminate.
    + discriminate.
Qed.

End ExportFacts.

(** * Properties of the start queue *)

Section CorrelatorFacts.

Variable number : Type.
Variable number_toString : number -> string.
Variable number_truthy : number -> bool.

#[local] Abbreviation state := (state number).
#[local] Abbreviation start := (start number).
#[local] Abbreviation push := (@pushStart number number_toString number_truthy).
#[local] Abbreviation obs := (@observation number number_toString number_truthy).

Lemma shiftWhileOver_skipn (cap : nat) (q : list start) :
  shiftWhileOver cap q = skipn (length q - cap) q.
Proof.
  induction q as [ | o q IH ]; [ reflexivity | ].
  cbn [shiftWhileOver]. destruct (Nat.ltb_spec cap (length (o :: q))) as [ H | H ].
  - rewrite IH. simpl in H. simpl length.
    replace (S (length q) - cap)%nat with (S (length q - cap)) by lia. reflexivity.
  - replace (length (o :: q) - cap)%nat with 0%nat by lia. reflexivity.
Qed.

Lemma length_shiftWhileOver (cap : nat) (q : list start) :
  (length (shiftWhileOver cap q) <= cap)%nat.
Proof. rewrite shiftWhileOver_skipn, length_skipn. lia. Qed.

Lemma shiftWhileOver_snoc (c : nat) (q : list start) (o : start) :
  shiftWhileOver (S c) (q ++ [ o ]) = (skipn (length q - c) q ++ [ o ])%list.
Proof.
  rewrite shiftWhileOver_skipn, length_app. simpl length.
  replace (length q + 1 - S c)%nat with (length q - c)%nat by lia.
  rewrite skipn_app.
  replace (length q - c - length q)%nat with 0%nat by lia. reflexivity.
Qed.

Lemma queueOf_store (st : state) (sk tn : string) (byTool : gmap string (list start))
  (q : list start) :
  queueOf (set_recentStarts (<[ sk := <[ tn := q ]> byTool ]> (recentStarts st)) st) sk tn
  = q.
Proof.
  unfold queueOf. simpl. rewrite lookup_insert_eq. simpl.
  rewrite lookup_insert_eq. reflexivity.
Qed.

Lemma queueOf_pushStart (t : Z) (sk tn : string) (params : value number) (st : state) :
  sk <> "" -> tn <> "" ->
  queueOf (push t (Some sk) tn params st) sk tn
  = shiftWhileOver 40 (queueOf st sk tn ++ [ obs t tn params ]).
Proof.
  intros Hsk Htn. apply String.eqb_neq in Hsk, Htn.
  unfold pushStart. rewrite Hsk, Htn. cbn [orb].
  rewrite queueOf_store. reflexivity.
Qed.

Lemma dropTooOld_stale_prefix (now m : Z) (pre : list start) (o : start) (rest : list start) :
  Forall (tooOld now m) pre -> now - tsMs o <= m ->
  dropTooOld now m (pre ++ o :: rest) = o :: rest.
Proof.
  intros Hpre Ho. induction Hpre as [ | x pre Hx _ IH ]; simpl.
  - destruct (Z.ltb_spec m (now - tsMs o)); [ lia | reflexivity ].
  - unfold tooOld in Hx. destruct (Z.ltb_spec m (now - tsMs x)); [ exact IH | lia ].
Qed.

Lemma dropTooOld_split (now m : Z) (q : list start) :
  exists stale, q = (stale ++ dropTooOld now m q)%list
                /\ Forall (tooOld now m) stale
                /\ match dropTooOld now m q with
                   | o :: _ => now - tsMs o <= m
                   | [] => True
                   end.
Proof.
  induction q as [ | x q (stale & Hq & Hst & Hhd) ]; simpl.
  - exists []. repeat split; constructor.
  - destruct (Z.ltb_spec m (now - tsMs x)) as [ H | H ].
    + exists (x :: stale). repeat split.
      * simpl. now rewrite <- Hq.
      * constructor; assumption.
      * exact Hhd.
    + exists []. repeat split; [ constructor | exact H ].
Qed.

(** [popRecentStart] in terms of the queue of the pair. *)
Lemma popRecentStart_queue (now : Z) (sk tn : string) (maxAgeMs : option Z) (st : state) :
  let q := dropTooOld now (window maxAgeMs) (queueOf st sk tn) in
  fst (popRecentStart now (Some sk) (VStr tn) maxAgeMs st) = hd_error q
  /\ queueOf (snd (popRecentStart now (Some sk) (VStr tn) maxAgeMs st)) sk tn = tl q.
Proof.
  cbv zeta.
  assert (queueOf st sk tn = default [] (default ∅ (recentStarts st !! sk) !! tn)) as Hq
    by reflexivity.
  unfold popRecentStart. fold (window maxAgeMs).
  destruct (recentStarts st !! sk) as [ byTool | ] eqn:Hsk.
  2:{ cbn in Hq. rewrite lookup_empty in Hq. cbn [fst snd]. rewrite Hq. split; reflexivity. }
  change (queueOf st sk tn = default [] (byTool !! tn)) in Hq.
  destruct (byTool !! tn) as [ q | ] eqn:Htn; cbn in Hq.
  2:{ cbn [fst snd]. rewrite Hq. split; reflexivity. }
  destruct q as [ | o q ].
  { cbn [fst snd]. rewrite Hq. split; reflexivity. }
  rewrite Hq.
  destruct (dropTooOld now (window maxAgeMs) (o :: q)) as [ | o' r ];
    cbn [fst snd hd_error tl]; rewrite queueOf_store; split; reflexivity.
Qed.

(** C5. Two start observations recorded in order for one (session,
    tool) pair, each still inside the match window when it is asked for,
    are handed out first-in first-out: the first [popRecentStart] returns
    the first, the second returns the second, the third returns nothing.
    The pair may hold older entries beforehand, as long as they are
    already outside the window. *)
Theorem consume_is_fifo (st : state) (sk tn : string) (p1 p2 : value number)
  (t1 t2 n1 n2 n3 : Z) (maxAgeMs : option Z) :
  sk <> "" -> tn <> "" ->
  Forall (tooOld n1 (window maxAgeMs)) (queueOf st sk tn) ->
  n1 - t1 <= window maxAgeMs ->
  n2 - t2 <= window maxAgeMs ->
  let st2 := push t2 (Some sk) tn p2 (push t1 (Some sk) tn p1 st) in
  let c1 := popRecentStart n1 (Some sk) (VStr tn) maxAgeMs st2 in
  let c2 := popRecentStart n2 (Some sk) (VStr tn) maxAgeMs (snd c1) in
  let c3 := popRecentStart n3 (Some sk) (VStr tn) maxAgeMs (snd c2) in
  fst c1 = Some (obs t1 tn p1) /\ fst c2 = Some (obs t2 tn p2) /\ fst c3 = None.
Proof.
  intros Hsk Htn Hold H1 H2 st2 c1 c2 c3.
  assert (exists pre, queueOf st2 sk tn = (pre ++ [ obs t1 tn p1; obs t2 tn p2 ])%list
                      /\ Forall (tooOld n1 (window maxAgeMs)) pre) as (pre & Hq & Hpre).
  { unfold st2. rewrite !queueOf_pushStart by assumption.
    rewrite !(shiftWhileOver_snoc 39).
    set (B := skipn (length (queueOf st sk tn) - 39) (queueOf st sk tn)).
    rewrite skipn_app, length_app. simpl length.
    replace (length B + 1 - 39 - length B)%nat with 0%nat by lia.
    cbn [skipn]. rewrite <- app_assoc. eexists. split; [ reflexivity | ].
    apply Forall_drop. unfold B. apply Forall_drop. exact Hold. }
  destruct (popRecentStart_queue n1 sk tn maxAgeMs st2) as [Ha Hb].
  fold c1 in Ha, Hb.
  rewrite Hq, (dropTooOld_stale_prefix (obs t1 tn p1) [ obs t2 tn p2 ] Hpre H1)
    in Ha, Hb.
  cbn [hd_error tl] in Ha, Hb.
  destruct (popRecentStart_queue n2 sk tn maxAgeMs (snd c1)) as [Hc Hd].
  fold c2 in Hc, Hd. rewrite Hb in Hc, Hd.
  assert (dropTooOld n2 (window maxAgeMs) [ obs t2 tn p2 ] = [ obs t2 tn p2 ]) as E
    by exact (dropTooOld_stale_prefix (pre := []) (obs t2 tn p2) []
                (List.Forall_nil _) H2).
  rewrite E in Hc, Hd.
  cbn [hd_error tl] in Hc, Hd.
  destruct (popRecentStart_queue n3 sk tn maxAgeMs (snd c2)) as [He _].
  fold c3 in He. rewrite Hd in He.
  repeat split; assumption.
Qed.

(** C6. [popRecentStart] never returns an observation older than the
    match window: what it returns sat in the queue behind a run of
    entries that were all too old, those are discarded, and only what was
    queued after it stays.  A queue holding nothing but stale entries
    therefore yields nothing. *)
Theorem consume_never_returns_stale (st : state) (now : Z) (sessionKey : option string)
  (toolName : value number) (maxAgeMs : option Z) (o : start) :
  fst (popRecentStart now sessionKey toolName maxAgeMs st) = Some o ->
  now - tsMs o <= window maxAgeMs
  /\ exists sk tn stale rest,
       sessionKey = Some sk /\ toolName = VStr tn
       /\ queueOf st sk tn = (stale ++ o :: rest)%list
       /\ Forall (tooOld now (window maxAgeMs)) stale
       /\ queueOf (snd (popRecentStart now sessionKey toolName maxAgeMs st)) sk tn = rest.
Proof.
  intros Hret.
  destruct sessionKey as [ sk | ]; [ | discriminate ].
  destruct toolName as [ | | | | tn | | | ]; try discriminate.
  destruct (popRecentStart_queue now sk tn maxAgeMs st) as [Ha Hb].
  destruct (dropTooOld_split now (window maxAgeMs) (queueOf st sk tn))
    as (stale & Hq & Hstale & Hhd).
  rewrite Hret in Ha.
  destruct (dropTooOld now (window maxAgeMs) (queueOf st sk tn)) as [ | o' rest ];
    [ discriminate | ].
  injection Ha as ->. split; [ exact Hhd | ].
  exists sk, tn, stale, rest. repeat split; assumption.
Qed.

Lemma lone_stale_observation_is_discarded (st : state) (now : Z) (sk tn : string)
  (maxAgeMs : option Z) (o : start) :
  queueOf st sk tn = [ o ] -> tooOld now (window maxAgeMs) o ->
  fst (popRecentStart now (Some sk) (VStr tn) maxAgeMs st) = None
  /\ queueOf (snd (popRecentStart now (Some sk) (VStr tn) maxAgeMs st)) sk tn = [].
Proof.
  intros Hq Ho. destruct (popRecentStart_queue now sk tn maxAgeMs st) as [Ha Hb].
  rewrite Hq in Ha, Hb. unfold tooOld in Ho. simpl in Ha, Hb.
  destruct (Z.ltb_spec (window maxAgeMs) (now - tsMs o)); [ | lia ].
  split; assumption.
Qed.

(** C7. After [pushStart] has recorded an observation the queue of the
    pair holds at most 40 entries.  When it held 40 before, the oldest
    one is evicted, the others keep their order and the new one comes
    last; whatever [popRecentStart] returns next is one of these, hence
    never the evicted entry. *)
Theorem start_queue_is_capped (st : state) (t : Z) (sk tn : string)
  (params : value number) :
  sk <> "" -> tn <> "" ->
  (length (queueOf (push t (Some sk) tn params st) sk tn) <= 40)%nat
  /\ forall oldest rest,
       queueOf st sk tn = oldest :: rest -> length rest = 39%nat ->
       queueOf (push t (Some sk) tn params st) sk tn = (rest ++ [ obs t tn params ])%list
       /\ forall now maxAgeMs r,
            fst (popRecentStart now (Some sk) (VStr tn) maxAgeMs
                   (push t (Some sk) tn params st)) = Some r ->
            In r (rest ++ [ obs t tn params ]).
Proof.
  intros Hsk Htn. rewrite queueOf_pushStart by assumption. split.
  - apply length_shiftWhileOver.
  - intros oldest rest Hq Hlen.
    assert (shiftWhileOver 40 (queueOf st sk tn ++ [ obs t tn params ])
            = (rest ++ [ obs t tn params ])%list) as Hshift.
    { rewrite (shiftWhileOver_snoc 39), Hq. simpl length. rewrite Hlen. reflexivity. }
    split; [ exact Hshift | ].
    intros now maxAgeMs r Hr.
    destruct (popRecentStart_queue now sk tn maxAgeMs (push t (Some sk) tn params st))
      as [Ha _].
    rewrite Hr, queueOf_pushStart, Hshift in Ha by assumption.
    destruct (dropTooOld_split now (window maxAgeMs) (rest ++ [ obs t tn params ]))
      as (stale & Hsplit & _ & _).
    rewrite Hsplit. apply in_or_app. right.
    destruct (dropTooOld now (window maxAgeMs) (rest ++ [ obs t tn params ]));
      [ discriminate | ].
    injection Ha as ->. now left.
Qed.

End CorrelatorFacts.

(** * Properties of the identity maps *)

Section IdentityFacts.

Variable number : Type.
Variable number_toString : number -> string.
Variable number_truthy : number -> bool.

#[local] Abbreviation nextMeta := (@loadSessionMetaMap number number_truthy).
#[local] Abbreviation label := (@resolveLabel number number_toString number_truthy).
#[local] Abbreviation refresh := (@refreshSessionMaps number number_truthy).

Lemma hasKeys_false {A : Type} (m : gmap string A) : hasKeys m = false <-> m = ∅.
Proof.
  unfold hasKeys. rewrite <- map_size_empty_iff.
  destruct (Nat.ltb_spec 0 (size m)); split; intros; try lia; congruence.
Qed.

Lemma set_sessionMetaMap_id (st : state number) :
  set_sessionMetaMap (sessionMetaMap st) st = st.
Proof. destruct st; reflexivity. Qed.

(** The one-shot reload of [resolveLabel] touches the session-meta map
    only, and only to install a reload that has keys. *)
Lemma resolveLabel_state (parsed : option (value number)) (sk : option string)
  (sid fb : value number) (st : state number) :
  snd (label parsed sk sid fb st) = st
  \/ (hasKeys (nextMeta parsed) = true
      /\ snd (label parsed sk sid fb st) = set_sessionMetaMap (nextMeta parsed) st).
Proof.
  unfold resolveLabel.
  destruct (metaLabel number_toString number_truthy (sessionMetaMap st) sid);
    [ now left | ].
  match goal with
  | |- context [ match ?c with Some l => (VStr l, st) | None => _ end ] => destruct c
  end; [ now left | ].
  destruct (hasKeys (nextMeta parsed)) eqn:Hk; [ | now left ].
  right. split; [ reflexivity | ].
  destruct (metaLabel number_toString number_truthy (nextMeta parsed) sid); reflexivity.
Qed.

(** C10. A reload of the session-meta map that fails or yields no entry
    leaves the map in use untouched, in the periodic refresh as in the
    one-shot retry of [resolveLabel] (whose whole state is then
    unchanged, so both resolvers go on answering from the old map); the
    map only ever changes by being replaced as a whole with a reload
    that has entries.  The refresh treats the session registry and the
    cron names alike. *)
Theorem empty_reload_keeps_last_good_map (l : loaded number)
  (parsed : option (value number)) (sk : option string) (sid fb : value number)
  (st : state number) :
  nextMeta None = ∅
  /\ (nextMeta (metaParsed l) = ∅ ->
      sessionMetaMap (refresh l st) = sessionMetaMap st)
  /\ (nextMeta parsed = ∅ ->
      snd (label parsed sk sid fb st) = st
      /\ resolveChannel number_toString number_truthy sk sid fb
           (snd (label parsed sk sid fb st))
         = resolveChannel number_toString number_truthy sk sid fb st)
  /\ (sessionMetaMap (refresh l st) = sessionMetaMap st
      \/ (nextMeta (metaParsed l) <> ∅
          /\ sessionMetaMap (refresh l st) = nextMeta (metaParsed l)))
  /\ (sessionMetaMap (snd (label parsed sk sid fb st)) = sessionMetaMap st
      \/ (nextMeta parsed <> ∅
          /\ sessionMetaMap (snd (label parsed sk sid fb st)) = nextMeta parsed))
  /\ (nextSessionMap l = ∅ -> sessionMap (refresh l st) = sessionMap st)
  /\ (nextCronMap l = ∅ -> cronJobNameMap (refresh l st) = cronJobNameMap st).
Proof.
  assert (forall p, nextMeta p = ∅ -> snd (label p sk sid fb st) = st) as Hkeep.
  { intros p Hp. destruct (resolveLabel_state p sk sid fb st) as [ H | [Hk _] ];
      [ exact H | ].
    apply hasKeys_false in Hp. congruence. }
  repeat apply conj.
  - reflexivity.
  - intros H. unfold refreshSessionMaps. simpl.
    apply hasKeys_false in H. now rewrite H.
  - intros H. split; [ now apply Hkeep | now rewrite (Hkeep _ H) ].
  - unfold refreshSessionMaps. simpl.
    destruct (hasKeys (nextMeta (metaParsed l))) eqn:Hk; [ right | now left ].
    split; [ | reflexivity ]. intros H. apply hasKeys_false in H. congruence.
  - destruct (resolveLabel_state parsed sk sid fb st) as [ -> | [Hk ->] ]; [ now left | ].
    right. split; [ | reflexivity ]. intros H. apply hasKeys_false in H. congruence.
  - intros H. unfold refreshSessionMaps. simpl.
    apply hasKeys_false in H. now rewrite H.
  - intros H. unfold refreshSessionMaps. simpl.
    apply hasKeys_false in H. now rewrite H.
Qed.

End IdentityFacts.

(** * What reaches the ledger *)

Section PipelineFacts.

Variable number : Type.
Variable number_toString : number -> string.
Variable number_truthy : number -> bool.
Variable JSON_stringify : entry number -> string.
Variable JSON_parse : string -> option (value number).
Variable cfg : config.

#[local] Abbreviation san := (@sanitizeAny number (maxString cfg) (dropKeysRe cfg)).
#[local] Abbreviation sanEntries := (@sanitizeEntries number (maxString cfg) (dropKeysRe cfg)).
#[local] Abbreviation public := (@same_public number (maxString cfg) (dropKeysRe cfg)).
#[local] Abbreviation step1 :=
  (@step number number_toString number_truthy JSON_stringify JSON_parse cfg).
#[local] Abbreviation runAll :=
  (@run number number_toString number_truthy JSON_stringify JSON_parse cfg).

Lemma sanitizeString_long (s s' : string) :
  maxString cfg < Z.of_nat (String.length s) ->
  String.length s' = String.length s ->
  sanitizeString (maxString cfg) s = sanitizeString (maxString cfg) s'.
Proof.
  intros Hlong Hlen. unfold sanitizeString, redactedLength. rewrite Hlen.
  destruct (Z.ltb_spec (maxString cfg) (Z.of_nat (String.length s)));
    [ reflexivity | lia ].
Qed.

(** Sanitizing forgets exactly what [same_public] allows to differ. *)
Lemma sanitize_same_public :
  (forall v v', public v v' -> san v = san v')
  /\ (forall xs xs',
        same_public_list (maxString cfg) (dropKeysRe cfg) xs xs' ->
        map san xs = map san xs')
  /\ (forall fs fs',
        same_public_fields (maxString cfg) (dropKeysRe cfg) fs fs' ->
        forall out, sanEntries fs out = sanEntries fs' out).
Proof.
  apply same_public_mutind.
  - reflexivity.
  - intros s s' Hlong Hlen. simpl. f_equal. now apply sanitizeString_long.
  - intros xs xs' _ IH. simpl. now rewrite IH.
  - intros fs fs' _ IH. rewrite !sanitizeAny_obj. now rewrite IH.
  - reflexivity.
  - intros x x' xs xs' _ Hx _ Hxs. simpl. now rewrite Hx, Hxs.
  - reflexivity.
  - intros k v fs fs' Hk _ IH out. simpl. unfold isSensitiveKey. rewrite Hk. apply IH.
  - intros k v fs fs' Hk _ IH out. simpl. unfold isSensitiveKey. rewrite Hk. apply IH.
  - intros k v v' fs fs' _ Hv _ IH out. simpl.
    destruct (isSensitiveKey (dropKeysRe cfg) k); [ apply IH | ].
    rewrite Hv. apply IH.
Qed.

Lemma truthy_same_public (v v' : value number) :
  public v v' -> truthy number_truthy v = truthy number_truthy v'.
Proof.
  intros H. destruct H as [ v | s s' _ Hlen | xs xs' _ | fs fs' _ ]; try reflexivity.
  simpl. destruct s, s'; try reflexivity; discriminate.
Qed.

Lemma sanitize_params_same_public (p p' : value number) :
  public p p' ->
  sanitize cfg (or_else number_truthy p (VObj [])) =
  sanitize cfg (or_else number_truthy p' (VObj [])).
Proof.
  intros H. unfold sanitize, or_else. rewrite (truthy_same_public H).
  destruct (truthy number_truthy p'); [ | reflexivity ].
  now apply sanitize_same_public.
Qed.

Lemma step_same_public (w : world number) (i i' : input number) (st : state number) :
  same_public_input (maxString cfg) (dropKeysRe cfg) i i' ->
  step1 w i st = step1 w i' st.
Proof.
  intros H. destruct H as [ ev ev' ctx He | ev ev' ctx He | i ]; [ | | reflexivity ].
  - destruct He as (Ht & Hp & _ & _). simpl. unfold before_tool_call.
    now rewrite Ht, (sanitize_params_same_public Hp).
  - destruct He as (Ht & Hp & Hd & Herr).
    assert (after_tool_call_entry number_toString number_truthy cfg w ev ctx st
            = after_tool_call_entry number_toString number_truthy cfg w ev' ctx st) as E.
    { unfold after_tool_call_entry.
      now rewrite Ht, Hd, Herr, (sanitize_params_same_public Hp). }
    simpl. unfold after_tool_call. now rewrite E.
Qed.

(** C1, as the code has it. The records handed to the ledger by the
    hooks are computed from the sanitized tool parameters: two runs of the
    service whose callbacks differ only in what sanitizing hides of the
    parameters (the content of a string longer than [maxString], anything
    under a sensitive key) end in the same state, with the same ledger
    file, and emit the same records, [summary] and [details] included. *)
Theorem records_show_sanitized_params_only
  (calls calls' : list (world number * input number)) (st : state number) :
  Forall2 (same_public_call (maxString cfg) (dropKeysRe cfg)) calls calls' ->
  runAll calls st = runAll calls' st.
Proof.
  intros H. revert st.
  induction H as [ | [w i] [w' i'] calls calls' [Hw Hi] _ IH ]; intros st.
  - reflexivity.
  - simpl in Hw, Hi. subst w'. simpl.
    rewrite (step_same_public w st Hi).
    destruct (step1 w i' st) as [st1 es1]. now rewrite IH.
Qed.

(** The note route hands the trimmed text to the ledger as it came. *)
Lemma note_summary_is_the_text (w : world number) (method body : string)
  (st st' : state number) (e : entry number) :
  note_entry number_toString number_truthy JSON_parse cfg w method body st
  = Accepted e st' ->
  exists payload,
    summary e = VStr (trim (ToString number_toString
                              (or_else number_truthy (get_prop payload "text") (VStr ""))))
    /\ details e = [ ("result", VStr "ok") ].
Proof.
  unfold note_entry.
  destruct (negb (enableNotes cfg)); [ discriminate | ].
  destruct (negb (String.eqb method "POST")); [ discriminate | ].
  set (payload := match JSON_parse _ with Some p => p | None => VObj [] end).
  intros H. exists payload.
  destruct payload; try discriminate;
    match type of H with
    | (if ?c then _ else _) = _ => destruct c; [ discriminate | ]
    end;
    match type of H with
    | (let '(_, _) := ?r in _) = _ => destruct r
    end;
    injection H as <- _; split; reflexivity.
Qed.

End PipelineFacts.

(** * The concrete printer

    Every record printed by [printEntry] is one line: not empty, and with
    every line break inside a string escaped. *)

Lemma noBreak_app (a b : string) : noBreak (a ++ b) = noBreak a && noBreak b.
Proof.
  unfold noBreak. induction a as [ | c a IH ]; [ reflexivity | ].
  change (String c a ++ b) with (String c (a ++ b)). cbn [allChars].
  rewrite IH. now rewrite andb_assoc.
Qed.

Lemma noBreak_escapeChar (c : ascii) : noBreak (escapeChar c) = true.
Proof. destruct c as [ [] [] [] [] [] [] [] [] ]; reflexivity. Qed.

Lemma noBreak_escapeChars (s : string) : noBreak (escapeChars s) = true.
Proof.
  induction s as [ | c s IH ]; [ reflexivity | ].
  cbn [escapeChars]. now rewrite noBreak_app, noBreak_escapeChar, IH.
Qed.

Lemma noBreak_quote (s : string) : noBreak (quote s) = true.
Proof.
  unfold quote. change (String DQ ?x) with (String DQ "" ++ x).
  now rewrite !noBreak_app, noBreak_escapeChars.
Qed.

Lemma noBreak_string_of_uint (d : Decimal.uint) : noBreak (NilEmpty.string_of_uint d) = true.
Proof. induction d; cbn; auto. Qed.

Lemma noBreak_Z_toString (z : Z) : noBreak (Z_toString z) = true.
Proof.
  unfold Z_toString, ofNat. destruct (z <? 0).
  - now rewrite noBreak_app, noBreak_string_of_uint.
  - apply noBreak_string_of_uint.
Qed.

Lemma noBreak_joinWith (sep : string) (l : list string) :
  noBreak sep = true -> Forall (fun x => noBreak x = true) l ->
  noBreak (joinWith sep l) = true.
Proof.
  intros Hsep H. induction H as [ | x l Hx Hl IH ]; [ reflexivity | ].
  destruct l as [ | y l ]; [ exact Hx | ].
  change (joinWith sep (x :: y :: l)) with (x ++ sep ++ joinWith sep (y :: l)).
  now rewrite !noBreak_app, Hx, Hsep, IH.
Qed.

Lemma noBreak_printValue (v : value Z) (t : string) :
  printValue v = Some t -> noBreak t = true.
Proof.
  revert t. induction v as [ | | b | n | s | xs IH | fs IH | r ] using value_induction;
    intros t H; simpl in H; try discriminate.
  - injection H as <-. reflexivity.
  - destruct b; injection H as <-; reflexivity.
  - injection H as <-. apply noBreak_Z_toString.
  - injection H as <-. apply noBreak_quote.
  - injection H as <-. rewrite !noBreak_app. rewrite noBreak_joinWith; [ reflexivity | reflexivity | ].
    induction IH as [ | x xs Hx _ IHxs ]; constructor; [ | exact IHxs ].
    destruct (printValue x) as [ t | ]; [ now apply Hx | reflexivity ].
  - injection H as <-. rewrite !noBreak_app. rewrite noBreak_joinWith; [ reflexivity | reflexivity | ].
    induction IH as [ | [k x] fs Hx _ IHfs ]; [ constructor | ].
    simpl in Hx. destruct (printValue x) as [ t | ]; [ | exact IHfs ].
    constructor; [ | exact IHfs ].
    now rewrite !noBreak_app, noBreak_quote, (Hx t eq_refl).
Qed.

Lemma lineOk_printEntry (e : entry Z) : lineOk (printEntry e) = true.
Proof.
  unfold printEntry.
  destruct (printValue (entryValue e)) as [ t | ] eqn:H; [ | discriminate ].
  pose proof (@noBreak_printValue _ _ H) as Ht.
  unfold lineOk. fold (noBreak t). rewrite Ht, andb_true_r.
  simpl in H. injection H as <-. reflexivity.
Qed.

(** * Strings and property lists *)

Lemma skip_append (a b : string) : skip (String.length a) (a ++ b) = b.
Proof.
  induction a as [ | c a IH ]; [ reflexivity | ].
  change (String c a ++ b) with (String c (a ++ b)). exact IH.
Qed.

Lemma length_append (a b : string) :
  String.length (a ++ b) = (String.length a + String.length b)%nat.
Proof.
  induction a as [ | c a IH ]; [ reflexivity | ].
  change (String c a ++ b) with (String c (a ++ b)). simpl. now rewrite IH.
Qed.

Lemma length_mapChars (f : ascii -> ascii) (s : string) :
  String.length (mapChars f s) = String.length s.
Proof. induction s as [ | c s IH ]; simpl; [ reflexivity | now rewrite IH ]. Qed.

Lemma take_append (a b : string) : take (String.length a) (a ++ b) = a.
Proof.
  unfold take. induction a as [ | c a IH ].
  - destruct b; reflexivity.
  - change (String c a ++ b) with (String c (a ++ b)). simpl. now rewrite IH.
Qed.

Lemma dropWhile_append (p : ascii -> bool) (ws : string) (c : ascii) (r : string) :
  allChars p ws = true -> p c = false ->
  dropWhile p (ws ++ String c r) = String c r.
Proof.
  intros Hws Hc. induction ws as [ | w ws IH ].
  - simpl. now rewrite Hc.
  - simpl in Hws. apply andb_prop in Hws as [Hw Hws].
    change (String w ws ++ String c r) with (String w (ws ++ String c r)).
    simpl. rewrite Hw. now apply IH.
Qed.

Lemma prefix_app_long (s u v : string) :
  (String.length s <= String.length u)%nat -> String.prefix s (u ++ v) = String.prefix s u.
Proof.
  revert u. induction s as [ | c s IH ]; intros u Hlen;
    [ destruct u, v; reflexivity | ].
  destruct u as [ | d u ]; [ simpl in Hlen; lia | ].
  change (String d u ++ v) with (String d (u ++ v)). simpl.
  destruct (Ascii.ascii_dec c d); [ | reflexivity ].
  apply IH. simpl in Hlen. lia.
Qed.

Lemma split_without_separator (sep s : string) :
  includes sep s = false -> split_go sep 0 s = [ s ].
Proof.
  induction s as [ | c s IH ]; intros H; [ reflexivity | ].
  cbn [includes] in H. apply orb_false_iff in H as [Hp Hi].
  cbn [split_go]. rewrite Hp, (IH Hi). reflexivity.
Qed.

Lemma prefix_cron (b : string) : String.prefix ":cron:" (":cron:" ++ b) = true.
Proof. destruct b; reflexivity. Qed.

Lemma split_at_first_cron (a b : string) :
  includes ":cron:" (a ++ ":cron") = false ->
  split_go ":cron:" 0 (a ++ ":cron:" ++ b) = a :: split_go ":cron:" 0 b.
Proof.
  induction a as [ | c a IH ]; intros H.
  { change ("" ++ ":cron:" ++ b) with (String ":" ("cron:" ++ b)).
    cbn [split_go]. change (String ":" ("cron:" ++ b)) with (":cron:" ++ b).
    rewrite prefix_cron. reflexivity. }
  change (String c a ++ ":cron") with (String c (a ++ ":cron")) in H.
  cbn [includes] in H. apply orb_false_iff in H as [Hp Hi].
  change (String c a ++ ":cron:" ++ b) with (String c (a ++ ":cron:" ++ b)).
  cbn [split_go].
  assert (String.prefix ":cron:" (String c (a ++ ":cron:" ++ b)) = false) as ->.
  { change (String c (a ++ ":cron:" ++ b)) with (String c a ++ ":cron" ++ (":" ++ b)).
    rewrite <- append_assoc. rewrite prefix_app_long; [ exact Hp | ].
    rewrite length_append. simpl. lia. }
  now rewrite (IH Hi).
Qed.

Lemma includes_cron (a b : string) : includes ":cron:" (a ++ ":cron:" ++ b) = true.
Proof.
  induction a as [ | c a IH ].
  { change ("" ++ ":cron:" ++ b) with (String ":" ("cron:" ++ b)).
    cbn [includes]. change (String ":" ("cron:" ++ b)) with (":cron:" ++ b).
    now rewrite prefix_cron. }
  change (String c a ++ ":cron:" ++ b) with (String c (a ++ ":cron:" ++ b)).
  cbn [includes]. rewrite IH. apply orb_true_r.
Qed.

Lemma rev_string_app (s acc : string) : rev_string s acc = rev_string s "" ++ acc.
Proof.
  revert acc. induction s as [ | c s IH ]; intros acc; [ reflexivity | ].
  simpl. rewrite (IH (String c acc)), (IH (String c "")).
  now rewrite append_assoc.
Qed.

Lemma rev_string_snoc (s : string) (c : ascii) :
  rev_string (s ++ String c "") "" = String c (rev_string s "").
Proof.
  induction s as [ | d s IH ]; [ reflexivity | ].
  change (String d s ++ String c "") with (String d (s ++ String c "")).
  simpl. rewrite (rev_string_app (s ++ String c "") (String d "")), IH,
    (rev_string_app s (String d "")). reflexivity.
Qed.

Lemma rev_string_involutive (s : string) : rev_string (rev_string s "") "" = s.
Proof.
  induction s as [ | c s IH ]; [ reflexivity | ].
  simpl. rewrite (rev_string_app s (String c "")), rev_string_snoc, IH. reflexivity.
Qed.

Lemma dropWhile_idempotent (p : ascii -> bool) (s : string) :
  dropWhile p (dropWhile p s) = dropWhile p s.
Proof.
  induction s as [ | c s IH ]; [ reflexivity | ].
  simpl. destruct (p c) eqn:E; [ exact IH | ]. simpl. now rewrite E.
Qed.

Lemma dropWhile_head (p : ascii -> bool) (s : string) :
  match dropWhile p s with
  | EmptyString => True
  | String c _ => p c = false
  end.
Proof.
  induction s as [ | c s IH ]; [ exact I | ].
  simpl. destruct (p c) eqn:E; [ exact IH | exact E ].
Qed.

Lemma dropWhile_keeps_last (p : ascii -> bool) (s : string) (c : ascii) :
  p c = false -> exists y, dropWhile p (s ++ String c "") = y ++ String c "".
Proof.
  intros Hc. induction s as [ | d s [y IH] ].
  - exists "". simpl. now rewrite Hc.
  - change (String d s ++ String c "") with (String d (s ++ String c "")). simpl.
    destruct (p d); [ now exists y | ]. now exists (String d s).
Qed.

Lemma trim_isTrimmed (s : string) : isTrimmed (trim s).
Proof.
  unfold isTrimmed, trim.
  set (a := dropWhile isWhiteSpace s).
  rewrite rev_string_involutive, dropWhile_idempotent. split; [ | reflexivity ].
  pose proof (dropWhile_head isWhiteSpace s) as Ha. fold a in Ha.
  destruct a as [ | c a ]; [ reflexivity | ].
  assert (exists y, dropWhile isWhiteSpace (rev_string (String c a) "") = y ++ String c "")
    as [y ->].
  { simpl. rewrite (rev_string_app a (String c "")). now apply dropWhile_keeps_last. }
  rewrite rev_string_snoc. cbn [dropWhile]. now rewrite Ha.
Qed.

Lemma trim_of_trimmed (s : string) : isTrimmed s -> trim s = s.
Proof.
  intros [H1 H2]. unfold trim. rewrite H1, H2. apply rev_string_involutive.
Qed.

Section PropertyLists.

Variable number : Type.

Lemma assoc_obj_set_eq (out : list (string * value number)) (k : string) (v : value number) :
  assoc k (obj_set out k v) = Some v.
Proof.
  induction out as [ | [k' v'] out IH ]; simpl.
  - now rewrite String.eqb_refl.
  - destruct (String.eqb k k') eqn:E; simpl; rewrite E; [ reflexivity | exact IH ].
Qed.

Lemma assoc_obj_set_ne (out : list (string * value number)) (k k' : string)
  (v : value number) :
  k <> k' -> assoc k (obj_set out k' v) = assoc k out.
Proof.
  intros Hne. apply String.eqb_neq in Hne as E.
  induction out as [ | [k0 v0] out IH ]; simpl.
  - now rewrite E.
  - destruct (String.eqb_spec k' k0) as [ <- | Hk0 ]; simpl.
    + now rewrite E.
    + destruct (String.eqb k k0); [ reflexivity | exact IH ].
Qed.

Lemma assoc_None_notin (k : string) (fs : list (string * value number)) :
  ~ In k (map fst fs) -> assoc k fs = None.
Proof.
  induction fs as [ | [k' v] fs IH ]; simpl; [ reflexivity | ].
  intros H. destruct (String.eqb_spec k k') as [ -> | _ ]; [ tauto | ].
  apply IH. tauto.
Qed.

End PropertyLists.

(** * More on the sanitizer *)

Section SanitizerShape.

Variable number : Type.
Variable maxString : Z.
Variable dropKeysRe : string -> bool.

#[local] Abbreviation sani := (@sanitizeAny number maxString dropKeysRe).
#[local] Abbreviation saniEntries := (@sanitizeEntries number maxString dropKeysRe).

(** X1. A string shaped like an API key, [sk-] followed by at least ten
    characters among letters, digits, [_] and [-], never comes back from
    the sanitizer: it is replaced by [<redacted:sk>], or by the length
    marker when it is longer than [maxString]. *)
Theorem sanitize_masks_api_keys (body : string) :
  allChars skChar body = true -> (10 <= String.length body)%nat ->
  sani (VStr ("sk-" ++ body))
  = VStr (if maxString <? Z.of_nat (3 + String.length body)
          then "<redacted:" ++ ofNat (3 + String.length body) ++ ">"
          else "<redacted:sk>").
Proof.
  intros Hchars Hlen. set (n := (3 + String.length body)%nat).
  cbn [sanitizeAny]. unfold sanitizeString, redactedLength.
  change (String.length ("sk-" ++ body)) with n.
  destruct (maxString <? Z.of_nat n); [ reflexivity | ].
  unfold isSkToken. change (skip 3 ("sk-" ++ body)) with body.
  change (String.prefix "sk-" ("sk-" ++ body)) with (String.prefix "" body).
  rewrite Hchars. apply Nat.leb_le in Hlen. rewrite Hlen.
  destruct body; reflexivity.
Qed.

(** X2. A string shaped like a bearer credential, the word [Bearer] in
    any letter case, white space, then a token, never comes back from the
    sanitizer: it is replaced by [<redacted:bearer>], or by the length
    marker when it is longer than [maxString]. *)
Theorem sanitize_masks_bearer_credentials (scheme ws tok : string) (c : ascii) :
  mapChars foldAscii scheme = "bearer" ->
  ws <> "" -> allChars isWhiteSpace ws = true -> isWhiteSpace c = false ->
  let s := scheme ++ ws ++ String c tok in
  sani (VStr s)
  = VStr (if maxString <? Z.of_nat (String.length s)
          then "<redacted:" ++ ofNat (String.length s) ++ ">"
          else "<redacted:bearer>").
Proof.
  intros Hscheme Hne Hws Hc s.
  assert (String.length scheme = 6%nat) as Hlen.
  { rewrite <- (length_mapChars foldAscii), Hscheme. reflexivity. }
  cbn [sanitizeAny]. unfold sanitizeString, redactedLength.
  destruct (maxString <? Z.of_nat (String.length s)); [ reflexivity | ].
  assert (isSkToken s = false) as ->.
  { unfold isSkToken, s. destruct scheme as [ | c1 scheme ]; [ discriminate | ].
    change (String c1 scheme ++ ws ++ String c tok)
      with (String c1 (scheme ++ ws ++ String c tok)).
    cbn [String.prefix]. destruct (Ascii.ascii_dec "s" c1) as [ <- | ];
      [ discriminate Hscheme | reflexivity ]. }
  unfold isBearer, s. rewrite <- Hlen at 1. rewrite take_append, Hscheme.
  rewrite <- Hlen, skip_append.
  rewrite dropWhile_append by assumption.
  destruct ws as [ | w ws ]; [ congruence | ].
  simpl in Hws. apply andb_prop in Hws as [Hw _].
  change (String w ws ++ String c tok) with (String w (ws ++ String c tok)).
  cbv beta iota. rewrite Hw. reflexivity.
Qed.

Lemma sanitizeString_leaf (s : string) :
  Z.of_nat (String.length (sanitizeString maxString s)) <= maxString
  \/ isMarker (sanitizeString maxString s).
Proof.
  unfold sanitizeString, redactedLength.
  destruct (Z.ltb_spec maxString (Z.of_nat (String.length s))).
  - right. right. right. now exists (String.length s).
  - destruct (isSkToken s); [ right; now left | ].
    destruct (isBearer s); [ right; right; now left | now left ].
Qed.

Lemma leaves_obj_set (out : list (string * value number)) (k : string) (v : value number) :
  Forall (leafOk maxString) (stringLeaves (VObj out)) -> Forall (leafOk maxString) (stringLeaves v) ->
  Forall (leafOk maxString) (stringLeaves (VObj (obj_set out k v))).
Proof.
  intros Hout Hv. induction out as [ | [k' v'] out IH ]; simpl in *.
  - now rewrite app_nil_r.
  - apply Forall_app in Hout as [H1 H2].
    destruct (String.eqb k k'); simpl; apply Forall_app; auto.
Qed.

Lemma leaves_sanitizeEntries (fs : list (string * value number)) :
  Forall (fun kv => Forall (leafOk maxString) (stringLeaves (sani (snd kv)))) fs ->
  forall out, Forall (leafOk maxString) (stringLeaves (VObj out)) ->
  Forall (leafOk maxString) (stringLeaves (VObj (saniEntries fs out))).
Proof.
  induction 1 as [ | [k v] fs Hv _ IH ]; intros out Hout; simpl; [ exact Hout | ].
  destruct (isSensitiveKey dropKeysRe k); [ now apply IH | ].
  apply IH. now apply leaves_obj_set.
Qed.

Lemma leaves_sanitizeAny (v : value number) :
  jsonLike v = true -> Forall (leafOk maxString) (stringLeaves (sani v)).
Proof.
  induction v as [ | | b | n | s | xs IH | fs IH | r ] using value_induction; intros Hj.
  - constructor.
  - constructor.
  - constructor.
  - constructor.
  - simpl. constructor; [ apply sanitizeString_leaf | constructor ].
  - simpl in *. induction IH as [ | x xs Hx _ IHxs ]; simpl in *; [ constructor | ].
    apply andb_prop in Hj as [Hjx Hjxs]. apply Forall_app. auto.
  - rewrite sanitizeAny_obj. apply leaves_sanitizeEntries; [ | constructor ].
    simpl in Hj. induction IH as [ | [k x] fs Hx _ IHfs ]; simpl in *; [ constructor | ].
    apply andb_prop in Hj as [Hjx Hjfs]. constructor; auto.
  - discriminate.
Qed.

(** X3. On data without functions, symbols or bigints, every string left
    in the sanitized value is at most [maxString] long or is one of the
    redaction markers. *)
Theorem sanitized_strings_are_short_or_markers (v : value number) :
  jsonLike v = true ->
  Forall (fun t => Z.of_nat (String.length t) <= maxString \/ isMarker t)
    (stringLeaves (sani v)).
Proof.
  intros Hj. pose proof (leaves_sanitizeAny v Hj) as H.
  apply List.Forall_forall. intros t Ht.
  rewrite List.Forall_forall in H. exact (H t Ht).
Qed.

Lemma assoc_sanitizeEntries (k : string) (fs : list (string * value number)) :
  dropKeysRe k = false -> distinctKeys fs ->
  forall out,
    assoc k (saniEntries fs out)
    = match assoc k fs with
      | Some v => Some (sani v)
      | None => assoc k out
      end.
Proof.
  intros Hk Hnd. unfold distinctKeys in Hnd.
  induction fs as [ | [k' v] fs IH ]; intros out; simpl; [ reflexivity | ].
  simpl in Hnd. apply List.NoDup_cons_iff in Hnd as [Hnotin Hnd]. specialize (IH Hnd).
  unfold isSensitiveKey. destruct (String.eqb_spec k k') as [ <- | Hne ].
  - rewrite Hk, IH, assoc_None_notin by assumption. apply assoc_obj_set_eq.
  - destruct (dropKeysRe k'); rewrite IH; [ reflexivity | ].
    destruct (assoc k fs); [ reflexivity | now apply assoc_obj_set_ne ].
Qed.


End SanitizerShape.

(** * The parameter extractors *)

Section ExtractorFacts.

Variable number : Type.
Variable number_toString : number -> string.
Variable number_truthy : number -> bool.

Lemma existsb_eqb_In (x : string) (seen : list string) :
  existsb (String.eqb x) seen = true <-> In x seen.
Proof.
  rewrite existsb_exists. split.
  - intros [y [Hin Heq]]. apply String.eqb_eq in Heq. now subst.
  - intros Hin. exists x. split; [ exact Hin | apply String.eqb_refl ].
Qed.

Lemma uniq_spec (l : list string) :
  forall seen,
    List.NoDup (uniq seen l)
    /\ forall x, In x (uniq seen l) -> In x l /\ ~ In x seen.
Proof.
  induction l as [ | y l IH ]; intros seen; simpl.
  - split; [ constructor | intros x [] ].
  - destruct (existsb (String.eqb y) seen) eqn:E.
    + destruct (IH seen) as [Hnd Hin]. split; [ exact Hnd | ].
      intros x Hx. destruct (Hin x Hx). tauto.
    + destruct (IH (y :: seen)) as [Hnd Hin]. split.
      * constructor; [ | exact Hnd ]. intros Hy. destruct (Hin y Hy) as [_ Hn].
        apply Hn. now left.
      * intros x [ <- | Hx ].
        -- split; [ now left | ]. intros Hs. apply existsb_eqb_In in Hs. congruence.
        -- destruct (Hin x Hx) as [H1 H2]. split; [ now right | ].
           intros Hs. apply H2. now right.
Qed.

Lemma firstn_NoDup (n : nat) (l : list string) :
  List.NoDup l -> List.NoDup (firstn n l).
Proof.
  intros H. revert n. induction H as [ | x l Hx _ IH ]; intros [ | n ]; simpl;
    try constructor.
  - intros Hin. apply Hx. revert Hin. clear. revert n.
    induction l as [ | y l IHl ]; intros [ | n ]; simpl; try tauto.
    intros [ | H ]; [ now left | right; eauto ].
  - apply IH.
Qed.

Lemma firstn_incl (n : nat) (l : list string) (x : string) :
  In x (firstn n l) -> In x l.
Proof.
  revert n. induction l as [ | y l IH ]; intros [ | n ]; simpl; try tauto.
  intros [ | H ]; [ now left | right; eauto ].
Qed.

Lemma In_indexed (xs : list (value number)) (x : value number) (i : nat) :
  In x xs -> exists j, In (ofNat j, x) (indexed i xs).
Proof.
  revert i. induction xs as [ | y xs IH ]; intros i; simpl; [ tauto | ].
  intros [ -> | H ].
  - exists i. now left.
  - destruct (IH (S i) H) as [j Hj]. exists j. now right.
Qed.

#[local] Abbreviation pathIn := (@storedUnder number isPathKey).
#[local] Abbreviation urlIn := (@storedUnder number isUrlKey).

Lemma storedUnder_element (keyOk : string -> bool) (p : string)
  (xs : list (value number)) (x : value number) :
  In x xs -> storedUnder keyOk p x -> storedUnder keyOk p (VArr xs).
Proof.
  intros Hin Hp. destruct (@In_indexed xs x 0 Hin) as [j Hj].
  eapply su_below; [ reflexivity | exact Hj | exact Hp ].
Qed.

Lemma visitPaths_sound (k : string) (v : value number) (p : string) :
  (forall q, In q (walkPaths v) -> pathIn q v) ->
  match v with
  | VArr xs => forall x, In x xs -> forall q, In q (walkPaths x) -> pathIn q x
  | _ => True
  end ->
  In p (visitPaths (@walkPaths number) k v) ->
  (v = VStr p /\ isPathKey k = true) \/ pathIn p v.
Proof.
  intros Hv Helems Hin. destruct v as [ | | b | n | s | xs | fs | r ];
    simpl in Hin; try contradiction.
  - destruct (isPathKey k) eqn:Hk; [ | contradiction ].
    destruct Hin as [ <- | [] ]. now left.
  - right. apply in_flat_map in Hin as [x [Hx Hq]].
    eapply storedUnder_element; [ exact Hx | now apply Helems ].
  - right. now apply Hv.
Qed.

Lemma walkPaths_sound (v : value number) :
  (forall p, In p (walkPaths v) -> pathIn p v)
  /\ match v with
     | VArr xs => forall x, In x xs -> forall q, In q (walkPaths x) -> pathIn q x
     | _ => True
     end.
Proof.
  induction v as [ | | b | n | s | xs IH | fs IH | r ] using value_induction;
    try (split; [ intros p [] | exact I ]).
  - assert (forall x, In x xs -> forall q, In q (walkPaths x) -> pathIn q x) as Hel.
    { intros x Hx. rewrite List.Forall_forall in IH. now apply IH. }
    split; [ | exact Hel ].
    intros p Hp. simpl in Hp.
    assert (forall i ys, (forall y, In y ys -> In y xs) ->
              In p ((fix each (i : nat) (xs : list (value number)) : list string :=
                       match xs with
                       | [] => []
                       | v :: r => (visitPaths (@walkPaths number) (ofNat i) v ++ each (S i) r)%list
                       end) i ys) ->
              exists j y, In (ofNat j, y) (indexed i ys) /\ In y xs
                          /\ In p (visitPaths (@walkPaths number) (ofNat j) y)) as Hloop.
    { intros i ys. revert i. induction ys as [ | y ys IHys ]; intros i Hsub Hin;
        [ contradiction | ].
      apply in_app_or in Hin as [ Hin | Hin ].
      - exists i, y. repeat split; [ now left | apply Hsub; now left | exact Hin ].
      - destruct (IHys (S i)) as (j & z & H1 & H2 & H3);
          [ intros z Hz; apply Hsub; now right | exact Hin | ].
        exists j, z. repeat split; [ now right | exact H2 | exact H3 ]. }
    destruct (Hloop 0%nat xs (fun y H => H) Hp) as (j & y & Hidx & Hy & Hvis).
    rewrite List.Forall_forall in IH.
    destruct (@visitPaths_sound (ofNat j) y p (proj1 (IH y Hy)) (proj2 (IH y Hy)) Hvis)
      as [ [-> Hk] | Hbelow ].
    + eapply su_here; [ reflexivity | exact Hidx | exact Hk ].
    + eapply su_below; [ reflexivity | exact Hidx | exact Hbelow ].
  - split; [ | exact I ]. intros p Hp. simpl in Hp.
    assert (forall gs, (forall kv, In kv gs -> In kv fs) ->
              In p ((fix each (fs : list (string * value number)) : list string :=
                       match fs with
                       | [] => []
                       | (k, v) :: r => (visitPaths (@walkPaths number) k v ++ each r)%list
                       end) gs) ->
              exists k v, In (k, v) fs
                          /\ In p (visitPaths (@walkPaths number) k v)) as Hloop.
    { induction gs as [ | [k v] gs IHgs ]; intros Hsub Hin; [ contradiction | ].
      apply in_app_or in Hin as [ Hin | Hin ].
      - exists k, v. split; [ apply Hsub; now left | exact Hin ].
      - apply IHgs; [ intros kv Hkv; apply Hsub; now right | exact Hin ]. }
    destruct (Hloop fs (fun kv H => H) Hp) as (k & v & Hkv & Hvis).
    rewrite List.Forall_forall in IH. specialize (IH (k, v) Hkv). simpl in IH.
    destruct (@visitPaths_sound k v p (proj1 IH) (proj2 IH) Hvis) as [ [-> Hk] | Hbelow ].
    + eapply su_here; [ reflexivity | exact Hkv | exact Hk ].
    + eapply su_below; [ reflexivity | exact Hkv | exact Hbelow ].
Qed.

(** X5. [pickPaths] returns at most six paths, without repetition, and
    each of them is a string stored under one of the five path property
    names, in the arguments or in an object or array nested in them. *)
Theorem pickPaths_bounded_distinct_sound (args : value number) :
  (length (pickPaths args) <= 6)%nat
  /\ List.NoDup (pickPaths args)
  /\ forall p, In p (pickPaths args) -> storedUnder isPathKey p args.
Proof.
  unfold pickPaths. destruct (uniq_spec (walkPaths args) []) as [Hnd Hin].
  repeat apply conj.
  - rewrite length_firstn. lia.
  - now apply firstn_NoDup.
  - intros p Hp. apply firstn_incl in Hp. apply Hin in Hp as [Hp _].
    now apply walkPaths_sound.
Qed.

Lemma visitUrl_sound (k : string) (v : value number) (p : string) :
  (forall q, In q (walkUrl v) -> urlIn q v) ->
  In p (visitUrl (@walkUrl number) k v) ->
  (v = VStr p /\ isUrlKey k = true) \/ urlIn p v.
Proof.
  intros Hv Hin. destruct v as [ | | b | n | s | xs | fs | r ];
    simpl in Hin; try contradiction.
  - destruct (isUrlKey k) eqn:Hk; [ | contradiction ].
    destruct Hin as [ <- | [] ]. now left.
  - right. now apply Hv.
  - right. now apply Hv.
Qed.

Lemma walkUrl_sound (v : value number) (p : string) :
  In p (walkUrl v) -> urlIn p v.
Proof.
  revert p.
  induction v as [ | | b | n | s | xs IH | fs IH | r ] using value_induction;
    intros p Hp; try contradiction.
  - simpl in Hp.
    assert (forall i ys, (forall y, In y ys -> In y xs) ->
              In p ((fix each (i : nat) (xs : list (value number)) : list string :=
                       match xs with
                       | [] => []
                       | v :: r => (visitUrl (@walkUrl number) (ofNat i) v ++ each (S i) r)%list
                       end) i ys) ->
              exists j y, In (ofNat j, y) (indexed i ys) /\ In y xs
                          /\ In p (visitUrl (@walkUrl number) (ofNat j) y)) as Hloop.
    { intros i ys. revert i. induction ys as [ | y ys IHys ]; intros i Hsub Hin;
        [ contradiction | ].
      apply in_app_or in Hin as [ Hin | Hin ].
      - exists i, y. repeat split; [ now left | apply Hsub; now left | exact Hin ].
      - destruct (IHys (S i)) as (j & z & H1 & H2 & H3);
          [ intros z Hz; apply Hsub; now right | exact Hin | ].
        exists j, z. repeat split; [ now right | exact H2 | exact H3 ]. }
    destruct (Hloop 0%nat xs (fun y H => H) Hp) as (j & y & Hidx & Hy & Hvis).
    rewrite List.Forall_forall in IH.
    destruct (@visitUrl_sound (ofNat j) y p (IH y Hy) Hvis) as [ [-> Hk] | Hbelow ].
    + eapply su_here; [ reflexivity | exact Hidx | exact Hk ].
    + eapply su_below; [ reflexivity | exact Hidx | exact Hbelow ].
  - simpl in Hp.
    assert (forall gs, (forall kv, In kv gs -> In kv fs) ->
              In p ((fix each (fs : list (string * value number)) : list string :=
                       match fs with
                       | [] => []
                       | (k, v) :: r => (visitUrl (@walkUrl number) k v ++ each r)%list
                       end) gs) ->
              exists k v, In (k, v) fs
                          /\ In p (visitUrl (@walkUrl number) k v)) as Hloop.
    { induction gs as [ | [k v] gs IHgs ]; intros Hsub Hin; [ contradiction | ].
      apply in_app_or in Hin as [ Hin | Hin ].
      - exists k, v. split; [ apply Hsub; now left | exact Hin ].
      - apply IHgs; [ intros kv Hkv; apply Hsub; now right | exact Hin ]. }
    destruct (Hloop fs (fun kv H => H) Hp) as (k & v & Hkv & Hvis).
    rewrite List.Forall_forall in IH. specialize (IH (k, v) Hkv). simpl in IH.
    destruct (@visitUrl_sound k v p IH Hvis) as [ [-> Hk] | Hbelow ].
    + eapply su_here; [ reflexivity | exact Hkv | exact Hk ].
    + eapply su_below; [ reflexivity | exact Hkv | exact Hbelow ].
Qed.

(** X6. [pickUrl] returns undefined or a string that is not empty and is
    stored under a property whose name contains [url] (in any letter
    case); on arguments that are neither an object nor an array it returns
    undefined. *)
Theorem pickUrl_undefined_or_stored_url (args : value number) :
  (pickUrl args = VUndefined
   \/ exists s, pickUrl args = VStr s /\ s <> "" /\ storedUnder isUrlKey s args)
  /\ (isContainer args = false -> pickUrl args = VUndefined).
Proof.
  split.
  - unfold pickUrl.
    destruct (List.find _ (walkUrl args)) as [ s | ] eqn:Hfind; [ right | now left ].
    apply List.find_some in Hfind as [Hin Hne]. exists s. repeat apply conj.
    + reflexivity.
    + apply negb_true_iff in Hne. now apply String.eqb_neq.
    + now apply walkUrl_sound.
  - destruct args; try discriminate; reflexivity.
Qed.

Lemma length_take (n : nat) (s : string) :
  String.length (take n s) = Nat.min n (String.length s).
Proof.
  unfold take. revert s. induction n as [ | n IH ]; intros [ | c s ]; simpl;
    try reflexivity.
  now rewrite IH.
Qed.

(** X7. The summary of an [exec] call is always a string of at most 160
    characters: the command as a string when it is that short, otherwise
    its first 157 characters followed by three dots.  A missing or falsy
    command gives the empty summary. *)
Theorem exec_summary_is_bounded (params : value number) :
  let command := get_prop params "command" in
  let cmd := if truthy number_truthy command
             then ToString number_toString command else "" in
  exists s,
    summarize number_toString number_truthy "exec" params = VStr s
    /\ (String.length s <= 160)%nat
    /\ ((String.length cmd <= 160)%nat -> s = cmd)
    /\ ((160 < String.length cmd)%nat -> s = take 157 cmd ++ "...").
Proof.
  intros command cmd. unfold summarize. cbn [String.eqb Ascii.eqb Bool.eqb].
  fold command. fold cmd.
  destruct (Nat.ltb_spec 160 (String.length cmd)) as [ Hlong | Hshort ].
  - exists (take 157 cmd ++ "..."). repeat apply conj.
    + reflexivity.
    + rewrite length_append, length_take. change (String.length "...") with 3%nat. lia.
    + intros. exfalso. lia.
    + reflexivity.
  - exists cmd. repeat apply conj;
      [ reflexivity | exact Hshort | reflexivity | intros; exfalso; lia ].
Qed.

End ExtractorFacts.

(** * More on the ledger file *)

Section LedgerReading.

Lemma splitNewlines_noLF_upto (n : nat) (s : string) :
  (String.length s <= n)%nat -> Forall (fun l => noLF l = true) (splitNewlines s).
Proof.
  revert s. induction n as [ | n IH ]; intros s Hlen.
  - destruct s; [ repeat constructor | simpl in Hlen; lia ].
  - destruct s as [ | c r ]; [ repeat constructor | ].
    simpl in Hlen. cbn [splitNewlines].
    destruct (Ascii.eqb c LF) eqn:Hc.
    + constructor; [ reflexivity | apply IH; lia ].
    + destruct r as [ | c2 r2 ].
      * repeat constructor. unfold noLF. simpl. now rewrite Hc.
      * destruct (Ascii.eqb c CR && Ascii.eqb c2 LF).
        -- constructor; [ reflexivity | apply IH; simpl in Hlen; lia ].
        -- pose proof (IH (String c2 r2) ltac:(lia)) as Hr.
           destruct (splitNewlines (String c2 r2)) as [ | h t ].
           ++ repeat constructor. unfold noLF. simpl. now rewrite Hc.
           ++ apply List.Forall_cons_iff in Hr as [Hh Ht].
              constructor; [ | exact Ht ].
              unfold noLF in *. simpl. now rewrite Hc, Hh.
Qed.

Lemma parseLines_clean (txt : string) :
  Forall (fun l => l <> "" /\ noLF l = true) (parseLines txt).
Proof.
  unfold parseLines.
  pose proof (splitNewlines_noLF_upto (n := String.length txt) txt (le_n _)) as H.
  induction H as [ | l ls Hl _ IH ]; simpl; [ constructor | ].
  destruct (String.eqb_spec l ""); simpl; [ exact IH | ].
  constructor; [ split; assumption | exact IH ].
Qed.

Lemma slice_from_suffix (start : jsnum) (l : list string) :
  exists k, slice_from start l = skipn k l.
Proof.
  destruct start as [ | z ]; simpl.
  - now exists 0%nat.
  - destruct (z <? 0); eexists; reflexivity.
Qed.

Lemma length_tailLines_le (txt : option string) (m : Z) :
  0 <= m -> (length (tailLines txt (Some (Int m))) <= Z.to_nat m)%nat.
Proof.
  intros Hm. unfold tailLines. destruct txt as [ txt | ]; [ | simpl; lia ].
  now apply length_slice_from_le.
Qed.

(** X8. Whatever the file holds and whatever limit is asked for,
    [tailLines] returns a final segment of the file's non-empty lines:
    none of the lines returned is empty or holds a line feed, an
    unreadable file gives no line, and a limit [m >= 0] is never
    exceeded (200 when no limit is given). *)
Theorem tailLines_returns_a_clean_suffix (txt : option string) (maxLines : option jsnum) :
  Forall (fun l => l <> "" /\ noLF l = true) (tailLines txt maxLines)
  /\ (exists skipped,
        match txt with Some t => parseLines t | None => [] end
        = (skipped ++ tailLines txt maxLines)%list)
  /\ (forall m, maxLines = Some (Int m) -> 0 <= m ->
        (length (tailLines txt maxLines) <= Z.to_nat m)%nat)
  /\ (maxLines = None -> (length (tailLines txt maxLines) <= 200)%nat).
Proof.
  unfold tailLines. destruct txt as [ txt | ].
  2:{ repeat apply conj; [ constructor | now exists [] | simpl; lia | simpl; lia ]. }
  set (m := match maxLines with Some m => m | None => Int 200 end).
  destruct (slice_from_suffix
              (Math_max (Int 0) (jsnum_sub (Int (Z.of_nat (length (parseLines txt)))) m))
              (parseLines txt)) as [k Hk].
  repeat apply conj.
  - rewrite Hk. pose proof (parseLines_clean txt) as H.
    rewrite <- (firstn_skipn k (parseLines txt)) in H.
    now apply Forall_app in H as [_ H].
  - exists (firstn k (parseLines txt)). rewrite Hk. symmetry. apply firstn_skipn.
  - intros z -> Hz. subst m. simpl. now apply length_slice_from_le.
  - intros ->. subst m. simpl.
    apply (length_slice_from_le (z := 200)). lia.
Qed.

Lemma splitNewlines_crlf_line (l rest : string) :
  noBreak l = true ->
  splitNewlines (l ++ String CR (String LF rest)) = l :: splitNewlines rest.
Proof.
  unfold noBreak. induction l as [ | c l IH ]; intros Hl.
  - reflexivity.
  - simpl in Hl. apply andb_prop in Hl as [Hc Hl]. apply andb_prop in Hc as [Hlf Hcr].
    apply negb_true_iff in Hlf, Hcr. specialize (IH Hl).
    change (String c l ++ String CR (String LF rest))
      with (String c (l ++ String CR (String LF rest))).
    cbn [splitNewlines]. rewrite Hlf, Hcr. cbn [andb].
    destruct (l ++ String CR (String LF rest)) as [ | c2 r2 ] eqn:E.
    + destruct l; discriminate.
    + rewrite IH. reflexivity.
Qed.

Lemma splitNewlines_joinMixed (ls : list (string * bool)) :
  Forall (fun lb => noBreak (fst lb) = true) ls ->
  splitNewlines (joinMixed ls) = (map fst ls ++ [ "" ])%list.
Proof.
  induction 1 as [ | [l crlf] ls Hl _ IH ]; [ reflexivity | ].
  simpl in Hl. cbn [joinMixed map fst].
  destruct crlf.
  - change (l ++ String CR (String LF "") ++ joinMixed ls)
      with (l ++ String CR (String LF (joinMixed ls))).
    rewrite splitNewlines_crlf_line by assumption. now rewrite IH.
  - change (l ++ String LF "" ++ joinMixed ls) with (l ++ String LF (joinMixed ls)).
    rewrite splitNewlines_line by assumption. now rewrite IH.
Qed.

(** X9. A ledger whose lines end in LF or in CRLF, in any mix, reads
    back as exactly its non-empty lines, in order: both line endings are
    accepted and blank lines are ignored. *)
Theorem parseLines_accepts_both_line_endings (ls : list (string * bool)) :
  Forall (fun lb => noBreak (fst lb) = true) ls ->
  parseLines (joinMixed ls) = List.filter nonEmpty (map fst ls).
Proof.
  intros H. unfold parseLines. rewrite splitNewlines_joinMixed by assumption.
  rewrite List.filter_app. simpl. now rewrite app_nil_r.
Qed.

End LedgerReading.

(** * More on the export route *)

Section ExportMore.

Variable number : Type.
Variable JSON_parse : string -> option (value number).

#[local] Abbreviation exportRoute := (@export number JSON_parse).
#[local] Abbreviation stream := (@exportStream number JSON_parse).


(** X11. The streaming export writes every non-empty line unless the
    line parses to a record whose string timestamp sorts before the
    filter: records at or after [sinceTs], records without a string
    timestamp and unparsable lines all go through.  Without a filter the
    export is the ledger's non-empty lines, in order. *)
Theorem export_stream_keeps_what_is_not_older (sinceTs : option string)
  (lines : list string) (failed : bool) :
  (forall l,
     l <> "" -> In l lines ->
     (forall since obj t,
        sinceTs = Some since -> JSON_parse l = Some obj ->
        get_prop obj "ts" = VStr t -> String.ltb t since = false) ->
     In (writeLine l) (stream sinceTs lines failed))
  /\ (sinceTs = None \/ sinceTs = Some "" ->
      stream sinceTs lines false = map writeLine (List.filter nonEmpty lines)).
Proof.
  split.
  - intros l Hne Hin Hts. apply exportStream_written; [ exact Hne | ].
    split; [ exact Hin | ]. apply String.eqb_neq in Hne. unfold exportKeeps. rewrite Hne.
    destruct sinceTs as [ since | ]; [ | reflexivity ].
    destruct (String.eqb since ""); [ reflexivity | ].
    destruct (JSON_parse l) as [ obj | ] eqn:Hp; [ | reflexivity ].
    destruct (get_prop obj "ts") eqn:Hg; try reflexivity.
    now rewrite (Hts since obj s eq_refl eq_refl Hg).
  - intros Hs. unfold exportStream. rewrite app_nil_r. f_equal.
    apply List.filter_ext. intros l. unfold exportKeeps, nonEmpty.
    destruct Hs as [ -> | -> ]; destruct (String.eqb l ""); reflexivity.
Qed.

End ExportMore.

(** * The strings stored in a payload *)

Section StoredStrings.

Variable number : Type.

Lemma In_indexed_inv (xs : list (value number)) (x : value number) (k : string) (i : nat) :
  In (k, x) (indexed i xs) -> In x xs.
Proof.
  revert i. induction xs as [ | y xs IH ]; intros i; simpl; [ tauto | ].
  intros [ [= _ <-] | H ]; [ now left | right; eauto ].
Qed.

Lemma storedUnder_leaf (keyOk : string -> bool) (s : string) (v : value number) :
  storedUnder keyOk s v -> In s (stringLeaves v).
Proof.
  induction 1 as [ obj k Hc Hin _ | obj v k Hc Hin _ IH ].
  - destruct obj as [ | | | | | xs | fs | ]; try discriminate; simpl in Hin |- *;
      apply in_flat_map.
    + exists (VStr s). split; [ eapply In_indexed_inv; exact Hin | now left ].
    + exists (k, VStr s). split; [ exact Hin | now left ].
  - destruct obj as [ | | | | | xs | fs | ]; try discriminate; simpl in Hin |- *;
      apply in_flat_map.
    + exists v. split; [ eapply In_indexed_inv; exact Hin | exact IH ].
    + exists (k, v). split; [ exact Hin | exact IH ].
Qed.

End StoredStrings.

(** * Runs of the whole service *)

Section RunFacts.

Variable number : Type.
Variable number_toString : number -> string.
Variable number_truthy : number -> bool.
Variable JSON_stringify : entry number -> string.
Variable JSON_parse : string -> option (value number).
Variable cfg : config.

#[local] Abbreviation stepOnce :=
  (@step number number_toString number_truthy JSON_stringify JSON_parse cfg).
#[local] Abbreviation runOf :=
  (@run number number_toString number_truthy JSON_stringify JSON_parse cfg).
#[local] Abbreviation labelOf := (@resolveLabel number number_toString number_truthy).
#[local] Abbreviation pushOf := (@pushStart number number_toString number_truthy).
#[local] Abbreviation obsOf := (@observation number number_toString number_truthy).
#[local] Abbreviation beforeCall :=
  (@before_tool_call number number_toString number_truthy cfg).
#[local] Abbreviation afterCall :=
  (@after_tool_call number number_toString number_truthy JSON_stringify cfg).
#[local] Abbreviation afterEntry :=
  (@after_tool_call_entry number number_toString number_truthy cfg).
#[local] Abbreviation persistCall :=
  (@tool_result_persist number number_toString number_truthy JSON_stringify cfg).
#[local] Abbreviation persistEntry :=
  (@tool_result_persist_entry number number_toString number_truthy cfg).
#[local] Abbreviation noteCall :=
  (@note number number_toString number_truthy JSON_stringify JSON_parse cfg).
#[local] Abbreviation noteEntry :=
  (@note_entry number number_toString number_truthy JSON_parse cfg).

(** ** What each operation leaves alone *)

Lemma resolveLabel_keeps (parsed : option (value number)) (sk : option string)
  (sid fb : value number) (st : state number) :
  let st' := snd (labelOf parsed sk sid fb st) in
  recentStarts st' = recentStarts st /\ ledger st' = ledger st
  /\ sessionMap st' = sessionMap st /\ cronJobNameMap st' = cronJobNameMap st.
Proof.
  cbv zeta.
  destruct (resolveLabel_state number_toString number_truthy parsed sk sid fb st)
    as [ -> | [_ ->] ]; repeat split.
Qed.

Lemma pushStart_keeps (t : Z) (sk : option string) (tn : string) (params : value number)
  (st : state number) :
  let st' := pushOf t sk tn params st in
  ledger st' = ledger st /\ sessionMap st' = sessionMap st
  /\ sessionMetaMap st' = sessionMetaMap st /\ cronJobNameMap st' = cronJobNameMap st.
Proof.
  cbv zeta. unfold pushStart. destruct sk as [ sk | ]; [ | repeat split ].
  destruct (String.eqb sk "" || String.eqb tn ""); repeat split.
Qed.

Lemma popRecentStart_keeps (t : Z) (sk : option string) (tn : value number)
  (m : option Z) (st : state number) :
  let st' := snd (popRecentStart t sk tn m st) in
  ledger st' = ledger st /\ sessionMap st' = sessionMap st
  /\ sessionMetaMap st' = sessionMetaMap st /\ cronJobNameMap st' = cronJobNameMap st.
Proof.
  cbv zeta. unfold popRecentStart.
  destruct sk as [ sk | ]; [ | repeat split ].
  destruct tn; try (repeat split; fail).
  destruct (recentStarts st !! sk) as [ byTool | ]; [ | repeat split ].
  destruct (byTool !! s) as [ [ | o q ] | ]; try (repeat split; fail).
  destruct (dropTooOld t _ (o :: q)); repeat split.
Qed.

(** ** The queues of different pairs *)

Lemma queueOf_store_other (st : state number) (sk tn sk' tn' : string)
  (q : list (start number)) :
  (sk', tn') <> (sk, tn) ->
  queueOf (set_recentStarts
             (<[ sk := <[ tn := q ]> (default ∅ (recentStarts st !! sk)) ]>
                (recentStarts st)) st) sk' tn'
  = queueOf st sk' tn'.
Proof.
  intros Hne. unfold queueOf. simpl.
  destruct (decide (sk = sk')) as [ <- | Hsk ].
  - rewrite lookup_insert_eq. simpl.
    rewrite lookup_insert_ne by congruence. reflexivity.
  - rewrite lookup_insert_ne by assumption. reflexivity.
Qed.

Lemma queueOf_pushStart_other (st : state number) (t : Z) (sk : option string)
  (tn sk' tn' : string) (params : value number) :
  (Some sk', tn') <> (sk, tn) ->
  queueOf (pushOf t sk tn params st) sk' tn' = queueOf st sk' tn'.
Proof.
  intros Hne. unfold pushStart. destruct sk as [ sk | ]; [ | reflexivity ].
  destruct (String.eqb sk "" || String.eqb tn ""); [ reflexivity | ].
  apply queueOf_store_other. congruence.
Qed.

Lemma queueOf_popRecentStart_other (st : state number) (t : Z) (sk : option string)
  (tn : value number) (sk' tn' : string) (maxAgeMs : option Z) :
  (Some sk', VStr tn') <> (sk, tn) ->
  queueOf (snd (popRecentStart t sk tn maxAgeMs st)) sk' tn' = queueOf st sk' tn'.
Proof.
  intros Hne. unfold popRecentStart.
  destruct sk as [ sk | ]; [ | reflexivity ].
  destruct tn as [ | | | | tn | | | ]; try reflexivity.
  destruct (recentStarts st !! sk) as [ byTool | ] eqn:Hsk; [ | reflexivity ].
  destruct (byTool !! tn) as [ [ | o q ] | ]; try reflexivity.
  assert (byTool = default ∅ (recentStarts st !! sk)) as -> by now rewrite Hsk.
  destruct (dropTooOld t _ (o :: q)); cbn [snd]; apply queueOf_store_other; congruence.
Qed.

(** X14. The queues of different (session, tool) pairs do not interfere:
    recording a start for one pair, or consuming one, leaves the queue of
    every other pair as it was. *)
Theorem start_queues_are_independent (st : state number) (t : Z) (sk tn sk' tn' : string)
  (params : value number) (maxAgeMs : option Z) :
  (sk', tn') <> (sk, tn) ->
  queueOf (pushOf t (Some sk) tn params st) sk' tn' = queueOf st sk' tn'
  /\ queueOf (snd (popRecentStart t (Some sk) (VStr tn) maxAgeMs st)) sk' tn'
     = queueOf st sk' tn'.
Proof.
  intros Hne. split.
  - apply queueOf_pushStart_other. congruence.
  - apply queueOf_popRecentStart_other. congruence.
Qed.

Lemma queueOf_same_starts (st st' : state number) (sk tn : string) :
  recentStarts st' = recentStarts st -> queueOf st' sk tn = queueOf st sk tn.
Proof. intros H. unfold queueOf. now rewrite H. Qed.

Lemma length_dropTooOld (t m : Z) (q : list (start number)) :
  (length (dropTooOld t m q) <= length q)%nat.
Proof.
  induction q as [ | o q IH ]; simpl; [ lia | ].
  destruct (m <? t - tsMs o); simpl; lia.
Qed.

Lemma pushStart_capped (t : Z) (sk : option string) (tn : string) (params : value number)
  (st : state number) :
  queuesCapped st -> queuesCapped (pushOf t sk tn params st).
Proof.
  intros Hcap sk' tn'.
  destruct (decide ((Some sk', tn') = (sk, tn))) as [ E | Hne ].
  - injection E as <- <-.
    destruct (String.eqb_spec sk' "") as [ -> | Hsk ]; [ apply Hcap | ].
    destruct (String.eqb_spec tn' "") as [ -> | Htn ].
    + unfold pushStart. rewrite orb_true_r. apply Hcap.
    + rewrite queueOf_pushStart by assumption. apply length_shiftWhileOver.
  - rewrite queueOf_pushStart_other by assumption. apply Hcap.
Qed.

Lemma popRecentStart_capped (t : Z) (sk : option string) (tn : value number)
  (m : option Z) (st : state number) :
  queuesCapped st -> queuesCapped (snd (popRecentStart t sk tn m st)).
Proof.
  intros Hcap sk' tn'.
  destruct sk as [ sk | ]; [ | apply Hcap ].
  destruct tn as [ | | | | tn | | | ]; try apply Hcap.
  destruct (decide ((sk', tn') = (sk, tn))) as [ E | Hne ].
  - injection E as -> ->.
    destruct (popRecentStart_queue t sk tn m st) as [_ ->].
    pose proof (length_dropTooOld t (window m) (queueOf st sk tn)).
    specialize (Hcap sk tn).
    destruct (dropTooOld t (window m) (queueOf st sk tn)); simpl in *; lia.
  - rewrite queueOf_popRecentStart_other by congruence. apply Hcap.
Qed.

Lemma capped_same_starts (st st' : state number) :
  recentStarts st' = recentStarts st -> queuesCapped st -> queuesCapped st'.
Proof. intros H Hcap sk tn. rewrite (@queueOf_same_starts st st' sk tn H). apply Hcap. Qed.

Lemma after_entry_state (w : world number) (ev : tool_event number) (ctx : hook_ctx number)
  (st : state number) :
  snd (afterEntry w ev ctx st)
  = snd (labelOf (reload w) (ctx_sessionKey ctx)
           (infoField (@sessionId number) (sessionInfoOf (ctx_sessionKey ctx) st))
           (infoField (@info_label number) (sessionInfoOf (ctx_sessionKey ctx) st)) st).
Proof.
  unfold after_tool_call_entry. destruct (labelOf _ _ _ _ st). reflexivity.
Qed.

Lemma persist_entry_state (w : world number) (ev : persist_event number)
  (ctx : hook_ctx number) (st : state number) :
  snd (persistEntry w ev ctx st)
  = snd (popRecentStart (now w) (ctx_sessionKey ctx)
           (persistedToolName number_truthy ev ctx) None
           (snd (labelOf (reload w) (ctx_sessionKey ctx)
                   (infoField (@sessionId number) (sessionInfoOf (ctx_sessionKey ctx) st))
                   (infoField (@info_label number) (sessionInfoOf (ctx_sessionKey ctx) st))
                   st))).
Proof.
  unfold tool_result_persist_entry. destruct (labelOf _ _ _ _ st) as [lbl st1].
  cbn [snd]. fold (messageOf number_truthy ev). fold (persistedToolName number_truthy ev ctx).
  destruct (popRecentStart _ _ _ _ st1). reflexivity.
Qed.

Lemma note_entry_state (w : world number) (method body : string) (st st' : state number)
  (e : entry number) :
  noteEntry w method body st = Accepted e st' ->
  exists sk sid fb, st' = snd (labelOf (reload w) sk sid fb st).
Proof.
  unfold note_entry.
  destruct (negb (enableNotes cfg)); [ discriminate | ].
  destruct (negb (String.eqb method "POST")); [ discriminate | ].
  set (payload := match JSON_parse _ with Some p => p | None => VObj [] end).
  intros H.
  destruct payload; try discriminate;
    match type of H with
    | (if ?c then _ else _) = _ => destruct c; [ discriminate | ]
    end;
    match type of H with
    | (let '(_, _) := labelOf ?p ?sk ?sid ?fb st in _) = _ =>
        exists sk, sid, fb; destruct (labelOf p sk sid fb st)
    end;
    injection H as _ <-; reflexivity.
Qed.

Lemma step_state_shape (w : world number) (i : input number) (st : state number) :
  recentStarts (fst (stepOnce w i st)) = recentStarts st
  \/ (exists t sk tn params, fst (stepOnce w i st) = pushOf t sk tn params st)
  \/ (exists t sk tn m st1 f,
        recentStarts st1 = recentStarts st
        /\ fst (stepOnce w i st) = set_ledger f (snd (popRecentStart t sk tn m st1))).
Proof.
  destruct i as [ ev ctx | ev ctx | ev ctx | method body | l ]; cbn [step fst].
  - right. left. unfold before_tool_call. eauto.
  - left. unfold after_tool_call.
    pose proof (after_entry_state w ev ctx st) as Hs.
    destruct (afterEntry w ev ctx st) as [e st1]. cbn [snd] in Hs. subst st1.
    cbn [set_ledger recentStarts]. apply resolveLabel_keeps.
  - right. right. unfold tool_result_persist.
    pose proof (persist_entry_state w ev ctx st) as Hs.
    destruct (persistEntry w ev ctx st) as [e st2]. cbn [snd] in Hs. subst st2.
    do 6 eexists. split; [ | reflexivity ]. apply resolveLabel_keeps.
  - left. unfold note.
    destruct (noteEntry w method body st) as [ | | e st1 ] eqn:Hn; try reflexivity.
    apply note_entry_state in Hn as (sk & sid & fb & ->).
    cbn [set_ledger recentStarts]. apply resolveLabel_keeps.
  - left. reflexivity.
Qed.

Lemma step_capped (w : world number) (i : input number) (st : state number) :
  queuesCapped st -> queuesCapped (fst (stepOnce w i st)).
Proof.
  intros Hcap.
  destruct (step_state_shape w i st)
    as [ H | [ (t & sk & tn & params & ->) | (t & sk & tn & m & st1 & f & H & ->) ] ].
  - now apply (@capped_same_starts st _ H).
  - now apply pushStart_capped.
  - apply (@capped_same_starts (snd (popRecentStart t sk tn m st1)));
      [ reflexivity | ].
    apply popRecentStart_capped. now apply (@capped_same_starts st _ H).
Qed.

(** X13. The cap on the pending queues is an invariant of the service:
    if no queue holds more than 40 observations, then after any sequence
    of hook calls, notes and refreshes none does.  It holds in particular
    for every run from the state without pending starts. *)
Theorem queue_cap_is_invariant (calls : list (world number * input number))
  (st : state number) :
  queuesCapped st -> queuesCapped (fst (runOf calls st)).
Proof.
  revert st. induction calls as [ | [w i] calls IH ]; intros st Hcap; [ exact Hcap | ].
  simpl. pose proof (@step_capped w i st Hcap) as H1.
  destruct (stepOnce w i st) as [st1 es1]. cbn [fst] in H1.
  specialize (IH st1 H1). destruct (runOf calls st1) as [st2 es2]. exact IH.
Qed.

(** ** The ledger over a run *)

Lemma joinLines_app (a b : list string) :
  joinLines (a ++ b) = joinLines a ++ joinLines b.
Proof.
  induction a as [ | x a IH ]; [ reflexivity | ].
  cbn [joinLines app fold_right]. fold (joinLines (a ++ b)). fold (joinLines a).
  rewrite IH. change (String LF (joinLines a ++ joinLines b))
    with (String LF (joinLines a) ++ joinLines b).
  now rewrite append_assoc.
Qed.

Lemma emitLedger_text (ok : bool) (e : entry number) (file : string) :
  emitLedger JSON_stringify ok e file
  = file ++ (if ok then joinLines [ JSON_stringify e ] else "").
Proof.
  unfold emitLedger, appendLine. destruct ok; [ reflexivity | ].
  now rewrite append_empty_r.
Qed.

Lemma step_ledger (w : world number) (i : input number) (st : state number) :
  ledger (fst (stepOnce w i st))
  = ledger st ++ (if appendOk w
                  then joinLines (map JSON_stringify (snd (stepOnce w i st)))
                  else "").
Proof.
  assert (forall f, f ++ (if appendOk w then joinLines [] else "") = f) as Hnil.
  { intros f. destruct (appendOk w); apply append_empty_r. }
  destruct i as [ ev ctx | ev ctx | ev ctx | method body | l ]; cbn [step fst snd map].
  - rewrite Hnil. unfold before_tool_call. apply pushStart_keeps.
  - unfold after_tool_call.
    pose proof (after_entry_state w ev ctx st) as Hs.
    destruct (afterEntry w ev ctx st) as [e st1]. cbn [fst snd] in *. subst st1.
    cbn [set_ledger ledger]. rewrite emitLedger_text. f_equal. apply resolveLabel_keeps.
  - unfold tool_result_persist.
    pose proof (persist_entry_state w ev ctx st) as Hs.
    destruct (persistEntry w ev ctx st) as [e st2]. cbn [fst snd] in *. subst st2.
    cbn [set_ledger ledger]. rewrite emitLedger_text. f_equal.
    etransitivity; [ apply popRecentStart_keeps | apply resolveLabel_keeps ].
  - unfold note.
    destruct (noteEntry w method body st) as [ | | e st1 ] eqn:Hn;
      try (now rewrite Hnil).
    apply note_entry_state in Hn as (sk & sid & fb & ->).
    cbn [set_ledger ledger map]. rewrite emitLedger_text. f_equal.
    apply resolveLabel_keeps.
  - now rewrite Hnil.
Qed.

Lemma run_ledger (calls : list (world number * input number)) (st : state number) :
  Forall (fun c => appendOk (fst c) = true) calls ->
  ledger (fst (runOf calls st))
  = ledger st ++ joinLines (map JSON_stringify (snd (runOf calls st))).
Proof.
  intros Hok. revert st. induction Hok as [ | [w i] calls Hw _ IH ]; intros st.
  - simpl. now rewrite append_empty_r.
  - simpl in Hw. simpl. pose proof (step_ledger w i st) as H1. rewrite Hw in H1.
    destruct (stepOnce w i st) as [st1 es1]. cbn [fst snd] in H1.
    specialize (IH st1). destruct (runOf calls st1) as [st2 es2].
    cbn [fst snd] in *. rewrite IH, H1, map_app, joinLines_app. apply append_assoc.
Qed.

(** X12. The ledger is append-only over any run of the service: what was
    in the file stays as a prefix, and when every append succeeds the
    text added is exactly the records handed to [emitLedger], one line
    each, in the order they were emitted. *)
Theorem ledger_is_append_only (calls : list (world number * input number))
  (st : state number) :
  (exists added, ledger (fst (runOf calls st)) = ledger st ++ added)
  /\ (Forall (fun c => appendOk (fst c) = true) calls ->
      ledger (fst (runOf calls st))
      = ledger st ++ joinLines (map JSON_stringify (snd (runOf calls st)))).
Proof.
  split; [ | apply run_ledger ].
  revert st. induction calls as [ | [w i] calls IH ]; intros st.
  - exists "". now rewrite append_empty_r.
  - simpl. pose proof (step_ledger w i st) as H1.
    destruct (stepOnce w i st) as [st1 es1]. cbn [fst snd] in H1.
    destruct (IH st1) as [added H2]. destruct (runOf calls st1) as [st2 es2].
    cbn [fst] in *. rewrite H2, H1. eexists. apply append_assoc.
Qed.

(** X16. Reading the ledger back gives the run: starting from an empty
    file, with every append succeeding and every record printed as one
    line, the lines of the ledger after a run are exactly the records
    the run emitted, in order. *)
Theorem ledger_reads_back_the_run (calls : list (world number * input number))
  (st : state number) :
  ledger st = "" ->
  Forall (fun c => appendOk (fst c) = true) calls ->
  Forall (fun e => lineOk (JSON_stringify e) = true) (snd (runOf calls st)) ->
  parseLines (ledger (fst (runOf calls st)))
  = map JSON_stringify (snd (runOf calls st)).
Proof.
  intros Hempty Hok Hlines. rewrite run_ledger, Hempty by assumption.
  change ("" ++ ?x) with x.
  apply parseLines_joinLines. now apply Forall_map.
Qed.

(** X15. Each hook touches only its part of the state: [before_tool_call]
    writes nothing to the ledger and leaves the identity maps alone, while
    [after_tool_call] and the note route never consume or add a pending
    start. *)
Theorem hooks_touch_only_their_part (w : world number) (ev : tool_event number)
  (ctx : hook_ctx number) (method body : string) (st : state number) :
  (ledger (beforeCall w ev ctx st) = ledger st
   /\ sessionMap (beforeCall w ev ctx st) = sessionMap st
   /\ sessionMetaMap (beforeCall w ev ctx st) = sessionMetaMap st
   /\ cronJobNameMap (beforeCall w ev ctx st) = cronJobNameMap st)
  /\ recentStarts (afterCall w ev ctx st) = recentStarts st
  /\ recentStarts (noteCall w method body st) = recentStarts st.
Proof.
  repeat apply conj; try apply pushStart_keeps.
  - unfold after_tool_call.
    pose proof (after_entry_state w ev ctx st) as Hs.
    destruct (afterEntry w ev ctx st) as [e st1]. cbn [snd] in Hs. subst st1.
    cbn [set_ledger recentStarts]. apply resolveLabel_keeps.
  - unfold note.
    destruct (noteEntry w method body st) as [ | | e st1 ] eqn:Hn; try reflexivity.
    apply note_entry_state in Hn as (sk & sid & fb & ->).
    cbn [set_ledger recentStarts]. apply resolveLabel_keeps.
Qed.

Lemma shiftWhileOver_snoc_stale (t m : Z) (q : list (start number)) (o : start number) :
  Forall (tooOld t m) q ->
  exists pre, shiftWhileOver 40 (q ++ [ o ]) = (pre ++ [ o ])%list
              /\ Forall (tooOld t m) pre.
Proof.
  intros H. rewrite (shiftWhileOver_snoc 39). eexists. split; [ reflexivity | ].
  now apply Forall_drop.
Qed.

Lemma persist_entry_fields (w : world number) (pev : persist_event number)
  (ctx : hook_ctx number) (st : state number) :
  let st1 := snd (labelOf (reload w) (ctx_sessionKey ctx)
                    (infoField (@sessionId number) (sessionInfoOf (ctx_sessionKey ctx) st))
                    (infoField (@info_label number) (sessionInfoOf (ctx_sessionKey ctx) st))
                    st) in
  let r := popRecentStart (now w) (ctx_sessionKey ctx)
             (persistedToolName number_truthy pev ctx) None st1 in
  summary (fst (persistEntry w pev ctx st))
  = or_else number_truthy
      (match fst r with Some o => start_summary o | None => VUndefined end)
      (persistedToolName number_truthy pev ctx)
  /\ assoc "paths" (details (fst (persistEntry w pev ctx st)))
     = Some (match fst r with Some o => VArr (map VStr (paths o)) | None => VUndefined end)
  /\ assoc "url" (details (fst (persistEntry w pev ctx st)))
     = Some (match fst r with Some o => url o | None => VUndefined end)
  /\ snd (persistEntry w pev ctx st) = snd r.
Proof.
  cbv zeta. unfold tool_result_persist_entry.
  destruct (labelOf _ _ _ _ st) as [lbl st1]. cbn [snd].
  fold (messageOf number_truthy pev). fold (persistedToolName number_truthy pev ctx).
  destruct (popRecentStart _ _ _ _ st1) as [s st2]. repeat split.
Qed.

(** X17. The join of start and done: when [before_tool_call] has
    recorded a call and [tool_result_persist] arrives for the same
    session and tool within the match window, with nothing fresh queued
    before, the persisted record carries what was captured at the start,
    the summary and the paths and url picked from the sanitized
    parameters, and the pending start is consumed. *)
Theorem persisted_record_carries_the_start (st : state number) (w1 w2 : world number)
  (ev : tool_event number) (pev : persist_event number) (ctx1 ctx2 : hook_ctx number)
  (sk : string) :
  ctx_sessionKey ctx1 = Some sk -> ctx_sessionKey ctx2 = Some sk ->
  sk <> "" -> ev_toolName ev <> "" ->
  persistedToolName number_truthy pev ctx2 = VStr (ev_toolName ev) ->
  Forall (tooOld (now w2) 30000) (queueOf st sk (ev_toolName ev)) ->
  now w2 - now w1 <= 30000 ->
  let params := sanitize cfg (or_else number_truthy (ev_params ev) (VObj [])) in
  let done := persistEntry w2 pev ctx2 (beforeCall w1 ev ctx1 st) in
  summary (fst done)
  = or_else number_truthy
      (summarize number_toString number_truthy (ev_toolName ev) params)
      (VStr (ev_toolName ev))
  /\ assoc "paths" (details (fst done)) = Some (VArr (map VStr (pickPaths params)))
  /\ assoc "url" (details (fst done)) = Some (pickUrl params)
  /\ queueOf (snd done) sk (ev_toolName ev) = [].
Proof.
  intros Hk1 Hk2 Hsk Htn Htool Hold Hage params done.
  set (tn := ev_toolName ev) in *.
  set (st1 := beforeCall w1 ev ctx1 st) in *.
  assert (exists pre, queueOf st1 sk tn = (pre ++ [ obsOf (now w1) tn params ])%list
                      /\ Forall (tooOld (now w2) 30000) pre) as (pre & Hq & Hpre).
  { unfold st1, before_tool_call. rewrite Hk1. fold tn. fold params.
    rewrite queueOf_pushStart by assumption. now apply shiftWhileOver_snoc_stale. }
  destruct (persist_entry_fields w2 pev ctx2 st1) as (Hsum & Hpaths & Hurl & Hst).
  fold done in Hsum, Hpaths, Hurl, Hst.
  rewrite Hk2, Htool in Hsum, Hpaths, Hurl, Hst.
  set (st2 := snd (labelOf (reload w2) (Some sk)
                     (infoField (@sessionId number) (sessionInfoOf (Some sk) st1))
                     (infoField (@info_label number) (sessionInfoOf (Some sk) st1)) st1))
    in *.
  assert (recentStarts st2 = recentStarts st1) as Hrs by apply resolveLabel_keeps.
  destruct (popRecentStart_queue (now w2) sk tn None st2) as [Ha Hb].
  rewrite (@queueOf_same_starts st1 st2 sk tn Hrs), Hq in Ha, Hb.
  change (window None) with 30000 in Ha, Hb.
  rewrite (dropTooOld_stale_prefix (obsOf (now w1) tn params) [] Hpre Hage) in Ha, Hb.
  cbn [hd_error tl] in Ha, Hb.
  rewrite Ha in Hsum, Hpaths, Hurl. rewrite Hst.
  repeat apply conj; assumption.
Qed.


Lemma dropTooOld_all_stale (t m : Z) (q : list (start number)) :
  Forall (tooOld t m) q -> dropTooOld t m q = [].
Proof.
  induction 1 as [ | o q Ho _ IH ]; [ reflexivity | ].
  simpl. unfold tooOld in Ho. destruct (Z.ltb_spec m (t - tsMs o)); [ exact IH | lia ].
Qed.

(** X26. A done signal without a usable start: when
    [tool_result_persist] arrives and every start pending for its session
    and tool is older than the match window (or none is pending), the
    record falls back to the tool name as its summary, carries no paths
    and no url, and the stale starts are gone from the queue. *)
Theorem persisted_record_without_start_names_the_tool (st : state number)
  (w : world number) (pev : persist_event number) (ctx : hook_ctx number)
  (sk tn : string) :
  ctx_sessionKey ctx = Some sk ->
  persistedToolName number_truthy pev ctx = VStr tn ->
  Forall (tooOld (now w) 30000) (queueOf st sk tn) ->
  let done := persistEntry w pev ctx st in
  summary (fst done) = VStr tn
  /\ assoc "paths" (details (fst done)) = Some VUndefined
  /\ assoc "url" (details (fst done)) = Some VUndefined
  /\ queueOf (snd done) sk tn = [].
Proof.
  intros Hk Htool Hold done.
  destruct (persist_entry_fields w pev ctx st) as (Hsum & Hpaths & Hurl & Hst).
  fold done in Hsum, Hpaths, Hurl, Hst.
  rewrite Hk, Htool in Hsum, Hpaths, Hurl, Hst.
  set (st2 := snd (labelOf (reload w) (Some sk)
                     (infoField (@sessionId number) (sessionInfoOf (Some sk) st))
                     (infoField (@info_label number) (sessionInfoOf (Some sk) st)) st))
    in *.
  assert (recentStarts st2 = recentStarts st) as Hrs by apply resolveLabel_keeps.
  destruct (popRecentStart_queue (now w) sk tn None st2) as [Ha Hb].
  rewrite (@queueOf_same_starts st st2 sk tn Hrs) in Ha, Hb.
  change (window None) with 30000 in Ha, Hb.
  rewrite (dropTooOld_all_stale Hold) in Ha, Hb.
  cbn [hd_error tl] in Ha, Hb.
  rewrite Ha in Hsum, Hpaths, Hurl. rewrite Hst.
  repeat apply conj; assumption.
Qed.

(** ** The strings a record shows *)


End RunFacts.


(** * The loaders and the resolvers *)

Section LoaderFacts.

Variable number : Type.
Variable number_toString : number -> string.
Variable number_truthy : number -> bool.

#[local] Abbreviation loadSessions := (@loadSessionMap number number_truthy).
#[local] Abbreviation loadCron := (@loadCronJobNameMap number number_truthy).
#[local] Abbreviation loadMeta := (@loadSessionMetaMap number number_truthy).

(** ** loadCronJobNameMap *)

Lemma addCronJob_ok (m : gmap string string) (id name : value number) :
  cronNamesOk m -> cronNamesOk (addCronJob m id name).
Proof.
  intros Hm. unfold addCronJob.
  destruct id as [ | | | | id | | | ]; try exact Hm.
  destruct name as [ | | | | name | | | ]; try exact Hm.
  destruct (String.eqb_spec (trim name) "") as [ _ | Hne ]; [ exact Hm | ].
  intros id' name'. destruct (decide (id = id')) as [ <- | Hid ].
  - rewrite lookup_insert_eq. intros [= <-]. split; [ exact Hne | apply trim_isTrimmed ].
  - rewrite lookup_insert_ne by assumption. apply Hm.
Qed.

(** X19. Every name [loadCronJobNameMap] keeps is a non-empty string
    without white space at either end, so trimming it again changes
    nothing; a job store that cannot be read or parsed gives no name. *)
Theorem cron_names_are_trimmed_and_not_empty (parsed : option (value number))
  (id name : string) :
  loadCron parsed !! id = Some name ->
  name <> "" /\ isTrimmed name /\ trim name = name.
Proof.
  assert (cronNamesOk (loadCron parsed)) as Hok.
  { unfold loadCronJobNameMap. destruct parsed as [ obj | ]; [ | intros ? ? [=] ].
    assert (cronNamesOk ∅) as H0 by (intros ? ? [=]).
    destruct (get_prop obj "jobs") as [ | | | | | jobs | jobs | ]; try exact H0.
    - revert H0. generalize (∅ : gmap string string).
      induction jobs as [ | job jobs IH ]; intros m Hm; [ exact Hm | ].
      simpl. apply IH. now apply addCronJob_ok.
    - revert H0. generalize (∅ : gmap string string).
      induction jobs as [ | [k job] jobs IH ]; intros m Hm; [ exact Hm | ].
      simpl. apply IH. now apply addCronJob_ok. }
  intros H. destruct (Hok id name H) as [Hne Ht].
  split; [ exact Hne | ]. split; [ exact Ht | now apply trim_of_trimmed ].
Qed.

(** ** loadSessionMap *)

Lemma or_else_truthy_r (a b : value number) :
  truthy number_truthy b = true -> truthy number_truthy (or_else number_truthy a b) = true.
Proof. intros Hb. unfold or_else. destruct (truthy number_truthy a) eqn:E; congruence. Qed.

(** X18. Every entry [loadSessionMap] keeps comes from an entry of the
    file with a truthy session id, is stored under the session key of
    that entry, and has a label that is never falsy for a non-empty key
    (the origin label, else the delivery target, else the session key
    itself); a file that cannot be read or parsed gives the empty map. *)
Theorem session_registry_entries_are_usable (parsed : option (value number))
  (sessionKey : string) (info : session_info number) :
  loadSessions parsed !! sessionKey = Some info ->
  truthy number_truthy (sessionId info) = true
  /\ (sessionKey <> "" -> truthy number_truthy (info_label info) = true)
  /\ exists obj raw,
       parsed = Some obj
       /\ In (sessionKey, raw) (Object_entries (or_else number_truthy obj (VObj [])))
       /\ info = sessionInfoFrom number_truthy sessionKey raw.
Proof.
  unfold loadSessionMap. destruct parsed as [ obj | ]; [ | intros [=] ].
  set (all := Object_entries (or_else number_truthy obj (VObj []))).
  set (Q := fun (k : string) (i : session_info number) =>
              truthy number_truthy (sessionId i) = true
              /\ (k <> "" -> truthy number_truthy (info_label i) = true)
              /\ exists raw, In (k, raw) all /\ i = sessionInfoFrom number_truthy k raw).
  assert (forall es (m : gmap string (session_info number)),
            (forall e, In e es -> In e all) ->
            (forall k i, m !! k = Some i -> Q k i) ->
            forall k i,
              fold_left
                (fun out '(sessionKey, info) =>
                   if truthy number_truthy (get_prop info "sessionId")
                   then <[ sessionKey := sessionInfoFrom number_truthy sessionKey info ]> out
                   else out) es m !! k = Some i -> Q k i) as Hfold.
  { induction es as [ | [k0 raw] es IH ]; intros m Hsub Hm k i; [ apply Hm | ].
    simpl. apply IH; [ intros e He; apply Hsub; now right | ].
    destruct (truthy number_truthy (get_prop raw "sessionId")) eqn:Hsid; [ | exact Hm ].
    intros k' i'. destruct (decide (k0 = k')) as [ <- | Hne ].
    - rewrite lookup_insert_eq. intros [= <-]. unfold Q. repeat apply conj.
      + exact Hsid.
      + intros Hk. simpl. apply or_else_truthy_r, or_else_truthy_r. simpl.
        apply negb_true_iff. now apply String.eqb_neq.
      + exists raw. split; [ apply Hsub; now left | reflexivity ].
    - rewrite lookup_insert_ne by assumption. apply Hm. }
  assert (forall k i, (∅ : gmap string (session_info number)) !! k = Some i -> Q k i)
    as Hempty by (intros k i E; rewrite lookup_empty in E; discriminate).
  intros H.
  destruct (Hfold all ∅ (fun e He => He) Hempty sessionKey info H)
    as (H1 & H2 & raw & H3 & H4).
  repeat apply conj; [ exact H1 | exact H2 | ]. exists obj, raw. now repeat split.
Qed.

(** ** loadSessionMetaMap *)

Lemma fold_meta_lookup (fs : list (string * value number)) (sid : string) :
  distinctKeys fs ->
  forall m : gmap string (session_meta number),
    fold_left
      (fun out '(sessionId, info) => <[ sessionId := metaFrom number_truthy info ]> out)
      fs m !! sid
    = match assoc sid fs with
      | Some info => Some (metaFrom number_truthy info)
      | None => m !! sid
      end.
Proof.
  unfold distinctKeys. induction fs as [ | [k info] fs IH ]; intros Hnd m;
    [ reflexivity | ].
  simpl in Hnd. apply List.NoDup_cons_iff in Hnd as [Hnotin Hnd]. simpl.
  rewrite (IH Hnd). destruct (String.eqb_spec sid k) as [ -> | Hne ].
  - rewrite assoc_None_notin by assumption. apply lookup_insert_eq.
  - destruct (assoc sid fs); [ reflexivity | ]. apply lookup_insert_ne. congruence.
Qed.

(** X20. [loadSessionMetaMap] has one entry per session of the file: for
    a [sessions] object, looking up a session id gives the label (with
    its fallbacks to the display name and the key), channel and last
    recipient of that very session, and nothing for an id the file does
    not have; a file whose [sessions] has no entries gives the empty
    map. *)
Theorem session_meta_map_mirrors_the_file (obj : value number)
  (fs : list (string * value number)) (sid : string) :
  (get_prop obj "sessions" = VObj fs -> distinctKeys fs ->
   loadMeta (Some obj) !! sid = metaFrom number_truthy <$> assoc sid fs)
  /\ (Object_entries (get_prop obj "sessions") = [] -> loadMeta (Some obj) = ∅).
Proof.
  split.
  - intros Hs Hnd. unfold loadSessionMetaMap. rewrite Hs. cbn [or_else truthy Object_entries].
    change (fold_left _ fs ∅ !! sid)
      with (fold_left
              (fun out '(sessionId, info) => <[ sessionId := metaFrom number_truthy info ]> out)
              fs (∅ : gmap string (session_meta number)) !! sid).
    rewrite fold_meta_lookup by assumption.
    destruct (assoc sid fs); [ reflexivity | apply lookup_empty ].
  - intros He. unfold loadSessionMetaMap, or_else.
    destruct (truthy number_truthy (get_prop obj "sessions")); [ now rewrite He | ].
    reflexivity.
Qed.

(** ** Sessions started by cron *)

(** X21. A session key of the form [<prefix>:cron:<jobId>] whose session
    has no label in the session-meta map resolves to [cron:<name>], the
    name the cron store has for that job, without touching the state and
    whatever the fallback; with no channel in the session-meta map its
    channel resolves to [cron].  The job id is the text after the first
    [:cron:]. *)
Theorem cron_sessions_resolve_to_the_job_name (parsed : option (value number))
  (a jobId name : string) (sid fb : value number) (st : state number) :
  includes ":cron:" (a ++ ":cron") = false ->
  includes ":cron:" jobId = false ->
  cronJobNameMap st !! jobId = Some name -> name <> "" ->
  metaLabel number_toString number_truthy (sessionMetaMap st) sid = None ->
  let sk := a ++ ":cron:" ++ jobId in
  resolveLabel number_toString number_truthy parsed (Some sk) sid fb st
  = (VStr ("cron:" ++ name), st)
  /\ (metaChannel number_toString number_truthy (sessionMetaMap st) sid = None ->
      resolveChannel number_toString number_truthy (Some sk) sid fb st = VStr "cron").
Proof.
  intros Ha Hjob Hname Hne Hmeta sk. split.
  - unfold resolveLabel. rewrite Hmeta. cbn [keyString]. unfold sk.
    rewrite includes_cron. unfold split.
    rewrite split_at_first_cron, split_without_separator by assumption.
    cbn [nth]. rewrite Hname. apply String.eqb_neq in Hne. now rewrite Hne.
  - intros Hch. unfold resolveChannel. rewrite Hch. cbn [keyString].
    destruct (String.eqb_spec sk "agent:main:main") as [ E | _ ].
    + pose proof (includes_cron a jobId) as Hi. fold sk in Hi. rewrite E in Hi.
      discriminate Hi.
    + unfold sk. now rewrite includes_cron.
Qed.

(** ** The one-shot reload *)

(** X27. The reload inside [resolveLabel] heals a label missed at start
    up: when the session-meta map in memory has no label for a session
    that is not a cron session, and the file on disk names it, the label
    of the file is returned (with its fallbacks to the display name and
    the key), the map read from the file replaces the one in memory, and
    every later lookup of that session answers from memory, whatever the
    file holds by then. *)
Theorem reload_recovers_a_missing_label (obj : value number)
  (fs : list (string * value number)) (sid : string) (info : value number)
  (sk : option string) (fb : value number) (st : state number) :
  get_prop obj "sessions" = VObj fs -> distinctKeys fs ->
  assoc sid fs = Some info ->
  truthy number_truthy (meta_label (metaFrom number_truthy info)) = true ->
  sid <> "" ->
  metaLabel number_toString number_truthy (sessionMetaMap st) (VStr sid) = None ->
  includes ":cron:" (keyString sk) = false ->
  let r := resolveLabel number_toString number_truthy (Some obj) sk (VStr sid) fb st in
  fst r = meta_label (metaFrom number_truthy info)
  /\ sessionMetaMap (snd r) = loadMeta (Some obj)
  /\ forall parsed' sk' fb',
       resolveLabel number_toString number_truthy parsed' sk' (VStr sid) fb' (snd r)
       = (fst r, snd r).
Proof.
  intros Hs Hnd Ha Hl Hsid Hmiss Hcron.
  assert (loadMeta (Some obj) !! sid = Some (metaFrom number_truthy info)) as Hlook.
  { unfold loadSessionMetaMap. rewrite Hs. cbn [or_else truthy Object_entries].
    change (fold_left _ fs ∅ !! sid)
      with (fold_left
              (fun out '(sessionId, info) => <[ sessionId := metaFrom number_truthy info ]> out)
              fs (∅ : gmap string (session_meta number)) !! sid).
    rewrite fold_meta_lookup by assumption. now rewrite Ha. }
  assert (hasKeys (loadMeta (Some obj)) = true) as Hkeys.
  { unfold hasKeys. apply Nat.ltb_lt.
    destruct (size (loadMeta (Some obj))) eqn:Hsz; [ | lia ].
    apply map_size_empty_iff in Hsz. rewrite Hsz, lookup_empty in Hlook. discriminate. }
  assert (metaLabel number_toString number_truthy (loadMeta (Some obj)) (VStr sid)
          = Some (meta_label (metaFrom number_truthy info))) as Hnext.
  { unfold metaLabel. cbn [truthy ToString].
    apply String.eqb_neq in Hsid. rewrite Hsid. cbn [negb]. now rewrite Hlook, Hl. }
  assert (resolveLabel number_toString number_truthy (Some obj) sk (VStr sid) fb st
          = (meta_label (metaFrom number_truthy info),
             set_sessionMetaMap (loadMeta (Some obj)) st)) as Hr.
  { unfold resolveLabel. rewrite Hmiss. cbv zeta. rewrite Hcron, Hkeys.
    now rewrite Hnext. }
  cbv zeta. rewrite Hr. cbn [fst snd]. repeat apply conj; [ reflexivity | reflexivity | ].
  intros parsed' sk' fb'. unfold resolveLabel.
  change (sessionMetaMap (set_sessionMetaMap (loadMeta (Some obj)) st))
    with (loadMeta (Some obj)).
  now rewrite Hnext.
Qed.

End LoaderFacts.

(** * The live stream *)

Lemma joinWith_cons_char (sep : string) (c : ascii) (h : string) (t : list string) :
  joinWith sep (String c h :: t) = String c (joinWith sep (h :: t)).
Proof. destruct t; reflexivity. Qed.

Lemma join_split_newlines (p : string) :
  noCR p = true -> joinWith LFs (splitNewlines p) = p.
Proof.
  unfold noCR. induction p as [ | c r IH ]; intros H; [ reflexivity | ].
  simpl in H. apply andb_prop in H as [Hc Hr]. apply negb_true_iff in Hc.
  specialize (IH Hr). cbn [splitNewlines].
  destruct (Ascii.eqb_spec c LF) as [ -> | Hlf ].
  - pose proof (splitNewlines_nonempty r) as Hne.
    destruct (splitNewlines r) as [ | h t ]; [ congruence | ].
    change (joinWith LFs ("" :: h :: t)) with (String LF (joinWith LFs (h :: t))).
    now rewrite IH.
  - destruct r as [ | c2 r2 ]; [ reflexivity | ].
    rewrite Hc. cbn [andb].
    pose proof (splitNewlines_nonempty (String c2 r2)) as Hne.
    destruct (splitNewlines (String c2 r2)) as [ | h t ]; [ congruence | ].
    rewrite joinWith_cons_char. now rewrite IH.
Qed.

Lemma splitNewlines_one_line (l : string) : noBreak l = true -> splitNewlines l = [ l ].
Proof.
  unfold noBreak. induction l as [ | c l IH ]; intros H; [ reflexivity | ].
  simpl in H. apply andb_prop in H as [Hc Hl]. apply andb_prop in Hc as [Hlf Hcr].
  apply negb_true_iff in Hlf, Hcr. cbn [splitNewlines]. rewrite Hlf.
  destruct l as [ | c2 l2 ]; [ reflexivity | ].
  rewrite Hcr. cbn [andb]. now rewrite (IH Hl).
Qed.

Lemma dataOf_dataLine (l : string) : dataOf (dataLine l) = Some l.
Proof.
  unfold dataOf, dataLine.
  assert (String.prefix "data: " ("data: " ++ l ++ LFs) = true) as ->
    by (destruct l; reflexivity).
  change (skip 6 ("data: " ++ l ++ LFs)) with (l ++ LFs). unfold LFs.
  rewrite rev_string_snoc. cbn [skip]. now rewrite rev_string_involutive.
Qed.

Lemma omap_dataOf_lines (lines : list string) :
  omap dataOf (map dataLine lines ++ [ LFs ])%list = lines.
Proof.
  induction lines as [ | l lines IH ]; [ reflexivity | ].
  cbn [map app omap list_omap]. fold (omap dataOf (map dataLine lines ++ [ LFs ])%list).
  now rewrite dataOf_dataLine, IH.
Qed.

Lemma omap_dataOf_eventLine (event : option string) (rest : list string) :
  omap dataOf (eventLine event ++ rest)%list = omap dataOf rest.
Proof.
  unfold eventLine. destruct event as [ e | ]; [ | reflexivity ].
  destruct (String.eqb e ""); reflexivity.
Qed.

(** X22. The frame written for an event is the event line, one data line
    per line of the payload and an empty line; no data line holds a line
    feed, so every write is one line of the stream.  A reader that joins
    the data lines gets the payload back (as long as it has no carriage
    return), and a record printed as one line travels as a single data
    line holding exactly the text appended to the ledger. *)
Theorem sse_frame_carries_the_payload (event : option string) (payload : string) :
  Forall (fun l => noLF l = true) (splitNewlines payload)
  /\ (noCR payload = true -> sseDecode (sseFrame event payload) = payload)
  /\ (noBreak payload = true ->
      sseFrame (Some "line") payload
      = [ "event: line" ++ LFs; "data: " ++ payload ++ LFs; LFs ]).
Proof.
  repeat apply conj.
  - apply (splitNewlines_noLF_upto (n := String.length payload)). lia.
  - intros H. unfold sseDecode, sseFrame.
    rewrite omap_dataOf_eventLine, omap_dataOf_lines. now apply join_split_newlines.
  - intros H. unfold sseFrame. now rewrite splitNewlines_one_line.
Qed.

Lemma writeAll_received (chunks : list string) (c c' : client) :
  writeAll chunks c = Some c' -> received c' = (received c ++ chunks)%list.
Proof.
  revert c. induction chunks as [ | x chunks IH ]; intros c H; simpl in H.
  - injection H as <-. now rewrite app_nil_r.
  - destruct (failsAfter c) as [ [ | n ] | ]; [ discriminate | | ];
      apply IH in H; rewrite H; simpl; now rewrite <- app_assoc.
Qed.

Lemma writeAll_never_failing (chunks : list string) (c : client) :
  failsAfter c = None ->
  writeAll chunks c = Some {| received := (received c ++ chunks)%list; failsAfter := None |}.
Proof.
  revert c. induction chunks as [ | x chunks IH ]; intros c H; simpl.
  - rewrite app_nil_r. destruct c; simpl in *. now subst.
  - rewrite H, IH by reflexivity. simpl. now rewrite <- app_assoc.
Qed.

Lemma length_omap_le (A B : Type) (f : A -> option B) (l : list A) :
  (length (omap f l) <= length l)%nat.
Proof.
  induction l as [ | x l IH ]; [ apply Nat.le_refl | ].
  change (omap f (x :: l)) with
    (match f x with Some y => y :: omap f l | None => omap f l end).
  destruct (f x); simpl; lia.
Qed.

(** X23. A broadcast leaves no client with part of a frame: every client
    still registered afterwards has received the whole frame after what
    it had, a client whose writes never throw always stays registered,
    the clients that stay keep their order, and a client whose write
    throws is dropped. *)
Theorem broadcast_delivers_whole_frames (payload : string) (clients : list client) :
  let frame := sseFrame (Some "line") payload in
  (forall c', In c' (broadcast payload clients) ->
     exists c, In c clients /\ received c' = (received c ++ frame)%list)
  /\ (forall c, In c clients -> failsAfter c = None ->
        In {| received := (received c ++ frame)%list; failsAfter := None |}
          (broadcast payload clients))
  /\ (forall c, failsAfter c = Some 0%nat -> broadcast payload [ c ] = [])
  /\ (length (broadcast payload clients) <= length clients)%nat.
Proof.
  cbv zeta. unfold broadcast, sseSend. repeat apply conj.
  - intros c' Hin. apply list_elem_of_In, list_elem_of_omap in Hin as (c & Hc & Hw).
    exists c. split; [ now apply list_elem_of_In | now apply writeAll_received ].
  - intros c Hin Hnone. apply list_elem_of_In, list_elem_of_omap.
    exists c. split; [ now apply list_elem_of_In | now apply writeAll_never_failing ].
  - intros c Hc. simpl. unfold sseFrame. simpl. now rewrite Hc.
  - apply length_omap_le.
Qed.

(** * The agent name *)

Lemma matchNameFrom_inside_line (l t : string) :
  noBreak l = true ->
  matchNameFrom false (l ++ String LF t) = matchNameFrom true t.
Proof.
  unfold noBreak. induction l as [ | c l IH ]; intros H; [ reflexivity | ].
  simpl in H. apply andb_prop in H as [Hc Hl].
  apply andb_prop in Hc as [Hlf Hcr]. apply negb_true_iff in Hlf, Hcr.
  change (String c l ++ String LF t) with (String c (l ++ String LF t)).
  cbn [matchNameFrom]. unfold isLineTerminator. rewrite Hlf, Hcr. now apply IH.
Qed.

Lemma matchNameFrom_plain_line (l t : string) :
  noBreak l = true -> noBullet l = true ->
  matchNameFrom true (l ++ String LF t) = matchNameFrom true t.
Proof.
  intros Hb Hd. destruct l as [ | c l ]; [ reflexivity | ].
  simpl in Hd. apply negb_true_iff in Hd.
  unfold noBreak in Hb. simpl in Hb. apply andb_prop in Hb as [Hc Hl].
  apply andb_prop in Hc as [Hlf Hcr]. apply negb_true_iff in Hlf, Hcr.
  change (String c l ++ String LF t) with (String c (l ++ String LF t)).
  cbn [matchNameFrom matchNameHere]. rewrite Hd.
  unfold isLineTerminator. rewrite Hlf, Hcr. now apply matchNameFrom_inside_line.
Qed.

Lemma matchNameFrom_plain_lines (ls : list string) (t : string) :
  Forall (fun l => noBreak l = true /\ noBullet l = true) ls ->
  matchNameFrom true (joinLines ls ++ t) = matchNameFrom true t.
Proof.
  induction 1 as [ | l ls [Hb Hd] _ IH ]; [ reflexivity | ].
  change (joinLines (l :: ls)) with (l ++ String LF (joinLines ls)).
  rewrite append_assoc.
  change (String LF (joinLines ls) ++ t) with (String LF (joinLines ls ++ t)).
  now rewrite matchNameFrom_plain_line.
Qed.

Lemma takeWhile_line (x rest : string) :
  noBreak x = true -> endsLine rest = true ->
  takeWhile (fun c => negb (isLineTerminator c)) (x ++ rest) = x.
Proof.
  unfold noBreak. intros Hx Hr. induction x as [ | c x IH ].
  - destruct rest as [ | c r ]; [ reflexivity | ]. simpl in *. now rewrite Hr.
  - simpl in Hx. apply andb_prop in Hx as [Hc Hx].
    apply andb_prop in Hc as [Hlf Hcr]. apply negb_true_iff in Hlf, Hcr.
    change (String c x ++ rest) with (String c (x ++ rest)).
    cbn [takeWhile]. unfold isLineTerminator at 1. rewrite Hlf, Hcr. cbn.
    now rewrite IH.
Qed.

Lemma matchNameHere_bullet (sp1 sp2 : string) (c : ascii) (n rest : string) :
  allChars isWhiteSpace sp1 = true -> allChars isWhiteSpace sp2 = true ->
  isWhiteSpace c = false -> noBreak (String c n) = true -> endsLine rest = true ->
  matchNameHere ("-" ++ sp1 ++ "**Name:**" ++ sp2 ++ String c n ++ rest)
  = Some (String c n).
Proof.
  intros H1 H2 Hc Hn Hr.
  change ("-" ++ sp1 ++ "**Name:**" ++ sp2 ++ String c n ++ rest)
    with (String "-" (sp1 ++ String "*" ("*Name:**" ++ sp2 ++ String c n ++ rest))).
  cbn [matchNameHere]. change (Ascii.eqb "-" "-") with true. cbv iota.
  rewrite (@dropWhile_append isWhiteSpace sp1 "*" _ H1 eq_refl).
  change (String "*" ("*Name:**" ++ sp2 ++ String c n ++ rest))
    with ("**Name:**" ++ (sp2 ++ String c (n ++ rest))).
  generalize (@takeWhile_line (String c n) rest Hn Hr).
  change (String c n ++ rest) with (String c (n ++ rest)).
  generalize (@dropWhile_append isWhiteSpace sp2 c (n ++ rest) H2 Hc).
  generalize (sp2 ++ String c (n ++ rest)). intros X HX HT.
  assert (String.prefix "**Name:**" ("**Name:**" ++ X) = true) as ->
    by (destruct X; reflexivity).
  change (skip 9 ("**Name:**" ++ X)) with X. cbv zeta. rewrite HX. now rewrite HT.
Qed.

(** X24. The agent name is read from the first line that is a name
    bullet: after any lines that do not start with a dash, the line
    [- **Name:** <name>] (with any white space, or none, after the dash
    and after the label) gives the name up to the end of its line, with
    the white space at its end removed.  A file none of whose lines
    starts with a dash gives no name, and whatever name is returned has
    no white space at either end. *)
Theorem agent_name_is_read_from_the_name_bullet (before : list string)
  (sp1 sp2 : string) (c : ascii) (n rest : string) :
  Forall (fun l => noBreak l = true /\ noBullet l = true) before ->
  (allChars isWhiteSpace sp1 = true -> allChars isWhiteSpace sp2 = true ->
   isWhiteSpace c = false -> noBreak (String c n) = true -> endsLine rest = true ->
   loadAgentNameFromIdentity
     (Some (joinLines before
            ++ "-" ++ sp1 ++ "**Name:**" ++ sp2 ++ String c n ++ rest))
   = Some (trim (String c n)))
  /\ loadAgentNameFromIdentity (Some (joinLines before)) = None
  /\ (forall txt name, loadAgentNameFromIdentity txt = Some name -> isTrimmed name).
Proof.
  intros Hb. repeat apply conj.
  - intros H1 H2 Hc Hn Hr. unfold loadAgentNameFromIdentity.
    set (line := "-" ++ sp1 ++ "**Name:**" ++ sp2 ++ String c n ++ rest).
    assert (String.eqb (joinLines before ++ line) "" = false) as ->.
    { apply String.eqb_neq. intros E. apply (f_equal String.length) in E.
      rewrite length_append in E. subst line. simpl in E. lia. }
    rewrite (@matchNameFrom_plain_lines before line Hb).
    assert (matchNameFrom true line = Some (String c n)) as ->; [ | reflexivity ].
    pose proof (@matchNameHere_bullet sp1 sp2 c n rest H1 H2 Hc Hn Hr) as Hm.
    fold line in Hm. subst line.
    change ("-" ++ sp1 ++ "**Name:**" ++ sp2 ++ String c n ++ rest)
      with (String "-" (sp1 ++ "**Name:**" ++ sp2 ++ String c n ++ rest)) in *.
    cbn [matchNameFrom]. now rewrite Hm.
  - unfold loadAgentNameFromIdentity.
    destruct (String.eqb (joinLines before) ""); [ reflexivity | ].
    pose proof (@matchNameFrom_plain_lines before "" Hb) as H.
    rewrite append_empty_r in H. now rewrite H.
  - intros txt name. unfold loadAgentNameFromIdentity.
    destruct txt as [ t | ]; [ | discriminate ].
    destruct (String.eqb t ""); [ discriminate | ].
    destruct (matchNameFrom true t); [ | discriminate ].
    intros [= <-]. apply trim_isTrimmed.
Qed.

(** * The properties at work on concrete runs *)

Lemma sanitize_drops_sensitive_keys_witness :
  default_dropKeysRe "apiKey" = true
  /\ hasKeyDeep "apiKey"
       (sanitizeAny 160 default_dropKeysRe
          (VObj [ ("apiKey", VStr "sk-abcdef0123456789");
                  ("calls", VArr [ VObj [ ("apiKey", VNum 1); ("path", VStr "/tmp/a") ] ]) ]
           : value Z)) = false.
Proof.
  split; [ reflexivity | ].
  apply sanitize_drops_sensitive_keys. reflexivity.
Defined.

Lemma sanitize_long_string_reveals_length_only_witness :
  160 < Z.of_nat (String.length (repeatString 161 "a"))
  /\ String.length (repeatString 161 "b") = String.length (repeatString 161 "a")
  /\ sanitizeAny 160 default_dropKeysRe (VStr (repeatString 161 "b") : value Z)
     = VStr "<redacted:161>".
Proof.
  split; [ reflexivity | ]. split; [ reflexivity | ].
  exact (@sanitize_long_string_reveals_length_only Z 160 default_dropKeysRe
           (repeatString 161 "a") (repeatString 161 "b") eq_refl eq_refl).
Defined.

Lemma consume_is_fifo_witness :
  let st2 := pushStart Z_toString Z_truthy 100500 (Some "s1") "exec" paramsPwd
               (pushStart Z_toString Z_truthy 100000 (Some "s1") "exec" paramsLs stOld) in
  let c1 := popRecentStart 101000 (Some "s1") (VStr "exec") None st2 in
  let c2 := popRecentStart 102000 (Some "s1") (VStr "exec") None (snd c1) in
  let c3 := popRecentStart 103000 (Some "s1") (VStr "exec") None (snd c2) in
  Forall (tooOld 101000 (window None)) (queueOf stOld "s1" "exec")
  /\ (fst c1 = Some (observation Z_toString Z_truthy 100000 "exec" paramsLs)
      /\ fst c2 = Some (observation Z_toString Z_truthy 100500 "exec" paramsPwd)
      /\ fst c3 = None).
Proof.
  assert (Forall (tooOld 101000 (window None)) (queueOf stOld "s1" "exec")) as Hold.
  { repeat constructor. }
  split; [ exact Hold | ].
  apply (@consume_is_fifo Z Z_toString Z_truthy stOld "s1" "exec" paramsLs paramsPwd
           100000 100500 101000 102000 103000 None).
  - discriminate.
  - discriminate.
  - exact Hold.
  - vm_compute. discriminate.
  - vm_compute. discriminate.
Defined.

Lemma consume_never_returns_stale_witness :
  let o := observation Z_toString Z_truthy 100000 "exec" paramsLs in
  let st1 := pushStart Z_toString Z_truthy 100000 (Some "s1") "exec" paramsLs stOld in
  fst (popRecentStart 101000 (Some "s1") (VStr "exec") None st1) = Some o
  /\ 101000 - tsMs o <= window None.
Proof.
  intros o st1.
  assert (fst (popRecentStart 101000 (Some "s1") (VStr "exec") None st1) = Some o) as H
    by (vm_compute; reflexivity).
  split; [ exact H | ].
  exact (proj1 (consume_never_returns_stale st1 101000 (Some "s1") (VStr "exec") None H)).
Defined.

Lemma start_queue_is_capped_witness :
  let st' := pushStart Z_toString Z_truthy 40 (Some "s1") "exec" paramsPwd st40 in
  (length (queueOf st40 "s1" "exec") = 40)%nat
  /\ (length (queueOf st' "s1" "exec") <= 40)%nat
  /\ queueOf st' "s1" "exec"
     = (tl (queueOf st40 "s1" "exec") ++ [ observation Z_toString Z_truthy 40 "exec" paramsPwd ])%list
  /\ fst (popRecentStart 41 (Some "s1") (VStr "exec") None st')
     = Some (observation Z_toString Z_truthy 1 "exec" paramsLs).
Proof.
  intros st'.
  pose proof (@start_queue_is_capped Z Z_toString Z_truthy st40 40 "s1" "exec" paramsPwd
                ltac:(discriminate) ltac:(discriminate)) as [Hcap Hevict].
  split; [ vm_compute; reflexivity | ]. split; [ exact Hcap | ].
  split.
  - exact (proj1 (Hevict (observation Z_toString Z_truthy 0 "exec" paramsLs)
                    (tl (queueOf st40 "s1" "exec")) eq_refl eq_refl)).
  - vm_compute. reflexivity.
Defined.

Lemma tail_returns_last_records_witness :
  Forall (fun e => lineOk (printEntry e) = true) [ entryExec; entryNote; entryExec ]
  /\ (2 <= length [ entryExec; entryNote; entryExec ])%nat
  /\ tailLines (Some (appendAll printEntry [ entryExec; entryNote; entryExec ] ""))
       (Some (Int 2))
     = [ printEntry entryNote; printEntry entryExec ].
Proof.
  assert (Forall (fun e => lineOk (printEntry e) = true)
            [ entryExec; entryNote; entryExec ]) as Hok.
  { repeat constructor; apply lineOk_printEntry. }
  split; [ exact Hok | ]. split; [ simpl; lia | ].
  exact (@tail_returns_last_records Z printEntry [ entryExec; entryNote; entryExec ] 2
           Hok ltac:(simpl; lia)).
Defined.

Lemma export_filters_by_timestamp_witness :
  "not json" <> ""
  /\ In (writeLine "not json")
       (exportStream parseTs (Some "2025-01-01T00:00:00Z") exportLines false)
  /\ tsLine "2024-12-31T23:59:59Z" <> ""
  /\ ~ In (writeLine (tsLine "2024-12-31T23:59:59Z"))
         (exportStream parseTs (Some "2025-01-01T00:00:00Z") exportLines false).
Proof.
  split; [ discriminate | ]. split.
  - apply (proj1 (@export_filters_by_timestamp Z parseTs (Some "2025-01-01T00:00:00Z")
                    exportLines false "not json" ltac:(discriminate))).
    + right. left. reflexivity.
    + reflexivity.
  - split; [ discriminate | ].
    apply (proj2 (@export_filters_by_timestamp Z parseTs (Some "2025-01-01T00:00:00Z")
                    exportLines false (tsLine "2024-12-31T23:59:59Z") ltac:(discriminate))
             "2025-01-01T00:00:00Z" (VObj [ ("ts", VStr "2024-12-31T23:59:59Z") ])
             "2024-12-31T23:59:59Z"); reflexivity.
Defined.

(** C9 as stated fails on an empty line: it does not parse, and it is
    dropped.  The parser rejects both lines, as [JSON.parse] does. *)
Lemma export_drops_empty_line :
  let parse := fun _ : string => @None (value Z) in
  let lines := [ ""; "not json" ] in
  In "" lines /\ parse "" = None
  /\ exportStream parse (Some "2025-01-01T00:00:00Z") lines false = [ writeLine "not json" ]
  /\ ~ In (writeLine "") (exportStream parse (Some "2025-01-01T00:00:00Z") lines false).
Proof.
  cbv zeta. split; [ now left | ]. split; [ reflexivity | ]. split; [ reflexivity | ].
  intros [ H | [] ]. discriminate H.
Qed.

Lemma empty_reload_keeps_last_good_map_witness :
  loadSessionMetaMap Z_truthy (metaParsed emptyReload) = ∅
  /\ sessionMetaMap (refreshSessionMaps Z_truthy emptyReload stMeta) = metaDanilo
  /\ snd (resolveLabel Z_toString Z_truthy (metaParsed emptyReload) (Some "s2")
            (VStr "id2") (VStr "s2") stMeta) = stMeta
  /\ fst (resolveLabel Z_toString Z_truthy (metaParsed emptyReload) (Some "s1")
            (VStr "id1") (VStr "s1")
            (refreshSessionMaps Z_truthy emptyReload stMeta)) = VStr "Danilo".
Proof.
  pose proof (@empty_reload_keeps_last_good_map Z Z_toString Z_truthy emptyReload
                (metaParsed emptyReload) (Some "s2") (VStr "id2") (VStr "s2") stMeta)
    as (_ & Hrefresh & Hretry & _).
  split; [ reflexivity | ]. split; [ exact (Hrefresh eq_refl) | ].
  split; [ exact (proj1 (Hretry eq_refl)) | ].
  vm_compute. reflexivity.
Defined.

(** C1 as stated fails on the note route: a note of 161 characters, one
    more than [maxString], is handed to the ledger as it came, where the
    sanitizer would have left [<redacted:161>]. *)
Lemma note_text_reaches_ledger_unsanitized :
  maxString cfg0 < Z.of_nat (String.length longText)
  /\ sanitize cfg0 (VStr longText : value Z) = VStr "<redacted:161>"
  /\ exists e,
       snd (run Z_toString Z_truthy printEntry parseNote cfg0
              [ (world0 5, Note "POST" noteBody) ] st0) = [ e ]
       /\ summary e = VStr longText.
Proof.
  split; [ reflexivity | ]. split; [ vm_compute; reflexivity | ].
  eexists. split; vm_compute; reflexivity.
Qed.

(** In the same way [after_tool_call] copies [event.error] into
    [details] without sanitizing it. *)
Lemma after_tool_call_copies_error (w : world Z) (event : tool_event Z)
  (hookCtx : hook_ctx Z) (st : state Z) :
  assoc "error"
    (details (fst (after_tool_call_entry Z_toString Z_truthy cfg0 w event hookCtx st)))
  = Some (ev_error event).
Proof.
  unfold after_tool_call_entry.
  destruct (resolveLabel _ _ _ _ _ _ _) as [lbl st1]. reflexivity.
Qed.

Lemma records_show_sanitized_params_only_witness :
  Forall2 (same_public_call (maxString cfg0) (dropKeysRe cfg0))
    (callsWith paramsSecret) (callsWith paramsOther)
  /\ run Z_toString Z_truthy printEntry (parseTable []) cfg0 (callsWith paramsSecret) st0
     = run Z_toString Z_truthy printEntry (parseTable []) cfg0 (callsWith paramsOther) st0.
Proof.
  assert (same_public (maxString cfg0) (dropKeysRe cfg0) paramsSecret paramsOther) as Hp.
  { apply sp_obj. apply spf_cons; [ apply sp_same | ].
    apply spf_secret_l; [ reflexivity | ].
    apply spf_cons; [ apply sp_long; reflexivity | ].
    apply spf_secret_r; [ reflexivity | ]. apply spf_nil. }
  assert (Forall2 (same_public_call (maxString cfg0) (dropKeysRe cfg0))
            (callsWith paramsSecret) (callsWith paramsOther)) as H.
  { constructor; [ | constructor; [ | constructor; [ | constructor ] ] ].
    - split; [ reflexivity | ]. apply spi_before.
      split; [ reflexivity | ]. split; [ exact Hp | ]. split; reflexivity.
    - split; [ reflexivity | ]. apply spi_after.
      split; [ reflexivity | ]. split; [ exact Hp | ]. split; reflexivity.
    - split; [ reflexivity | ]. apply spi_same. }
  split; [ exact H | ].
  exact (@records_show_sanitized_params_only Z Z_toString Z_truthy printEntry
           (parseTable []) cfg0 _ _ st0 H).
Defined.

(** The two end-to-end scenarios of the specification. *)
Example exec_scenario :
  snd (run Z_toString Z_truthy printEntry (parseTable []) cfg0
         [ (world0 5, BeforeToolCall (ToolEvent "exec" paramsLs VUndefined VUndefined) ctx0);
           (world0 47, ToolResultPersist persistExec ctx0) ] st0)
  = [ {| ts := "2025-02-04T19:00:00Z"; source := "plugin";
         agent_id := "main"; agent_name := "Pi";
         session_key := Some "s1"; session_id := VUndefined;
         session_label := VUndefined; session_channel := VUndefined;
         tool := VStr "exec"; phase := Some "done"; fingerprint := Some VUndefined;
         summary := VStr "ls -la";
         details := [ ("durationMs", VNum 42); ("paths", VArr []); ("url", VUndefined);
                      ("error", VUndefined); ("result", VStr "ok") ] |} ].
Proof. vm_compute. reflexivity. Qed.

Example apiKey_scenario :
  sanitize cfg0 (VObj [ ("apiKey", VStr "sk-abcdef0123456789"); ("command", VStr "ls") ]
                 : value Z)
  = VObj [ ("command", VStr "ls") ].
Proof. reflexivity. Qed.

(** The default pattern is an unanchored, case-insensitive alternation:
    it matches [Authorization] and [access-token], and it does not match
    the hyphenated spellings [api-key] and [private-key]. *)
Example default_pattern_examples :
  map default_dropKeysRe
    [ "Authorization"; "access-token"; "APIKEY"; "privateKey"; "api-key"; "private-key" ]
  = [ true; true; true; true; false; false ].
Proof. reflexivity. Qed.

(** * Further properties at work on concrete runs *)

Lemma sanitize_masks_api_keys_witness :
  allChars skChar "abcdef0123456789" = true
  /\ (10 <= String.length "abcdef0123456789")%nat
  /\ sanitizeAny 160 default_dropKeysRe (VStr "sk-abcdef0123456789" : value Z)
     = VStr "<redacted:sk>".
Proof.
  split; [ reflexivity | ]. split; [ simpl; lia | ].
  exact (@sanitize_masks_api_keys Z 160 default_dropKeysRe "abcdef0123456789"
           eq_refl ltac:(simpl; lia)).
Defined.

Lemma sanitize_masks_bearer_credentials_witness :
  mapChars foldAscii "Bearer" = "bearer"
  /\ sanitizeAny 160 default_dropKeysRe (VStr "Bearer abc.def" : value Z)
     = VStr "<redacted:bearer>".
Proof.
  split; [ reflexivity | ].
  exact (@sanitize_masks_bearer_credentials Z 160 default_dropKeysRe "Bearer" " " "bc.def" "a"
           eq_refl ltac:(discriminate) eq_refl eq_refl).
Defined.

Lemma sanitized_strings_are_short_or_markers_witness :
  jsonLike paramsSecret = true
  /\ Forall (fun t => Z.of_nat (String.length t) <= 160 \/ isMarker t)
       (stringLeaves (sanitizeAny 160 default_dropKeysRe paramsSecret)).
Proof.
  split; [ reflexivity | ].
  exact (@sanitized_strings_are_short_or_markers Z 160 default_dropKeysRe paramsSecret eq_refl).
Defined.


Lemma pickPaths_bounded_distinct_sound_witness :
  In "/tmp/b" (pickPaths argsFiles) /\ storedUnder isPathKey "/tmp/b" argsFiles.
Proof.
  assert (In "/tmp/b" (pickPaths argsFiles)) as H by (vm_compute; tauto).
  split; [ exact H | ].
  exact (proj2 (proj2 (@pickPaths_bounded_distinct_sound Z argsFiles)) "/tmp/b" H).
Defined.

Lemma pickUrl_undefined_or_stored_url_witness :
  isContainer (VStr "https://example.org/" : value Z) = false
  /\ pickUrl (VStr "https://example.org/" : value Z) = VUndefined.
Proof.
  split; [ reflexivity | ].
  exact (proj2 (@pickUrl_undefined_or_stored_url Z (VStr "https://example.org/")) eq_refl).
Defined.

Lemma exec_summary_is_bounded_witness :
  summarize Z_toString Z_truthy "exec" paramsLs = VStr "ls -la".
Proof.
  destruct (@exec_summary_is_bounded Z Z_toString Z_truthy paramsLs)
    as (s & Hs & _ & Hshort & _).
  rewrite Hs. f_equal. apply Hshort. simpl. lia.
Defined.

Lemma tailLines_returns_a_clean_suffix_witness :
  0 <= 2
  /\ (length (tailLines (Some (joinMixed mixedLines)) (Some (Int 2))) <= Z.to_nat 2)%nat.
Proof.
  split; [ lia | ].
  exact (proj1 (proj2 (proj2 (tailLines_returns_a_clean_suffix
                                (Some (joinMixed mixedLines)) (Some (Int 2))))) 2 eq_refl
           ltac:(lia)).
Defined.

Lemma parseLines_accepts_both_line_endings_witness :
  Forall (fun lb : string * bool => noBreak (fst lb) = true) mixedLines
  /\ parseLines (joinMixed mixedLines) = [ "a"; "b" ].
Proof.
  assert (Forall (fun lb : string * bool => noBreak (fst lb) = true) mixedLines) as H
    by (repeat constructor).
  split; [ exact H | ].
  exact (parseLines_accepts_both_line_endings H).
Defined.


Lemma export_stream_keeps_what_is_not_older_witness :
  exportStream parseTs None exportLines false
  = map writeLine (List.filter nonEmpty exportLines).
Proof.
  exact (proj2 (@export_stream_keeps_what_is_not_older Z parseTs None exportLines false)
           (or_introl eq_refl)).
Defined.

Lemma ledger_is_append_only_witness :
  Forall (fun c : world Z * input Z => appendOk (fst c) = true) (callsWith paramsLs)
  /\ ledger (fst (run Z_toString Z_truthy printEntry parseNote cfg0 (callsWith paramsLs) st0))
     = joinLines (map printEntry
                    (snd (run Z_toString Z_truthy printEntry parseNote cfg0
                            (callsWith paramsLs) st0))).
Proof.
  assert (Forall (fun c : world Z * input Z => appendOk (fst c) = true) (callsWith paramsLs))
    as H by (repeat constructor).
  split; [ exact H | ].
  exact (proj2 (@ledger_is_append_only Z Z_toString Z_truthy printEntry parseNote cfg0
                  (callsWith paramsLs) st0) H).
Defined.

Lemma queue_cap_is_invariant_witness :
  queuesCapped st0
  /\ queuesCapped
       (fst (run Z_toString Z_truthy printEntry parseNote cfg0 (callsWith paramsLs) st0)).
Proof.
  assert (queuesCapped st0) as H.
  { intros sk tn. unfold queueOf, st0. cbn [recentStarts].
    rewrite lookup_empty. cbn [default]. rewrite lookup_empty. simpl. lia. }
  split; [ exact H | ].
  exact (@queue_cap_is_invariant Z Z_toString Z_truthy printEntry parseNote cfg0
           (callsWith paramsLs) st0 H).
Defined.

Lemma start_queues_are_independent_witness :
  ("s2", "exec") <> ("s1", "exec")
  /\ queueOf (pushStart Z_toString Z_truthy 5 (Some "s1") "exec" paramsLs stOld) "s2" "exec"
     = queueOf stOld "s2" "exec".
Proof.
  split; [ discriminate | ].
  exact (proj1 (@start_queues_are_independent Z Z_toString Z_truthy stOld 5
                  "s1" "exec" "s2" "exec" paramsLs None ltac:(discriminate))).
Defined.

Lemma ledger_reads_back_the_run_witness :
  ledger st0 = ""
  /\ parseLines
       (ledger (fst (run Z_toString Z_truthy printEntry parseNote cfg0
                       (callsWith paramsLs) st0)))
     = map printEntry
         (snd (run Z_toString Z_truthy printEntry parseNote cfg0 (callsWith paramsLs) st0)).
Proof.
  split; [ reflexivity | ].
  apply (@ledger_reads_back_the_run Z Z_toString Z_truthy printEntry parseNote cfg0
           (callsWith paramsLs) st0 eq_refl).
  - repeat constructor.
  - apply Forall_forall. intros e _. apply lineOk_printEntry.
Defined.

Lemma persisted_record_carries_the_start_witness :
  47 - 5 <= 30000
  /\ summary (fst (tool_result_persist_entry Z_toString Z_truthy cfg0 (world0 47) persistExec
                     ctx0
                     (before_tool_call Z_toString Z_truthy cfg0 (world0 5)
                        (ToolEvent "exec" paramsLs VUndefined VUndefined) ctx0 st0)))
     = VStr "ls -la".
Proof.
  split; [ lia | ].
  exact (proj1 (@persisted_record_carries_the_start Z Z_toString Z_truthy cfg0 st0
                  (world0 5) (world0 47)
                  (ToolEvent "exec" paramsLs VUndefined VUndefined) persistExec ctx0 ctx0 "s1"
                  eq_refl eq_refl ltac:(discriminate) ltac:(discriminate) eq_refl
                  ltac:(constructor) ltac:(simpl; lia))).
Defined.


Lemma persisted_record_without_start_names_the_tool_witness :
  Forall (tooOld (now (world0 40000)) 30000) (queueOf stOld "s1" "exec")
  /\ summary (fst (tool_result_persist_entry Z_toString Z_truthy cfg0 (world0 40000)
                     persistExec ctx0 stOld))
     = VStr "exec"
  /\ queueOf (snd (tool_result_persist_entry Z_toString Z_truthy cfg0 (world0 40000)
                     persistExec ctx0 stOld)) "s1" "exec" = [].
Proof.
  assert (Forall (tooOld (now (world0 40000)) 30000) (queueOf stOld "s1" "exec")) as H
    by (repeat constructor).
  split; [ exact H | ].
  pose proof (@persisted_record_without_start_names_the_tool Z Z_toString Z_truthy cfg0
                stOld (world0 40000) persistExec ctx0 "s1" "exec" eq_refl eq_refl H)
    as (Hs & _ & _ & Hq).
  split; [ exact Hs | exact Hq ].
Defined.

Lemma cron_names_are_trimmed_and_not_empty_witness :
  loadCronJobNameMap Z_truthy (Some cronFile) !! "j1" = Some "nightly"
  /\ isTrimmed "nightly".
Proof.
  assert (loadCronJobNameMap Z_truthy (Some cronFile) !! "j1" = Some "nightly") as H
    by (vm_compute; reflexivity).
  split; [ exact H | ].
  exact (proj1 (proj2 (@cron_names_are_trimmed_and_not_empty Z Z_truthy (Some cronFile)
                         "j1" "nightly" H))).
Defined.

Lemma session_registry_entries_are_usable_witness :
  loadSessionMap Z_truthy (Some sessionsFile) !! "agent:main:main"
  = Some (sessionInfoFrom Z_truthy "agent:main:main"
            (VObj [ ("sessionId", VStr "id1");
                    ("origin", VObj [ ("label", VStr "telegram id:12345") ]) ]))
  /\ truthy Z_truthy
       (sessionId (sessionInfoFrom Z_truthy "agent:main:main"
                     (VObj [ ("sessionId", VStr "id1");
                             ("origin", VObj [ ("label", VStr "telegram id:12345") ]) ])))
     = true.
Proof.
  assert (loadSessionMap Z_truthy (Some sessionsFile) !! "agent:main:main"
          = Some (sessionInfoFrom Z_truthy "agent:main:main"
                    (VObj [ ("sessionId", VStr "id1");
                            ("origin", VObj [ ("label", VStr "telegram id:12345") ]) ])))
    as H by (vm_compute; reflexivity).
  split; [ exact H | ].
  exact (proj1 (@session_registry_entries_are_usable Z Z_truthy (Some sessionsFile)
                  "agent:main:main" _ H)).
Defined.

Lemma session_meta_map_mirrors_the_file_witness :
  distinctKeys metaSessions
  /\ loadSessionMetaMap Z_truthy (Some metaFile) !! "id1"
     = Some {| meta_label := VStr "Danilo"; meta_channel := VStr "telegram";
               meta_lastTo := VNull |}.
Proof.
  assert (distinctKeys metaSessions) as H.
  { unfold distinctKeys. simpl. constructor; [ simpl; tauto | constructor ]. }
  split; [ exact H | ].
  exact (proj1 (@session_meta_map_mirrors_the_file Z Z_truthy metaFile metaSessions "id1")
           eq_refl H).
Defined.

Lemma cron_sessions_resolve_to_the_job_name_witness :
  cronJobNameMap stCron !! "j1" = Some "nightly"
  /\ resolveLabel Z_toString Z_truthy None (Some "agent:main:cron:j1") VUndefined
       (VStr "agent:main:cron:j1") stCron
     = (VStr "cron:nightly", stCron).
Proof.
  assert (cronJobNameMap stCron !! "j1" = Some "nightly") as H by (vm_compute; reflexivity).
  split; [ exact H | ].
  exact (proj1 (@cron_sessions_resolve_to_the_job_name Z Z_toString Z_truthy None
                  "agent:main" "j1" "nightly" VUndefined (VStr "agent:main:cron:j1") stCron
                  eq_refl eq_refl H ltac:(discriminate) eq_refl)).
Defined.

Lemma reload_recovers_a_missing_label_witness :
  metaLabel Z_toString Z_truthy (sessionMetaMap st0) (VStr "id1") = None
  /\ fst (resolveLabel Z_toString Z_truthy (Some metaFile) (Some "s1") (VStr "id1")
            (VStr "s1") st0)
     = VStr "Danilo".
Proof.
  assert (metaLabel Z_toString Z_truthy (sessionMetaMap st0) (VStr "id1") = None) as H
    by (vm_compute; reflexivity).
  split; [ exact H | ].
  refine (proj1 (@reload_recovers_a_missing_label Z Z_toString Z_truthy metaFile metaSessions
                   "id1" (VObj [ ("displayName", VStr "Danilo"); ("channel", VStr "telegram") ])
                   (Some "s1") (VStr "s1") st0 eq_refl _ eq_refl eq_refl
                   ltac:(discriminate) H eq_refl)).
  unfold distinctKeys. simpl. constructor; [ simpl; tauto | constructor ].
Defined.

Lemma sse_frame_carries_the_payload_witness :
  noBreak (printEntry entryExec) = true
  /\ sseFrame (Some "line") (printEntry entryExec)
     = [ "event: line" ++ LFs; "data: " ++ printEntry entryExec ++ LFs; LFs ].
Proof.
  assert (noBreak (printEntry entryExec) = true) as H by (vm_compute; reflexivity).
  split; [ exact H | ].
  exact (proj2 (proj2 (sse_frame_carries_the_payload (Some "line") (printEntry entryExec))) H).
Defined.

Lemma broadcast_delivers_whole_frames_witness :
  In listener twoClients
  /\ In {| received := (received listener
                        ++ sseFrame (Some "line") (printEntry entryExec))%list;
           failsAfter := None |}
       (broadcast (printEntry entryExec) twoClients).
Proof.
  assert (In listener twoClients) as H by (left; reflexivity).
  split; [ exact H | ].
  exact (proj1 (proj2 (broadcast_delivers_whole_frames (printEntry entryExec) twoClients))
           listener H eq_refl).
Defined.

Lemma agent_name_is_read_from_the_name_bullet_witness :
  Forall (fun l => noBreak l = true /\ noBullet l = true) [ "# IDENTITY"; "" ]
  /\ loadAgentNameFromIdentity (Some identityFile) = Some "Pi".
Proof.
  assert (Forall (fun l => noBreak l = true /\ noBullet l = true) [ "# IDENTITY"; "" ]) as H
    by (repeat constructor).
  split; [ exact H | ].
  exact (proj1 (@agent_name_is_read_from_the_name_bullet [ "# IDENTITY"; "" ] " " " "
                  "P" "i  " (joinLines [ ""; "- **Role:** helper" ]) H)
           eq_refl eq_refl eq_refl eq_refl eq_refl).
Defined.

